(** * ShiftTracker: the record-storage-and-aggregation engine of [main.cpp]

    A shallow embedding of the C++ program: the [Shift] record with its
    CSV codec, the file-backed storage, the date utilities, the tax
    estimator and the [Tracker] operations, followed by the properties
    established about them.

    Modelling conventions.
    - [std::string] is [string]; [char] comparison is by character code,
      which is what [String.ltb] computes.
    - [size_t] line numbers and counts are [N] and [nat]; [int] and
      [time_t] values are [Z] (the date fields read from at most four
      characters stay far inside the 32-bit range, and [time_t] is taken
      to be 64 bits wide).
    - [double] is IEEE 754 binary64, with the kernel's primitive floats
      for the numbers and their correctly rounded operations (round to
      nearest, ties to even) and the sign of a NaN kept beside them.
      Where the C++ standard leaves the choice to the platform, the model
      follows GCC with glibc and libstdc++ on x86-64: [std::stod] is
      [strtod] and reports a result that underflows with loss of
      accuracy as out of range, an invalid operation gives the NaN with
      its sign bit set, [operator<<] prints as [printf("%g")] does.
      When both operands of an operation are NaN the result takes the
      sign of the left one here; the machine takes the sign of one of
      the two, which one being the compiler's choice, and no property
      below depends on it.
    - [std::sort] is a parameter of the [Tracker] operations, described by
      what the C++ standard promises of it; [Libstdcxx.sort] is the
      procedure libstdc++ implements.
    - A C++ exception is a value of [exn]; a function that may throw
      returns a [result]. *)

From Stdlib Require Import ZArith List String Ascii Bool.
From Stdlib Require Import Lia Permutation Sorted DecimalString.
From Stdlib Require Import Floats.
From Stdlib Require Uint63.
Import ListNotations.

Local Open Scope string_scope.
Local Open Scope Z_scope.
#[local] Set Warnings "-inexact-float".

(** ** Exceptions *)

Inductive exn : Type :=
| runtime_error (what : string)
| invalid_argument (what : string)
| out_of_range (what : string).

Inductive result (A : Type) : Type :=
| Ok (a : A)
| Throw (e : exn).

Arguments Ok {A} a.
Arguments Throw {A} e.

Definition bind {A B : Type} (r : result A) (k : A -> result B) : result B :=
  match r with
  | Ok a => k a
  | Throw e => Throw e
  end.

Notation "x <- r ;; k" := (bind r (fun x => k))
  (at level 61, r at next level, right associativity).

(** [what()] of an exception. *)
Definition what_of (e : exn) : string :=
  match e with
  | runtime_error w | invalid_argument w | out_of_range w => w
  end.

(** ** [double] *)

(** A binary64 value: a number (finite, a zero or an infinity, held by a
    primitive float that is not a NaN), or a NaN with its sign bit. *)
Inductive double : Type :=
| Num (x : float)
| NaN (negative : bool).

(** The result of a machine operation: an invalid operation gives the
    default NaN, whose sign bit is set. *)
Definition of_float (x : float) : double :=
  if PrimFloat.is_nan x then NaN true else Num x.

(** A binary operation: a NaN operand is the result. *)
Definition arith (op : float -> float -> float) (a b : double) : double :=
  match a, b with
  | NaN s, _ => NaN s
  | Num _, NaN s => NaN s
  | Num x, Num y => of_float (op x y)
  end.

(** [a + b], [a - b], [a * b] and [a / b]. *)
Definition dadd : double -> double -> double := arith PrimFloat.add.
Definition dsub : double -> double -> double := arith PrimFloat.sub.
Definition dmul : double -> double -> double := arith PrimFloat.mul.
Definition ddiv : double -> double -> double := arith PrimFloat.div.

(** [a < b], [a <= b], [a >= b] and [a == b]: false when an operand is a
    NaN. *)
Definition dlt (a b : double) : bool :=
  match a, b with
  | Num x, Num y => PrimFloat.ltb x y
  | _, _ => false
  end.

Definition dle (a b : double) : bool :=
  match a, b with
  | Num x, Num y => PrimFloat.leb x y
  | _, _ => false
  end.

Definition dge (a b : double) : bool := dle b a.

Definition deq (a b : double) : bool :=
  match a, b with
  | Num x, Num y => PrimFloat.eqb x y
  | _, _ => false
  end.

(** ** Rounding to the nearest, ties to even *)

(** Nearest integer to [n / d] for [d > 0], ties to even. *)
Definition round_half_even (n d : Z) : Z :=
  let fl := n / d in
  let r := n mod d in
  match 2 * r ?= d with
  | Lt => fl
  | Gt => fl + 1
  | Eq => if Z.even fl then fl else fl + 1
  end.

(** [floor (log2 (n / d))] for positive [n] and [d]. *)
Definition floor_log2 (n d : Z) : Z :=
  let e := Z.log2 n - Z.log2 d in
  let ge := if 0 <=? e then d * 2 ^ e <=? n else d <=? n * 2 ^ (- e) in
  if ge then e else e - 1.

(** The nearest integer to [(n / d) / 2^e]. *)
Definition round_at (n d e : Z) : Z :=
  if 0 <=? e then round_half_even n (d * 2 ^ e)
  else round_half_even (n * 2 ^ (- e)) d.

(** Whether [m * 2^e] is [n / d]. *)
Definition is_exactly (m e n d : Z) : bool :=
  if 0 <=? e then m * 2 ^ e * d =? n else m * d =? n * 2 ^ (- e).

(** What a positive rational [n / d] becomes in binary64: too large from
    [DBL_MAX] plus half a unit in its last place on; too small when the
    result is below the least normal number and not exact; else
    [m * 2^e], the nearest number. *)
Inductive rounded : Type :=
| too_large
| too_small
| nearest (m e : Z).

Definition round_binary64 (n d : Z) : rounded :=
  if (2 ^ 1024 - 2 ^ 970) * d <=? n then too_large
  else
    let e2 := floor_log2 n d in
    let e := Z.max (e2 - 52) (-1074) in
    let m := round_at n d e in
    let tiny :=
      ((e2 <? -1022) &&
       negb ((e2 =? -1023) && (round_at n d (e2 - 52) =? 2 ^ 53)))%bool in
    if (tiny && negb (is_exactly m e n d))%bool then too_small
    else nearest m e.

(** The float [m * 2^e], for [0 <= m <= 2^53] and [m * 2^e] a binary64
    number. *)
Definition float_of (m e : Z) : float :=
  Z.ldexp (PrimFloat.of_uint63 (Uint63.of_Z m)) e.

Definition signed (neg : bool) (x : float) : double :=
  Num (if neg then PrimFloat.opp x else x).

(** ** The C++ standard library functions the program calls *)

Module Std.

(** [std::to_string] on an unsigned integer. *)
Definition to_string (n : N) : string :=
  NilZero.string_of_uint (N.to_uint n).

(** [std::isspace] in the "C" locale: space and the controls 9..13. *)
Definition isspace (c : ascii) : bool :=
  let n := nat_of_ascii c in
  (Nat.eqb n 32 || (Nat.leb 9 n && Nat.leb n 13))%bool.

Definition digit_value (c : ascii) : option Z :=
  let n := nat_of_ascii c in
  if (Nat.leb 48 n && Nat.leb n 57)%bool then Some (Z.of_nat n - 48) else None.

Fixpoint skip_space (s : string) : string :=
  match s with
  | String c rest => if isspace c then skip_space rest else s
  | EmptyString => s
  end.

(** An optional sign: [true] for a minus. *)
Definition read_sign (s : string) : bool * string :=
  match s with
  | String "-" rest => (true, rest)
  | String "+" rest => (false, rest)
  | _ => (false, s)
  end.

(** The longest run of decimal digits at the head of [s]: the number read
    so far (continuing [acc]), how many digits were read, and the rest. *)
Fixpoint read_digits (s : string) (acc : Z) (count : nat) : Z * nat * string :=
  match s with
  | String c rest =>
      match digit_value c with
      | Some d => read_digits rest (10 * acc + d) (S count)
      | None => (acc, count, s)
      end
  | EmptyString => (acc, count, s)
  end.

(** [std::string::substr(pos, len)] for [pos] inside the string (every call
    in the program has [pos <= size()]). *)
Definition substr (pos len : nat) (s : string) : string := substring pos len s.

(** [std::stoi] (base 10): leading white space, an optional sign, then at
    least one digit; what follows the digits is ignored.  No digit:
    [invalid_argument]; a value outside [int]: [out_of_range]. *)
Definition stoi (s : string) : result Z :=
  let '(neg, s1) := read_sign (skip_space s) in
  let '(v, count, _) := read_digits s1 0 0 in
  match count with
  | O => Throw (invalid_argument "stoi")
  | S _ =>
      let n := if neg then - v else v in
      if ((-2147483648 <=? n) && (n <=? 2147483647))%bool then Ok n
      else Throw (out_of_range "stoi")
  end.

(** The optional exponent of a literal, after its letter: an optional
    sign and at least one decimal digit.  Without a digit nothing is
    consumed and the exponent is 0. *)
Definition read_exponent (lower upper : ascii) (s : string) : Z :=
  match s with
  | String c rest =>
      if (Ascii.eqb c lower || Ascii.eqb c upper)%bool then
        let '(neg, s1) := read_sign rest in
        let '(v, count, _) := read_digits s1 0 0 in
        match count with
        | O => 0
        | S _ => if neg then - v else v
        end
      else 0
  | EmptyString => 0
  end.

(** A mantissa of digits with an optional point, read by [digits], and
    the number of digits behind the point; [None] when no digit is
    there. *)
Definition read_mantissa (digits : string -> Z -> nat -> Z * nat * string)
    (s : string) : option (Z * nat * string) :=
  let '(ip, icount, s2) := digits s 0 O in
  let '(m, fcount, s3) :=
    match s2 with
    | String "." rest => digits rest ip O
    | _ => (ip, O, s2)
    end in
  match (icount + fcount)%nat with
  | O => None
  | S _ => Some (m, fcount, s3)
  end.

(** What a literal denotes: [m * 10^e], [m * 2^e], an infinity or a NaN. *)
Inductive literal : Type :=
| decimal (m e : Z)
| binary (m e : Z)
| infinite
| not_a_number.

Definition read_decimal (s : string) : option literal :=
  match read_mantissa read_digits s with
  | Some (m, fcount, rest) =>
      Some (decimal m (read_exponent "e" "E" rest - Z.of_nat fcount))
  | None => None
  end.

Definition hex_value (c : ascii) : option Z :=
  let n := nat_of_ascii c in
  if (Nat.leb 48 n && Nat.leb n 57)%bool then Some (Z.of_nat n - 48)
  else if (Nat.leb 65 n && Nat.leb n 70)%bool then Some (Z.of_nat n - 55)
  else if (Nat.leb 97 n && Nat.leb n 102)%bool then Some (Z.of_nat n - 87)
  else None.

Fixpoint read_hex_digits (s : string) (acc : Z) (count : nat)
  : Z * nat * string :=
  match s with
  | String c rest =>
      match hex_value c with
      | Some d => read_hex_digits rest (16 * acc + d) (S count)
      | None => (acc, count, s)
      end
  | EmptyString => (acc, count, s)
  end.

(** A hexadecimal literal after its [0x]: hexadecimal digits with an
    optional point, then an optional binary exponent [p]. *)
Definition read_hexadecimal (s : string) : option literal :=
  match read_mantissa read_hex_digits s with
  | Some (m, fcount, rest) =>
      Some (binary m (read_exponent "p" "P" rest - 4 * Z.of_nat fcount))
  | None => None
  end.

(** Upper case to lower case, other characters unchanged. *)
Definition tolower (c : ascii) : ascii :=
  let n := nat_of_ascii c in
  if (Nat.leb 65 n && Nat.leb n 90)%bool then ascii_of_nat (n + 32) else c.

(** Whether [s] starts with the letters of [word], in either case. *)
Fixpoint starts_with (word s : string) : bool :=
  match word, s with
  | EmptyString, _ => true
  | String w word', String c s' =>
      (Ascii.eqb (tolower c) w && starts_with word' s')%bool
  | String _ _, EmptyString => false
  end.

(** The number at the head of [s]: [inf] (of which [infinity] is a longer
    spelling) or [nan] in either case, a hexadecimal literal when [s]
    starts with [0x] and hexadecimal digits follow, a decimal literal
    otherwise. *)
Definition read_number (s : string) : option literal :=
  if starts_with "inf" s then Some infinite
  else if starts_with "nan" s then Some not_a_number
  else
    match s with
    | String "0" (String x rest) =>
        if (Ascii.eqb x "x" || Ascii.eqb x "X")%bool then
          match read_hexadecimal rest with
          | Some l => Some l
          | None => read_decimal s
          end
        else read_decimal s
    | _ => read_decimal s
    end.

(** [floor (log10 n)] for positive [n]: one less than its number of
    decimal digits. *)
Definition log10 (n : Z) : Z :=
  Z.of_nat (String.length (to_string (Z.to_N n))) - 1.

(** The positive rational [n / d] as a [double] of sign [neg]. *)
Definition convert (neg : bool) (n d : Z) : result double :=
  match round_binary64 n d with
  | nearest m e => Ok (signed neg (float_of m e))
  | _ => Throw (out_of_range "stod")
  end.

(** The value of a literal.  A literal whose digits and exponent put it
    far outside the range of [double] is settled by its size alone; the
    others are converted from their exact value. *)
Definition value_of_literal (neg : bool) (l : literal) : result double :=
  match l with
  | infinite => Ok (signed neg PrimFloat.infinity)
  | not_a_number => Ok (NaN neg)
  | decimal m e =>
      if m =? 0 then Ok (signed neg PrimFloat.zero)
      else
        let digits := log10 m + 1 in
        if ((310 <? digits + e) || (digits + e <? -330))%bool
        then Throw (out_of_range "stod")
        else if 0 <=? e then convert neg (m * 10 ^ e) 1
             else convert neg m (10 ^ (- e))
  | binary m e =>
      if m =? 0 then Ok (signed neg PrimFloat.zero)
      else
        let bits := Z.log2 m + 1 in
        if ((1030 <? bits + e) || (bits + e <? -1080))%bool
        then Throw (out_of_range "stod")
        else if 0 <=? e then convert neg (m * 2 ^ e) 1
             else convert neg m (2 ^ (- e))
  end.

(** [std::stod]: leading white space, an optional sign, then the longest
    number [strtod] finds; what follows it is ignored.  Nothing
    convertible: [invalid_argument]; a value that overflows, or that
    underflows and is not exact: [out_of_range].  Otherwise the result is
    the [double] nearest to the value of the literal. *)
Definition stod (s : string) : result double :=
  let '(neg, s1) := read_sign (skip_space s) in
  match read_number s1 with
  | None => Throw (invalid_argument "stod")
  | Some l => value_of_literal neg l
  end.

(** *** [operator<<(double)] with the stream defaults

    A fresh [ostringstream] formats as [printf("%g")] with precision 6:
    round to six significant digits (ties to even), use scientific
    notation when the decimal exponent is below -4 or at least 6, and drop
    trailing zeros of the fraction. *)

Definition digit_char (d : Z) : ascii := ascii_of_nat (Z.to_nat (48 + d)).

(** The [width] low decimal digits of [n], most significant first. *)
Fixpoint digits_fixed (width : nat) (n : Z) : string :=
  match width with
  | O => EmptyString
  | S w => digits_fixed w (n / 10) ++ String (digit_char (n mod 10)) EmptyString
  end.

(** Remove the zeros at the end of [s]. *)
Fixpoint strip_zeros (s : string) : string :=
  match s with
  | EmptyString => EmptyString
  | String c rest =>
      match strip_zeros rest with
      | EmptyString => if Ascii.eqb c "0" then EmptyString else String c EmptyString
      | r => String c r
      end
  end.

(** A fraction after its point, or nothing when no digit is left. *)
Definition with_point (frac : string) : string :=
  match strip_zeros frac with
  | EmptyString => EmptyString
  | f => "." ++ f
  end.

(** [floor (log10 (n / d))] for positive [n] and [d]. *)
Definition floor_log10 (n d : Z) : Z :=
  let e := log10 n - log10 d in
  let ge := if 0 <=? e then d * 10 ^ e <=? n else d <=? n * 10 ^ (- e) in
  if ge then e else e - 1.

(** The six significant digits and the decimal exponent of a positive
    rational [n / d]: [(m, x)] with [10^5 <= m < 10^6] and
    [n / d] close to [m * 10^(x - 5)]. *)
Definition six_digits (n d : Z) : Z * Z :=
  let e := floor_log10 n d in
  let k := 5 - e in
  let m := if 0 <=? k then round_half_even (n * 10 ^ k) d
           else round_half_even n (d * 10 ^ (- k)) in
  if m =? 1000000 then (100000, e + 1) else (m, e).

Definition exponent_text (x : Z) : string :=
  let a := Z.abs x in
  (if x <? 0 then "-" else "+") ++
  (if a <? 10 then "0" else "") ++ to_string (Z.to_N a).

Definition put_positive (n d : Z) : string :=
  let '(m, x) := six_digits n d in
  let ds := digits_fixed 6 m in
  if ((x <? -4) || (6 <=? x))%bool then
    substring 0 1 ds ++ with_point (substring 1 5 ds) ++ "e" ++ exponent_text x
  else if 0 <=? x then
    let i := Z.to_nat (x + 1) in
    substring 0 i ds ++ with_point (substring i (6 - i) ds)
  else
    "0" ++ with_point (digits_fixed (Z.to_nat (- x - 1)) 0 ++ ds).

Definition minus (negative : bool) : string := if negative then "-" else "".

(** The text of a [double]: of a finite number its exact value
    [m * 2^e] rounded to six digits. *)
Definition put_double (v : double) : string :=
  match v with
  | NaN s => minus s ++ "nan"
  | Num x =>
      match Prim2SF x with
      | S754_nan => "nan"
      | S754_zero s => minus s ++ "0"
      | S754_infinity s => minus s ++ "inf"
      | S754_finite s m e =>
          minus s ++
          (if 0 <=? e then put_positive (Zpos m * 2 ^ e) 1
           else put_positive (Zpos m) (2 ^ (- e)))
      end
  end.

End Std.

(** ** [std::sort] as libstdc++ implements it

    The introsort of [bits/stl_algo.h] with the heap functions of
    [bits/stl_heap.h] (GCC 12): quicksort on ranges of more than 16
    elements, heapsort once the recursion is [2 * lg n] deep, and one
    insertion sort at the end.  A vector is a list, an iterator an index
    into it, and a function gets the vector and returns it as it leaves
    it.  A loop of the library that ends because of what it finds in the
    vector runs here for at most as many rounds as any run of it needs
    when the comparison is a strict weak order. *)
Module Libstdcxx.

Local Open Scope nat_scope.

Section Sorting.
Variable A : Type.

(** The comparison, and an element to read where an index is outside the
    vector (where the library would read memory that is not its own). *)
Variable comp : A -> A -> bool.
Variable d : A.

(** [*(first + i)] and [*(first + i) = x]. *)
Definition get (v : list A) (i : nat) : A := nth i v d.

Fixpoint put (v : list A) (i : nat) (x : A) : list A :=
  match v, i with
  | [], _ => []
  | _ :: r, O => x :: r
  | y :: r, S j => y :: put r j x
  end.

Definition iter_swap (a b : nat) (v : list A) : list A :=
  put (put v a (get v b)) b (get v a).

(** [__move_median_to_first(result, a, b, c)]. *)
Definition move_median_to_first (result a b c : nat) (v : list A) : list A :=
  if comp (get v a) (get v b) then
    if comp (get v b) (get v c) then iter_swap result b v
    else if comp (get v a) (get v c) then iter_swap result c v
    else iter_swap result a v
  else if comp (get v a) (get v c) then iter_swap result a v
  else if comp (get v b) (get v c) then iter_swap result c v
  else iter_swap result b v.

(* while (comp(first, pivot)) ++first; *)
Fixpoint scan_up (fuel : nat) (v : list A) (pivot first : nat) : nat :=
  match fuel with
  | O => first
  | S k => if comp (get v first) (get v pivot) then scan_up k v pivot (S first) else first
  end.

(* while (comp(pivot, last)) --last; *)
Fixpoint scan_down (fuel : nat) (v : list A) (pivot last : nat) : nat :=
  match fuel with
  | O => last
  | S k => if comp (get v pivot) (get v last) then scan_down k v pivot (pred last) else last
  end.

(** [__unguarded_partition(first, last, pivot)]: the cut, and the vector. *)
Fixpoint unguarded_partition (fuel : nat) (first last pivot : nat) (v : list A) : nat * list A :=
  match fuel with
  | O => (first, v)
  | S k =>
      let first := scan_up (List.length v) v pivot first in
      let last := scan_down (List.length v) v pivot (pred last) in
      if first <? last then unguarded_partition k (S first) last pivot (iter_swap first last v)
      else (first, v)
  end.

Definition unguarded_partition_pivot (first last : nat) (v : list A) : nat * list A :=
  let mid := first + (last - first) / 2 in
  let v := move_median_to_first first (first + 1) mid (last - 1) v in
  unguarded_partition (List.length v) (first + 1) last first v.

(** [__push_heap(first, holeIndex, topIndex, value)]. *)
Fixpoint push_heap_loop (fuel : nat) (first holeIndex topIndex : nat) (value : A) (v : list A) : list A :=
  let parent := (holeIndex - 1) / 2 in
  match fuel with
  | O => put v (first + holeIndex) value
  | S k =>
      if (topIndex <? holeIndex) && comp (get v (first + parent)) value
      then push_heap_loop k first parent topIndex value (put v (first + holeIndex) (get v (first + parent)))
      else put v (first + holeIndex) value
  end.

Definition push_heap (first holeIndex topIndex : nat) (value : A) (v : list A) : list A :=
  push_heap_loop (List.length v) first holeIndex topIndex value v.

(* the first loop of __adjust_heap: the hole moves down to a leaf *)
Fixpoint sift_down (fuel : nat) (first holeIndex secondChild len : nat) (v : list A) : nat * nat * list A :=
  match fuel with
  | O => (holeIndex, secondChild, v)
  | S k =>
      if secondChild <? (len - 1) / 2 then
        let secondChild := 2 * (secondChild + 1) in
        let secondChild :=
          if comp (get v (first + secondChild)) (get v (first + (secondChild - 1)))
          then secondChild - 1 else secondChild in
        sift_down k first secondChild secondChild len (put v (first + holeIndex) (get v (first + secondChild)))
      else (holeIndex, secondChild, v)
  end.

(** [__adjust_heap(first, holeIndex, len, value)]. *)
Definition adjust_heap (first holeIndex len : nat) (value : A) (v : list A) : list A :=
  let topIndex := holeIndex in
  let '(holeIndex, secondChild, v) := sift_down (List.length v) first holeIndex holeIndex len v in
  let '(holeIndex, v) :=
    if Nat.even len && (secondChild =? (len - 2) / 2)
    then
      let secondChild := 2 * (secondChild + 1) in
      (secondChild - 1, put v (first + holeIndex) (get v (first + (secondChild - 1))))
    else (holeIndex, v) in
  push_heap first holeIndex topIndex value v.

(** [__pop_heap(first, last, result)]. *)
Definition pop_heap (first last result : nat) (v : list A) : list A :=
  let value := get v result in
  let v := put v result (get v first) in
  adjust_heap first 0 (last - first) value v.

(** [__make_heap(first, last)]: [parent] counts down to 0. *)
Fixpoint make_heap_loop (parent : nat) (first len : nat) (v : list A) : list A :=
  let v := adjust_heap first parent len (get v (first + parent)) v in
  match parent with
  | O => v
  | S p => make_heap_loop p first len v
  end.

Definition make_heap (first last : nat) (v : list A) : list A :=
  if last - first <? 2 then v
  else make_heap_loop ((last - first - 2) / 2) first (last - first) v.

(** [__sort_heap(first, last)]. *)
Fixpoint sort_heap_loop (fuel : nat) (first last : nat) (v : list A) : list A :=
  match fuel with
  | O => v
  | S k =>
      if 1 <? last - first
      then sort_heap_loop k first (last - 1) (pop_heap first (last - 1) (last - 1) v)
      else v
  end.

Definition sort_heap (first last : nat) (v : list A) : list A :=
  sort_heap_loop (last - first) first last v.

(* for (i = middle; i < last; ++i) if (comp(i, first)) __pop_heap(first, middle, i); *)
Fixpoint heap_select_loop (count : nat) (first middle i : nat) (v : list A) : list A :=
  match count with
  | O => v
  | S k =>
      heap_select_loop k first middle (S i)
        (if comp (get v i) (get v first) then pop_heap first middle i v else v)
  end.

Definition heap_select (first middle last : nat) (v : list A) : list A :=
  heap_select_loop (last - middle) first middle middle (make_heap first middle v).

(** [__partial_sort(first, middle, last)]. *)
Definition partial_sort (first middle last : nat) (v : list A) : list A :=
  sort_heap first middle (heap_select first middle last v).

Definition S_threshold : nat := 16.

(** [__introsort_loop(first, last, depth_limit)]: the [while] loop goes
    on with [last = cut], which is the second call here. *)
Fixpoint introsort_loop (depth_limit : nat) (first last : nat) (v : list A) : list A :=
  if S_threshold <? last - first then
    match depth_limit with
    | O => partial_sort first last last v
    | S depth_limit =>
        let (cut, v) := unguarded_partition_pivot first last v in
        introsort_loop depth_limit first cut (introsort_loop depth_limit cut last v)
    end
  else v.

(* val = *last; next = last - 1; while (comp(val, next)) { *last = *next; last = next; --next; } *last = val; *)
Fixpoint linear_insert_loop (fuel : nat) (val : A) (last : nat) (v : list A) : list A :=
  match fuel with
  | O => put v last val
  | S k =>
      if comp val (get v (pred last))
      then linear_insert_loop k val (pred last) (put v last (get v (pred last)))
      else put v last val
  end.

Definition unguarded_linear_insert (last : nat) (v : list A) : list A :=
  linear_insert_loop (List.length v) (get v last) last v.

(* std::move_backward(first, i, i + 1) *)
Fixpoint move_backward (count : nat) (i : nat) (v : list A) : list A :=
  match count with
  | O => v
  | S k => move_backward k (pred i) (put v i (get v (pred i)))
  end.

(** [__insertion_sort(first, last)]. *)
Fixpoint insertion_sort_loop (count : nat) (first i : nat) (v : list A) : list A :=
  match count with
  | O => v
  | S k =>
      insertion_sort_loop k first (S i)
        (if comp (get v i) (get v first)
         then put (move_backward (i - first) i v) first (get v i)
         else unguarded_linear_insert i v)
  end.

Definition insertion_sort (first last : nat) (v : list A) : list A :=
  if first =? last then v else insertion_sort_loop (last - (first + 1)) first (first + 1) v.

Fixpoint unguarded_insertion_sort_loop (count : nat) (i : nat) (v : list A) : list A :=
  match count with
  | O => v
  | S k => unguarded_insertion_sort_loop k (S i) (unguarded_linear_insert i v)
  end.

Definition unguarded_insertion_sort (first last : nat) (v : list A) : list A :=
  unguarded_insertion_sort_loop (last - first) first v.

(** [__final_insertion_sort(first, last)]. *)
Definition final_insertion_sort (first last : nat) (v : list A) : list A :=
  if S_threshold <? last - first then
    unguarded_insertion_sort (first + S_threshold) last (insertion_sort first (first + S_threshold) v)
  else insertion_sort first last v.

(** [__lg(n)]: the position of the highest bit set. *)
Definition lg (n : nat) : nat := Nat.log2 n.

(** [__sort(first, last)]. *)
Definition sort_range (first last : nat) (v : list A) : list A :=
  if first =? last then v
  else final_insertion_sort first last (introsort_loop (lg (last - first) * 2) first last v).

End Sorting.

(** [std::sort(v.begin(), v.end(), comp)]. *)
Definition sort {A : Type} (comp : A -> A -> bool) (v : list A) : list A :=
  match v with
  | [] => []
  | d :: _ => sort_range A comp d 0 (List.length v) v
  end.

End Libstdcxx.

(** ** Domain: the [Shift] record *)

Record Shift : Type := {
  date : string;        (* ISO: yyyy-mm-dd *)
  hours : double;
  hourlyRate : double;
  note : string
}.

(** Field-for-field equality ([==] on the two numbers). *)
Definition Shift_eq (a b : Shift) : Prop :=
  date a = date b /\ deq (hours a) (hours b) = true /\
  deq (hourlyRate a) (hourlyRate b) = true /\ note a = note b.

(** The loop of [fromCSV] that cuts [line] at every comma: [cur] is the
    field being read, the result the fields pushed from here on. *)
Fixpoint split_fields (line cur : string) : list string :=
  match line with
  | EmptyString => [cur]
  | String c rest =>
      if Ascii.eqb c "," then cur :: split_fields rest EmptyString
      else split_fields rest (cur ++ String c EmptyString)
  end.

Definition fromCSV (line : string) (lineno : N) : result Shift :=
  let parts := split_fields line EmptyString in
  if (List.length parts <? 3)%nat then
    Throw (runtime_error ("Bad CSV at line " ++ Std.to_string lineno))
  else
    let numbers :=
      h <- Std.stod (nth 1 parts EmptyString) ;;
      r <- Std.stod (nth 2 parts EmptyString) ;;
      Ok (h, r) in
    match numbers with
    | Ok (h, r) =>
        Ok {| date := nth 0 parts EmptyString;
              hours := h;
              hourlyRate := r;
              note := if (4 <=? List.length parts)%nat
                      then nth 3 parts EmptyString else EmptyString |}
    | Throw _ =>
        Throw (runtime_error ("Bad number at line " ++ Std.to_string lineno))
    end.

Definition toCSV (s : Shift) : string :=
  date s ++ "," ++ Std.put_double (hours s) ++ "," ++
  Std.put_double (hourlyRate s) ++ "," ++ note s.

Definition pay (s : Shift) : double := dmul (hours s) (hourlyRate s).

(** ** Storage *)

(** The interface [IStorage]: two virtual methods acting on whatever
    state [St] lies behind the port. *)
Record IStorage (St : Type) : Type := {
  load : St -> St * result (list Shift);
  save : list Shift -> St -> St * result unit
}.

Arguments load {St} _ _.
Arguments save {St} _ _ _.

(** What [FileStorage] sees of the file system at its path: the text of
    the file when there is one, and whether opening it for reading,
    respectively opening the path for writing, succeeds. *)
Record Disk : Type := {
  file : option string;
  can_read : bool;
  can_write : bool
}.

Record FileStorage : Type := { path : string }.

(** [ifstream in(path)]: the text to read when the stream is good. *)
Definition open_in (d : Disk) : option string :=
  match file d with
  | Some text => if can_read d then Some text else None
  | None => None
  end.

(** The successive results of [getline] on a text: lines end at a newline;
    characters after the last newline form a last line. *)
Fixpoint getlines (text cur : string) : list string :=
  match text with
  | EmptyString =>
      match cur with
      | EmptyString => []
      | _ => [cur]
      end
  | String c rest =>
      if Ascii.eqb c "010" then cur :: getlines rest EmptyString
      else getlines rest (cur ++ String c EmptyString)
  end.

Definition is_empty (s : string) : bool :=
  match s with
  | EmptyString => true
  | _ => false
  end.

(** The [while (getline(in, line))] loop of [load]: [ln] lines were read
    before, [v] holds the shifts decoded so far. *)
Fixpoint load_loop (lines : list string) (ln : N) (v : list Shift)
  : result (list Shift) :=
  match lines with
  | [] => Ok v
  | line :: rest =>
      let ln := (ln + 1)%N in
      if is_empty line then load_loop rest ln v
      else
        s <- fromCSV line ln ;;
        load_loop rest ln (v ++ [s])
  end.

Definition FileStorage_load (fs : FileStorage) (d : Disk) : result (list Shift) :=
  match open_in d with
  | None => Ok []                       (* empty if not exists *)
  | Some text => load_loop (getlines text EmptyString) 0 []
  end.

(** The text [save] writes: every shift's line, each followed by a newline. *)
Fixpoint write_lines (v : list Shift) : string :=
  match v with
  | [] => EmptyString
  | s :: rest => toCSV s ++ String "010" EmptyString ++ write_lines rest
  end.

Definition FileStorage_save (fs : FileStorage) (v : list Shift) (d : Disk)
  : Disk * result unit :=
  if can_write d then
    ({| file := Some (write_lines v);
        can_read := can_read d;
        can_write := can_write d |}, Ok tt)
  else (d, Throw (runtime_error ("Cannot open file for write: " ++ path fs))).

(** [FileStorage] as an implementation of [IStorage]. *)
Definition FileStorage_port (fs : FileStorage) : IStorage Disk := {|
  load := fun d => (d, FileStorage_load fs d);
  save := FileStorage_save fs
|}.

(** ** Utilities *)

(** [struct tm], the fields the program uses. *)
Record tm : Type := {
  tm_year : Z;
  tm_mon : Z;
  tm_mday : Z;
  tm_hour : Z;
  tm_min : Z;
  tm_sec : Z
}.

(** [tm t{}]. *)
Definition tm_zero : tm :=
  {| tm_year := 0; tm_mon := 0; tm_mday := 0;
     tm_hour := 0; tm_min := 0; tm_sec := 0 |}.

Definition parseISO (ymd : string) : result tm :=
  if (10 <=? String.length ymd)%nat then
    y <- Std.stoi (Std.substr 0 4 ymd) ;;
    m <- Std.stoi (Std.substr 5 2 ymd) ;;
    d <- Std.stoi (Std.substr 8 2 ymd) ;;
    Ok {| tm_year := y - 1900; tm_mon := m - 1; tm_mday := d;
          tm_hour := 0; tm_min := 0; tm_sec := 0 |}
  else Ok tm_zero.

Module Std_time.

Definition is_leap (y : Z) : bool :=
  ((y mod 4 =? 0) && (negb (y mod 100 =? 0) || (y mod 400 =? 0)))%bool.

(** Leap years among the years 1 .. [y - 1] of the Gregorian calendar. *)
Definition leaps_before (y : Z) : Z :=
  (y - 1) / 4 - (y - 1) / 100 + (y - 1) / 400.

(** Days from 1970-01-01 to the first of January of year [y]. *)
Definition days_before_year (y : Z) : Z :=
  365 * (y - 1970) + (leaps_before y - leaps_before 1970).

(** Days from the first of January to the first of month [m] (0 .. 11). *)
Definition days_before_month (leap : bool) (m : Z) : Z :=
  nth (Z.to_nat m) [0; 31; 59; 90; 120; 151; 181; 212; 243; 273; 304; 334] 0
  + (if (leap && (2 <=? m))%bool then 1 else 0).

(** [timegm]: the fields of [t] read as a UTC calendar time.  A month
    outside 0 .. 11 carries into the year; the day of the month and the
    time of day are added as they are, in range or not. *)
Definition timegm (t : tm) : Z :=
  let y := tm_year t + 1900 + tm_mon t / 12 in
  let m := tm_mon t mod 12 in
  let days := days_before_year y + days_before_month (is_leap y) m
              + (tm_mday t - 1) in
  days * 86400 + tm_hour t * 3600 + tm_min t * 60 + tm_sec t.

End Std_time.

(** The POSIX branch of [utc_timegm]. *)
Definition utc_timegm (t : tm) : Z := Std_time.timegm t.

(** [std::max] and [std::min] on [double]. *)
Definition dmax (a b : double) : double := if dlt a b then b else a.
Definition dmin (a b : double) : double := if dlt b a then b else a.

Definition estimateTaxYearly (gross : double) : double :=
  let personalAllowance := Num 12570.0 in
  let basicBandLimit := Num 50270.0 in
  if dle gross personalAllowance then Num 0.0
  else
    let taxable := dsub gross personalAllowance in
    let tax := Num 0.0 in
    let basicBand :=
      dmax (Num 0.0) (dmin taxable (dsub basicBandLimit personalAllowance)) in
    let tax := dadd tax (dmul basicBand (Num 0.2)) in
    let higherBand := dmax (Num 0.0) (dsub taxable basicBand) in
    let tax := dadd tax (dmul higherBand (Num 0.4)) in
    tax.

(** ** Tracker *)

(** [std::map<string,double>]: the entries in ascending key order. *)
Definition string_map : Type := list (string * double).

(** [m[k] += x]: a key not yet present starts from [0.0]. *)
Fixpoint map_add (k : string) (x : double) (m : string_map) : string_map :=
  match m with
  | [] => [(k, dadd (Num 0.0) x)]
  | (k', v) :: rest =>
      if String.ltb k k' then (k, dadd (Num 0.0) x) :: m
      else if String.ltb k' k then (k', v) :: map_add k x rest
      else (k', dadd v x) :: rest
  end.

(** The comparison passed to [std::sort]. *)
Definition by_date (a b : Shift) : bool := String.ltb (date a) (date b).

(** A call made through the storage port (kept as a ghost log, so that
    which calls an operation makes can be stated). *)
Inductive port_call : Type :=
| called_load
| called_save (v : list Shift).

Section Tracker.

Context {St : Type}.

(** The implementation behind the [unique_ptr<IStorage>]. *)
Variable port : IStorage St.

(** [std::sort] with a comparison: the standard fixes its result up to the
    order of equivalent elements (see [sort_contract] below). *)
Variable std_sort : (Shift -> Shift -> bool) -> list Shift -> list Shift.

(** A [Tracker] object together with the state behind its storage port and
    the log of the calls made through the port. *)
Record Tracker : Type := {
  shifts : list Shift;
  storage : St;
  port_log : list port_call
}.

(** A member function: the object after the call and what the call
    returned or threw. *)
Definition method (A : Type) : Type := Tracker -> Tracker * result A.

(** The constructor, started on the storage state [st]: the object exists
    only when [load] returns. *)
Definition construct (st : St) : result Tracker :=
  let '(st', r) := load port st in
  v <- r ;;
  Ok {| shifts := v; storage := st'; port_log := [called_load] |}.

Definition add (s : Shift) : method unit := fun t =>
  let v := (shifts t ++ [s])%list in
  let '(st', r) := save port v (storage t) in
  ({| shifts := v; storage := st';
      port_log := (port_log t ++ [called_save v])%list |}, r).

Definition listAllSorted : method (list Shift) := fun t =>
  let v := shifts t in
  (t, Ok (std_sort by_date v)).

(** The [copy_if] of [filterRecentDays] into [back_inserter(out)]: the
    predicate may throw, which ends the traversal. *)
Fixpoint copy_if_recent (cutoff : Z) (l out : list Shift) : result (list Shift) :=
  match l with
  | [] => Ok out
  | s :: rest =>
      t <- parseISO (date s) ;;
      copy_if_recent cutoff rest
        (if cutoff <=? utc_timegm t then out ++ [s] else out)
  end.

(** [now] is the value [time(nullptr)] returns during the call. *)
Definition filterRecentDays (now : Z) (days : Z) : method (list Shift) := fun t =>
  let cutoff := now - days * 24 * 3600 in
  (t, copy_if_recent cutoff (shifts t) []).

Definition totalPay (v : list Shift) : method double := fun t =>
  (t, Ok (fold_left (fun acc s => dadd acc (pay s)) v (Num 0.0))).

Definition monthlyTotals : method string_map := fun t =>
  (t, Ok (fold_left (fun m s => map_add (Std.substr 0 7 (date s)) (pay s) m)
                    (shifts t) [])).

Definition countHighPay (threshold : double) : method nat := fun t =>
  (t, Ok (List.length (filter (fun s => dge (pay s) threshold) (shifts t)))).

(** The query operations, as calls with their arguments. *)
Inductive query : Type :=
| q_listAllSorted
| q_filterRecentDays (now days : Z)
| q_totalPay (v : list Shift)
| q_monthlyTotals
| q_countHighPay (threshold : double).

(** The object after a query. *)
Definition after_query (q : query) (t : Tracker) : Tracker :=
  match q with
  | q_listAllSorted => fst (listAllSorted t)
  | q_filterRecentDays now days => fst (filterRecentDays now days t)
  | q_totalPay v => fst (totalPay v t)
  | q_monthlyTotals => fst (monthlyTotals t)
  | q_countHighPay threshold => fst (countHighPay threshold t)
  end.

Definition after_queries (qs : list query) (t : Tracker) : Tracker :=
  fold_left (fun t q => after_query q t) qs t.

End Tracker.

Arguments Tracker St : clear implicits.

(** ** Notions used in the statements *)

(** The two failures of decoding, by their message (both are thrown as
    [std::runtime_error]). *)
Definition bad_csv (lineno : N) : exn :=
  runtime_error ("Bad CSV at line " ++ Std.to_string lineno).

Definition bad_number (lineno : N) : exn :=
  runtime_error ("Bad number at line " ++ Std.to_string lineno).

Definition is_runtime_error (e : exn) : bool :=
  match e with
  | runtime_error _ => true
  | _ => false
  end.

(** Whether [stod] throws on a field. *)
Definition stod_throws (field : string) : bool :=
  match Std.stod field with
  | Ok _ => false
  | Throw _ => true
  end.

Fixpoint all_digits (s : string) : bool :=
  match s with
  | EmptyString => true
  | String c rest =>
      match Std.digit_value c with
      | Some _ => all_digits rest
      | None => false
      end
  end.

(** A field that "parses as a real number", as the specification words
    the condition on fields 2 and 3: the field, all of it, is a decimal
    numeral, that is an optional sign, digits with at most one point
    among them and at least one digit, and optionally an exponent ([e] or
    [E], an optional sign, at least one digit). *)
Definition real_number_text (field : string) : bool :=
  let '(_, s1) := Std.read_sign field in
  match Std.read_mantissa Std.read_digits s1 with
  | None => false
  | Some (_, _, EmptyString) => true
  | Some (_, _, String c exponent) =>
      let digits := snd (Std.read_sign exponent) in
      ((Ascii.eqb c "e" || Ascii.eqb c "E") &&
       negb (is_empty digits) && all_digits digits)%bool
  end.

(** The lines of a text with their 1-based numbers, counted from [ln + 1]. *)
Fixpoint numbered (ln : N) (lines : list string) : list (N * string) :=
  match lines with
  | [] => []
  | line :: rest => ((ln + 1)%N, line) :: numbered (ln + 1)%N rest
  end.

(** Decoding a list of numbered lines in order, stopping at the first
    failure. *)
Fixpoint decode_all (lines : list (N * string)) : result (list Shift) :=
  match lines with
  | [] => Ok []
  | (ln, line) :: rest =>
      s <- fromCSV line ln ;;
      v <- decode_all rest ;;
      Ok (s :: v)
  end.

Definition no_comma (s : string) : Prop :=
  forall c, In c (list_ascii_of_string s) -> c <> ","%char.

Definition all_space (line : string) : Prop :=
  forall c, In c (list_ascii_of_string line) -> Std.isspace c = true.

(** The date of a shift as [filterRecentDays] reads it: seconds since the
    epoch of its midnight, UTC. *)
Definition midnight (s : Shift) : result Z :=
  t <- parseISO (date s) ;;
  Ok (utc_timegm t).

Definition at_or_after (cutoff : Z) (s : Shift) : bool :=
  match midnight s with
  | Ok ts => cutoff <=? ts
  | Throw _ => false
  end.

(** What the C++ standard asks of the comparison given to [std::sort]. *)
Definition strict_weak_order {A : Type} (lt : A -> A -> bool) : Prop :=
  (forall a, lt a a = false) /\
  (forall a b c, lt a b = true -> lt b c = true -> lt a c = true) /\
  (forall a b c,
      lt a b = false -> lt b a = false ->
      lt b c = false -> lt c b = false ->
      lt a c = false /\ lt c a = false).

(** What the C++ standard promises of [std::sort]: the same elements, no
    element ordered before an earlier one.  Nothing is promised about the
    order of elements neither of which is ordered before the other. *)
Definition sort_contract
    (sort : (Shift -> Shift -> bool) -> list Shift -> list Shift) : Prop :=
  forall lt l,
    strict_weak_order lt ->
    Permutation l (sort lt l) /\
    StronglySorted (fun a b => lt b a = false) (sort lt l).

(** Stability with respect to the date: the shifts of each date come in
    the same order in [output] as in [input]. *)
Definition keeps_order_of_equal_dates (input output : list Shift) : Prop :=
  forall d,
    filter (fun s => String.eqb (date s) d) output =
    filter (fun s => String.eqb (date s) d) input.

(** An insertion sort, each element put behind the elements of the sorted
    part that are not ordered after it, as [__insertion_sort] of
    libstdc++ does: one sorting procedure that meets [sort_contract]. *)
Fixpoint insert_behind {A : Type} (lt : A -> A -> bool) (x : A) (l : list A)
  : list A :=
  match l with
  | [] => [x]
  | y :: rest => if lt x y then x :: l else y :: insert_behind lt x rest
  end.

Definition insertion_sort {A : Type} (lt : A -> A -> bool) (l : list A)
  : list A :=
  fold_left (fun sorted x => insert_behind lt x sorted) l [].

(** The same [double] but for the sign of a NaN. *)
Definition same_double (a b : double) : Prop :=
  match a, b with
  | Num x, Num y => x = y
  | NaN _, NaN _ => True
  | _, _ => False
  end.

(** ** Sample data *)

Definition mkShift (d : string) (h r : float) (n : string) : Shift :=
  {| date := d; hours := Num h; hourlyRate := Num r; note := n |}.

Definition lunch_shift : Shift :=
  mkShift "2025-10-01" 7.5 12.3456789 "Lunch shift".

Definition shifts_csv : FileStorage := {| path := "data/shifts.csv" |}.

Definition fresh_disk : Disk :=
  {| file := None; can_read := true; can_write := true |}.

Definition nl : string := String "010" EmptyString.

Definition locked_disk : Disk :=
  {| file := Some ("2025-01-05,2,10," ++ nl);
     can_read := false; can_write := false |}.

(** A file whose second line is empty. *)
Definition disk_with_empty_line : Disk :=
  {| file := Some ("2025-01-05,2,10," ++ nl ++ nl ++ "2025-01-20,3,10,x" ++ nl);
     can_read := true; can_write := true |}.

(** The same file with three spaces on its second line. *)
Definition disk_with_blank_line : Disk :=
  {| file := Some ("2025-01-05,2,10," ++ nl ++ "   " ++ nl ++
                   "2025-01-20,3,10,x" ++ nl);
     can_read := true; can_write := true |}.

Definition march_then_january : list Shift :=
  [ mkShift "2025-03-01" 4 10 "a";
    mkShift "2025-01-10" 5 10 "b";
    mkShift "2025-01-10" 6 10 "c" ].

(** Seventeen shifts of one day, with the notes [a] to [q]. *)
Definition one_day (notes : list string) : list Shift :=
  map (mkShift "2025-01-10" 1 10) notes.

Definition seventeen_shifts : list Shift :=
  one_day ["a"; "b"; "c"; "d"; "e"; "f"; "g"; "h"; "i"; "j"; "k"; "l"; "m";
           "n"; "o"; "p"; "q"].

(** 2025-01-10 12:00:00 UTC. *)
Definition noon_jan_10 : Z := 1736510400.

Definition around_jan_10 : list Shift :=
  [ mkShift "2025-01-09" 1 10 "";
    mkShift "2025-01-10" 2 10 "";
    mkShift "2025-01-11" 3 10 "" ].

Definition tracker_of {St : Type} (v : list Shift) (st : St) : Tracker St :=
  {| shifts := v; storage := st; port_log := [] |}.

(** ** CLI *)

Definition dquote : string := String "034" EmptyString.

(** The text [printHelp] writes. *)
Definition help_text : string :=
  "Shift & Expense Tracker" ++ nl ++
  "Usage:" ++ nl ++
  "  tracker --help" ++ nl ++
  "  tracker --list" ++ nl ++
  "  tracker --recent 7" ++ nl ++
  "  tracker --add 2025-10-01 5.5 12.5 " ++ dquote ++ "Lunch shift" ++ dquote ++ nl ++
  "  tracker --monthly" ++ nl ++
  "  tracker --summary" ++ nl ++
  "Files:" ++ nl ++
  "  data/shifts.csv" ++ nl.

(** [operator<<] on an [int]. *)
Definition put_int (z : Z) : string :=
  if z <? 0 then "-" ++ Std.to_string (Z.to_N (- z)) else Std.to_string (Z.to_N z).

(** The lines [--monthly] prints: [month,total] for each entry. *)
Fixpoint monthly_lines (m : string_map) : string :=
  match m with
  | [] => EmptyString
  | (k, v) :: rest => k ++ "," ++ Std.put_double v ++ nl ++ monthly_lines rest
  end.

(** What one run of the program leaves: the text on standard output and
    on standard error, the exit code, and the disk. *)
Record run : Type := {
  stdout : string;
  stderr : string;
  exit_code : Z;
  disk : Disk
}.

(** The value of a member call on an object known to return.  *)
Definition value_of {A : Type} (r : result A) (default : A) : A :=
  match r with
  | Ok a => a
  | Throw _ => default
  end.

Section Main.

Variable std_sort : (Shift -> Shift -> bool) -> list Shift -> list Shift.

(** The clock during the run. *)
Variable now : Z.

(** The [try] block of [main] on the arguments after the program name:
    the disk it leaves, and either what it wrote to the two streams with
    the value it returned, or the exception that left it.  In every branch
    all that can throw comes before the first output, so an exception
    leaves nothing written. *)
Definition main_try (args : list string) (d : Disk)
  : Disk * result (string * string * Z) :=
  match args with
  | [] => (d, Ok (help_text, EmptyString, 0))
  | cmd :: _ =>
      if String.eqb cmd "--help" then (d, Ok (help_text, EmptyString, 0))
      else
        match construct (FileStorage_port shifts_csv) d with
        | Throw e => (d, Throw e)
        | Ok tracker =>
            if (String.eqb cmd "--add" && (4 <=? List.length args)%nat)%bool then
              match (h <- Std.stod (nth 2 args EmptyString) ;;
                     r <- Std.stod (nth 3 args EmptyString) ;;
                     Ok (h, r)) with
              | Throw e => (d, Throw e)
              | Ok (h, r) =>
                  let s := {| date := nth 1 args EmptyString;
                              hours := h;
                              hourlyRate := r;
                              note := if (5 <=? List.length args)%nat
                                      then nth 4 args EmptyString
                                      else EmptyString |} in
                  let '(tracker', saved) := add (FileStorage_port shifts_csv) s tracker in
                  match saved with
                  | Throw e => (storage tracker', Throw e)
                  | Ok _ =>
                      (storage tracker',
                       Ok ("Added: " ++ toCSV s ++ nl, EmptyString, 0))
                  end
              end
            else if String.eqb cmd "--list" then
              let v := value_of (snd (listAllSorted std_sort tracker)) [] in
              (d, Ok (write_lines v, EmptyString, 0))
            else if (String.eqb cmd "--recent" && (2 <=? List.length args)%nat)%bool then
              match (days <- Std.stoi (nth 1 args EmptyString) ;;
                     v <- snd (filterRecentDays now days tracker) ;;
                     Ok (days, v)) with
              | Throw e => (d, Throw e)
              | Ok (days, v) =>
                  (d, Ok (write_lines v ++
                          "Total pay in last " ++ put_int days ++ " days: " ++
                          Std.put_double
                            (value_of (snd (totalPay v tracker)) (Num 0.0)) ++ nl,
                          EmptyString, 0))
              end
            else if String.eqb cmd "--monthly" then
              (d, Ok (monthly_lines (value_of (snd (monthlyTotals tracker)) []),
                      EmptyString, 0))
            else if String.eqb cmd "--summary" then
              let all := value_of (snd (listAllSorted std_sort tracker)) [] in
              let gross := value_of (snd (totalPay all tracker)) (Num 0.0) in
              (d, Ok ("Shifts: " ++ Std.to_string (N.of_nat (List.length all)) ++ nl ++
                      "Gross (pretax): " ++ Std.put_double gross ++ nl ++
                      "Very rough PAYE estimate (yearly scaled): " ++
                      Std.put_double
                        (ddiv (estimateTaxYearly
                                 (ddiv (dmul gross (Num 52.0)) (Num 4.0)))
                              (ddiv (Num 52.0) (Num 4.0))) ++
                      " (for demo)" ++ nl ++
                      ">=" ++ String "194" (String "163" "100 shifts: ") ++
                      Std.to_string
                        (N.of_nat (value_of (snd (countHighPay (Num 100.0) tracker)) O)) ++
                      nl,
                      EmptyString, 0))
            else
              (d, Ok (EmptyString, "Unknown command. Use --help." ++ nl, 1))
        end
  end.

(** [main] with its handler: an exception becomes the line
    [Error: <what>] on standard error and the exit code 2. *)
Definition main (args : list string) (d : Disk) : run :=
  match main_try args d with
  | (d', Ok (out, err, code)) =>
      {| stdout := out; stderr := err; exit_code := code; disk := d' |}
  | (d', Throw e) =>
      {| stdout := EmptyString;
         stderr := "Error: " ++ what_of e ++ nl;
         exit_code := 2;
         disk := d' |}
  end.

End Main.

(** ** Notions used in the further properties *)

(** What [totalPay] returns for [v]: the pays added from the left,
    starting from [0.0]. *)
Definition sum_pay (v : list Shift) : double :=
  fold_left (fun acc s => dadd acc (pay s)) v (Num 0.0).

(** [m.find(k)] on the ordered map. *)
Fixpoint map_find (k : string) (m : string_map) : option double :=
  match m with
  | [] => None
  | (k', v) :: rest => if String.eqb k' k then Some v else map_find k rest
  end.

(** The key [monthlyTotals] files a shift under. *)
Definition month_of (s : Shift) : string := Std.substr 0 7 (date s).

(** The shifts of [v] filed under [k], in their order. *)
Definition month_shifts (k : string) (v : list Shift) : list Shift :=
  filter (fun s => String.eqb (month_of s) k) v.

(** Each key before every later key. *)
Definition keys_ascending (m : string_map) : Prop :=
  StronglySorted (fun a b => String.ltb (fst a) (fst b) = true) m.

(** What the loop of [monthlyTotals] has built after the shifts [v]. *)
Definition month_table (v : list Shift) : string_map :=
  fold_left (fun m s => map_add (month_of s) (pay s) m) v [].

(** The characters [operator<<] writes for a [double]: digits, the point,
    the signs, and the letters of [e], [inf] and [nan]. *)
Definition number_char (c : ascii) : bool :=
  let n := nat_of_ascii c in
  ((Nat.leb 48 n && Nat.leb n 57) ||
   Ascii.eqb c "." || Ascii.eqb c "e" || Ascii.eqb c "+" || Ascii.eqb c "-" ||
   Ascii.eqb c "i" || Ascii.eqb c "n" || Ascii.eqb c "f" || Ascii.eqb c "a")%bool.

(** Every character of [s] satisfies [P]. *)
Definition made_of (P : ascii -> bool) (s : string) : Prop :=
  forall c, In c (list_ascii_of_string s) -> P c = true.

Definition no_newline (s : string) : Prop :=
  forall c, In c (list_ascii_of_string s) -> c <> "010"%char.

(** A shift [save] writes on one line that [load] can decode: no comma
    and no newline in its date and note, and numbers that [stod] accepts
    as printed. *)
Definition storable (s : Shift) : Prop :=
  no_comma (date s) /\ no_comma (note s) /\
  no_newline (date s) /\ no_newline (note s) /\
  (exists h, Std.stod (Std.put_double (hours s)) = Ok h) /\
  (exists r, Std.stod (Std.put_double (hourlyRate s)) = Ok r).

(** [s'] is [s] with its numbers as read from their printed form. *)
Definition decoded_from (s' s : Shift) : Prop :=
  date s' = date s /\ note s' = note s /\
  Std.stod (Std.put_double (hours s)) = Ok (hours s') /\
  Std.stod (Std.put_double (hourlyRate s)) = Ok (hourlyRate s').

(** The lines of text [save] is to write for [v]: the line of each shift
    with its newline, one after the other. *)
Definition encoded_lines (v : list Shift) : string :=
  String.concat EmptyString (map (fun s => toCSV s ++ nl) v).

(** Days of month [m] (1 .. 12). *)
Definition days_in_month (leap : bool) (m : Z) : Z :=
  nth (Z.to_nat (m - 1))
      [31; if leap then 29 else 28; 31; 30; 31; 30; 31; 31; 30; 31; 30; 31] 0.

(** The date [y-m-d] written as [YYYY-MM-DD]. *)
Definition iso_date (y m d : Z) : string :=
  Std.digits_fixed 4 y ++ "-" ++ Std.digits_fixed 2 m ++ "-" ++ Std.digits_fixed 2 d.

(** A day of the calendar, in the years 0 .. 9999. *)
Definition calendar_day (y m d : Z) : Prop :=
  0 <= y <= 9999 /\ 1 <= m <= 12 /\
  1 <= d <= days_in_month (Std_time.is_leap y) m.

(** Days from 1970-01-01 to the day [y-m-d]. *)
Definition day_number (y m d : Z) : Z :=
  Std_time.days_before_year y
  + Std_time.days_before_month (Std_time.is_leap y) (m - 1) + (d - 1).


(** ** Binary64 numbers as scaled integers

    The notions in which the facts about the arithmetic of [double] are
    stated and proved from the specification of the primitive floats. *)

(** A number is measured in units of [2^(-bias)], which makes every
    binary64 number an integer. *)
Definition bias : Z := 2200.

(** The scaled exponent of the least subnormal number, [bias - 1074]. *)
Definition sub_exp : Z := 1126.

(** The exponent of the last place of a 53-bit number of the size of [N]. *)
Definition ulp_exp (N : Z) : Z := Z.max (Z.log2 N + 1 - 53) sub_exp.

(** Rounding to the nearest binary64 number, ties to even, without
    overflow: of a positive value, and of any value. *)
Definition RNpos (N : Z) : Z := round_half_even N (2 ^ ulp_exp N) * 2 ^ ulp_exp N.

Definition RNz (N : Z) : Z :=
  match N with
  | Z0 => 0
  | Zpos _ => RNpos N
  | Zneg p => - RNpos (Zpos p)
  end.

(** A value with at most 53 significant bits above a bit position [k]. *)
Definition representable (N : Z) : Prop :=
  exists k, sub_exp <= k /\ (2 ^ k | N) /\ Z.abs N < 2 ^ (k + 53).

(** The state of the shift after [k] steps on [M]: quotient, round bit
    and sticky bit. *)
Definition shifted (M : Z) (k : nat) (mrs : shr_record) : Prop :=
  let R := M mod 2 ^ Z.of_nat k in
  shr_m mrs = M / 2 ^ Z.of_nat k /\
  shr_r mrs = (2 ^ (Z.of_nat k - 1) <=? R) /\
  shr_s mrs = negb (R mod 2 ^ (Z.of_nat k - 1) =? 0).

(** The exponent of the last place for the value [M * 2^e]. *)
Definition round_exp (M e : Z) : Z := Z.max (Z.log2 M + 1 + e - 53) (-1074).

(** The canonical [spec_float] of a scaled magnitude. *)
Definition SFofZ (s : bool) (N : Z) : spec_float :=
  match N with
  | Zpos _ =>
      let E := ulp_exp N in
      if E - bias <=? 971
      then S754_finite s (Z.to_pos (N / 2 ^ E)) (E - bias)
      else S754_infinity s
  | _ => S754_zero s
  end.

(** The scaled value of a number. *)
Definition SFN (x : spec_float) : Z :=
  match x with
  | S754_finite s m e => cond_Zopp s (Zpos m * 2 ^ (e + bias))
  | _ => 0
  end.

(** The number a scaled exact result rounds to. *)
Definition SFround (N : Z) : spec_float :=
  match N with
  | Z0 => S754_zero false
  | Zpos _ => SFofZ false (RNpos N)
  | Zneg p => SFofZ true (RNpos (Zpos p))
  end.

(** A mantissa and exponent in canonical form. *)
Definition finite_bounds (m : positive) (e : Z) : Prop :=
  round_exp (Zpos m) e = e /\ e <= 971.

(** The numbers that are neither infinite nor NaN. *)
Definition is_number (x : spec_float) : bool :=
  match x with
  | S754_zero _ | S754_finite _ _ _ => true
  | _ => false
  end.

(** Order: a rank that places the infinities beyond every number. *)
Definition SFrank (x : spec_float) : Z :=
  match x with
  | S754_infinity s => cond_Zopp s (2 ^ (1024 + bias))
  | _ => SFN x
  end.

Definition not_nan (x : spec_float) : bool :=
  match x with
  | S754_nan => false
  | _ => true
  end.

(** The value and the rank of a float. *)
Definition fval (x : float) : Z := SFN (Prim2SF x).

Definition frank (x : float) : Z := SFrank (Prim2SF x).

(** A number with a plus sign: no NaN, no negative number, no negative
    zero. *)
Definition plus_sign (x : spec_float) : Prop :=
  match x with
  | S754_zero s | S754_infinity s | S754_finite s _ _ => s = false
  | S754_nan => False
  end.

(** The value 1 in these units. *)
Definition unit_value : Z := 2 ^ bias.

(** The first difference [estimateTaxYearly] forms on an income [x], and
    the second one in the higher band. *)
Definition taxable_of (x : float) : float := (x - 12570)%float.

Definition above_basic_of (x : float) : float := (taxable_of x - 37700)%float.

(** The value [estimateTaxYearly] returns in the basic band and in the
    higher band, as functions of the value of the income, and the rank of
    what it returns as a function of the rank of the income. *)
Definition basic_tax_value (X : Z) : Z :=
  RNz (RNz (X - 12570 * unit_value) * fval 0.2 / unit_value).

Definition higher_tax_value (X : Z) : Z :=
  RNz (7540 * unit_value
       + RNz (RNz (RNz (X - 12570 * unit_value) - 37700 * unit_value)
              * fval 0.4 / unit_value)).

Definition tax_rank (X : Z) : Z :=
  if X <=? 12570 * unit_value then 0
  else if X <=? 50270 * unit_value then basic_tax_value X
  else if X <? 2 ^ (1024 + bias) then higher_tax_value X
  else 2 ^ (1024 + bias).

(** * Properties *)

(** ** The arithmetic of [double] *)

Lemma round_half_even_cases (n d : Z) :
  0 < d ->
  exists q r, n = d * q + r /\ 0 <= r < d /\
    ((2 * r < d /\ round_half_even n d = q) \/
     (2 * r > d /\ round_half_even n d = q + 1) \/
     (2 * r = d /\ Z.even q = true /\ round_half_even n d = q) \/
     (2 * r = d /\ Z.even q = false /\ round_half_even n d = q + 1)).
Proof.
  intro Hd. exists (n / d), (n mod d).
  pose proof (Z.div_mod n d ltac:(lia)) as E.
  pose proof (Z.mod_pos_bound n d Hd) as B.
  split; [ exact E | split; [ exact B | ] ].
  unfold round_half_even.
  destruct (Z.compare_spec (2 * (n mod d)) d) as [C | C | C].
  - destruct (Z.even (n / d)) eqn:Ev; [ right; right; left | right; right; right ]; auto.
  - left. auto.
  - right. left. split; [ lia | reflexivity ].
Qed.

Lemma even_succ_false (q : Z) : Z.even q = true -> Z.even (q + 1) = false.
Proof. intro H. rewrite Z.even_add, H. reflexivity. Qed.

Lemma round_half_even_mono (n1 n2 d : Z) :
  0 < d -> n1 <= n2 -> round_half_even n1 d <= round_half_even n2 d.
Proof.
  intros Hd H.
  destruct (round_half_even_cases n1 d Hd) as (q1 & r1 & E1 & B1 & C1).
  destruct (round_half_even_cases n2 d Hd) as (q2 & r2 & E2 & B2 & C2).
  assert (Q : q1 <= q2) by nia.
  destruct (Z.eq_dec q1 q2) as [Eq | Ne].
  - subst q2. assert (r1 <= r2) by lia.
    destruct C1 as [[? ->] | [[? ->] | [(? & ? & ->) | (? & ? & ->)]]];
    destruct C2 as [[? ->] | [[? ->] | [(? & ? & ->) | (? & ? & ->)]]];
      try lia; congruence.
  - assert (q1 + 1 <= q2) by lia.
    destruct C1 as [[? ->] | [[? ->] | [(? & ? & ->) | (? & ? & ->)]]];
    destruct C2 as [[? ->] | [[? ->] | [(? & ? & ->) | (? & ? & ->)]]]; lia.
Qed.

Lemma round_half_even_exact (q d : Z) : 0 < d -> round_half_even (d * q) d = q.
Proof.
  intro Hd. unfold round_half_even.
  replace (d * q) with (q * d) by ring.
  rewrite Z.mod_mul, Z.div_mul by lia.
  replace (2 * 0 ?= d) with Lt by (symmetry; apply Z.compare_lt_iff; lia).
  reflexivity.
Qed.

Lemma round_half_even_bounds (n d : Z) :
  0 < d -> n / d <= round_half_even n d <= n / d + 1.
Proof.
  intro Hd. unfold round_half_even.
  destruct (2 * (n mod d) ?= d); [ destruct (Z.even (n / d)) | | ]; lia.
Qed.

Lemma round_half_even_nonneg (n d : Z) : 0 < d -> 0 <= n -> 0 <= round_half_even n d.
Proof.
  intros Hd Hn. pose proof (round_half_even_bounds n d Hd).
  pose proof (Z.div_pos n d Hn Hd). lia.
Qed.

Lemma ulp_exp_ge (N : Z) : sub_exp <= ulp_exp N.
Proof. unfold ulp_exp. lia. Qed.

Lemma ulp_exp_pos (N : Z) : 0 < ulp_exp N.
Proof. pose proof (ulp_exp_ge N). unfold sub_exp in *. lia. Qed.

Lemma pow2_pos (k : Z) : 0 <= k -> 0 < 2 ^ k.
Proof. intro H. apply Z.pow_pos_nonneg; lia. Qed.

Lemma ulp_exp_mono (N1 N2 : Z) : 0 < N1 -> N1 <= N2 -> ulp_exp N1 <= ulp_exp N2.
Proof.
  intros H1 H. unfold ulp_exp.
  pose proof (Z.log2_le_mono N1 N2 H). lia.
Qed.

Lemma RNpos_nonneg (N : Z) : 0 <= N -> 0 <= RNpos N.
Proof.
  intro H. unfold RNpos.
  pose proof (pow2_pos (ulp_exp N) ltac:(pose proof (ulp_exp_pos N); lia)).
  pose proof (round_half_even_nonneg N _ H0 H). nia.
Qed.

Lemma RNpos_exact (N : Z) : 0 < N -> representable N -> RNpos N = N.
Proof.
  intros HN (k & Hk & [q Hq] & Hlt).
  unfold RNpos.
  assert (E : ulp_exp N <= k).
  { unfold ulp_exp. apply Z.max_lub; [ | exact Hk ].
    assert (Z.log2 N < k + 53); [ | lia ].
    apply Z.log2_lt_pow2; [ lia | ]. lia. }
  pose proof (ulp_exp_pos N) as P.
  set (e := ulp_exp N) in *.
  assert (D : N = 2 ^ e * (q * 2 ^ (k - e))).
  { replace (2 ^ e * (q * 2 ^ (k - e))) with (q * (2 ^ e * 2 ^ (k - e))) by ring.
    rewrite <- Z.pow_add_r by lia. replace (e + (k - e)) with k by lia. exact Hq. }
  rewrite D at 1. rewrite round_half_even_exact by (apply pow2_pos; lia).
  rewrite D. ring.
Qed.

Lemma RNpos_upper (N a : Z) : 0 < N -> N < 2 ^ a -> ulp_exp N <= a -> RNpos N <= 2 ^ a.
Proof.
  intros HN Hlt Ha. unfold RNpos.
  pose proof (ulp_exp_pos N) as P.
  set (E := ulp_exp N) in *.
  assert (HE : 0 < 2 ^ E) by (apply pow2_pos; lia).
  pose proof (round_half_even_bounds N (2 ^ E) HE) as B.
  assert (S : 2 ^ a = 2 ^ (a - E) * 2 ^ E).
  { rewrite <- Z.pow_add_r by lia. f_equal. lia. }
  assert (Q : N / 2 ^ E < 2 ^ (a - E)).
  { apply Z.div_lt_upper_bound; [ exact HE | ]. rewrite Z.mul_comm, <- S. exact Hlt. }
  rewrite S. apply Z.mul_le_mono_nonneg_r; lia.
Qed.

Lemma RNpos_lower (N a : Z) : 0 < N -> 2 ^ a <= N -> ulp_exp N <= a -> 2 ^ a <= RNpos N.
Proof.
  intros HN Hle Ha. unfold RNpos.
  pose proof (ulp_exp_pos N) as P.
  set (E := ulp_exp N) in *.
  assert (HE : 0 < 2 ^ E) by (apply pow2_pos; lia).
  pose proof (round_half_even_bounds N (2 ^ E) HE) as B.
  assert (S : 2 ^ a = 2 ^ (a - E) * 2 ^ E).
  { rewrite <- Z.pow_add_r by lia. f_equal. lia. }
  assert (Q : 2 ^ (a - E) <= N / 2 ^ E).
  { apply Z.div_le_lower_bound; [ exact HE | ]. rewrite Z.mul_comm, <- S. exact Hle. }
  rewrite S. apply Z.mul_le_mono_nonneg_r; lia.
Qed.

Lemma RNpos_mono (N1 N2 : Z) : 0 < N1 -> N1 <= N2 -> RNpos N1 <= RNpos N2.
Proof.
  intros H1 H.
  pose proof (ulp_exp_mono N1 N2 H1 H) as HE.
  pose proof (ulp_exp_pos N1) as P1.
  destruct (Z.eq_dec (ulp_exp N1) (ulp_exp N2)) as [E | NE].
  - unfold RNpos. rewrite E.
    assert (HP : 0 < 2 ^ ulp_exp N2) by (apply pow2_pos; lia).
    pose proof (round_half_even_mono N1 N2 _ HP H). nia.
  - assert (L : ulp_exp N1 < ulp_exp N2) by lia.
    assert (E2 : ulp_exp N2 = Z.log2 N2 + 1 - 53).
    { pose proof (ulp_exp_ge N1). unfold ulp_exp in *. lia. }
    set (a := Z.max (Z.log2 N1 + 1) (ulp_exp N1)).
    assert (U : RNpos N1 <= 2 ^ a).
    { apply RNpos_upper; [ exact H1 | | unfold a; lia ].
      apply Z.lt_le_trans with (2 ^ (Z.log2 N1 + 1)).
      - pose proof (Z.log2_spec N1 H1). replace (Z.log2 N1 + 1) with (Z.succ (Z.log2 N1)) by lia. lia.
      - apply Z.pow_le_mono_r; unfold a; lia. }
    assert (L2 : 2 ^ Z.log2 N2 <= RNpos N2).
    { apply RNpos_lower; [ lia | | lia ].
      pose proof (Z.log2_spec N2 ltac:(lia)). lia. }
    assert (A : a <= Z.log2 N2).
    { unfold a. apply Z.max_lub; [ | lia ].
      assert (Z.log2 N1 < Z.log2 N2); [ | lia ].
      unfold ulp_exp in L. pose proof (Z.log2_le_mono N1 N2 H). lia. }
    pose proof (Z.pow_le_mono_r 2 a (Z.log2 N2) ltac:(lia) A). lia.
Qed.

Lemma RNz_opp (N : Z) : RNz (- N) = - RNz N.
Proof. destruct N; cbn; lia. Qed.

Lemma RNz_pos (N : Z) : 0 < N -> RNz N = RNpos N.
Proof. destruct N; cbn; intro; try lia; reflexivity. Qed.

Lemma RNz_nonneg (N : Z) : 0 <= N -> 0 <= RNz N.
Proof.
  intro H. destruct N; cbn; try lia. apply RNpos_nonneg. lia.
Qed.

Lemma RNz_neg (N : Z) : N < 0 -> RNz N = - RNpos (- N).
Proof. destruct N; cbn; intro; try lia; reflexivity. Qed.

Lemma RNz_mono (N1 N2 : Z) : N1 <= N2 -> RNz N1 <= RNz N2.
Proof.
  intro H.
  destruct (Z.lt_trichotomy N1 0) as [L1 | [E1 | G1]];
  destruct (Z.lt_trichotomy N2 0) as [L2 | [E2 | G2]]; try lia.
  - rewrite (RNz_neg N1), (RNz_neg N2) by lia.
    pose proof (RNpos_mono (- N2) (- N1) ltac:(lia) ltac:(lia)). lia.
  - subst N2. rewrite (RNz_neg N1) by lia.
    pose proof (RNpos_nonneg (- N1) ltac:(lia)). cbn. lia.
  - rewrite (RNz_neg N1), (RNz_pos N2) by lia.
    pose proof (RNpos_nonneg (- N1) ltac:(lia)).
    pose proof (RNpos_nonneg N2 ltac:(lia)). lia.
  - subst. cbn. lia.
  - subst N1. rewrite (RNz_pos N2) by lia. cbn. apply RNpos_nonneg. lia.
  - rewrite !RNz_pos by lia. apply RNpos_mono; lia.
Qed.

Lemma representable_opp (N : Z) : representable N -> representable (- N).
Proof.
  intros (k & Hk & D & B). exists k. split; [ exact Hk | split ].
  - apply Z.divide_opp_r. exact D.
  - rewrite Z.abs_opp. exact B.
Qed.

Lemma RNz_exact (N : Z) : representable N -> RNz N = N.
Proof.
  intro R. destruct (Z.lt_trichotomy N 0) as [L | [E | G]].
  - rewrite RNz_neg by lia.
    rewrite RNpos_exact; [ lia | lia | ]. apply representable_opp. exact R.
  - subst. reflexivity.
  - rewrite RNz_pos by lia. apply RNpos_exact; assumption.
Qed.

Lemma digits2_size (m : positive) : digits2_pos m = Pos.size m.
Proof. induction m; cbn; congruence. Qed.

Lemma digits2_log2 (m : positive) : Zpos (digits2_pos m) = Z.log2 (Zpos m) + 1.
Proof.
  rewrite digits2_size. destruct m; cbn [Z.log2 Pos.size]; lia.
Qed.

Lemma iter_pos_nat {A : Type} (f : A -> A) (p : positive) :
  forall x, iter_pos f p x = Nat.iter (Pos.to_nat p) f x.
Proof.
  induction p as [ p IH | p IH | ]; intro x; cbn [iter_pos].
  - rewrite !IH. rewrite Pos2Nat.inj_xI.
    replace (S (2 * Pos.to_nat p)) with (Pos.to_nat p + (Pos.to_nat p + 1))%nat by lia.
    rewrite !Nat.iter_add. cbn. reflexivity.
  - rewrite !IH. rewrite Pos2Nat.inj_xO.
    replace (2 * Pos.to_nat p)%nat with (Pos.to_nat p + Pos.to_nat p)%nat by lia.
    rewrite Nat.iter_add. reflexivity.
  - reflexivity.
Qed.

Lemma shr_1_fields (mrs : shr_record) :
  0 <= shr_m mrs ->
  shr_m (shr_1 mrs) = shr_m mrs / 2 /\
  shr_r (shr_1 mrs) = Z.odd (shr_m mrs) /\
  shr_s (shr_1 mrs) = (shr_r mrs || shr_s mrs)%bool.
Proof.
  destruct mrs as [m r s]. cbn [shr_m shr_r shr_s]. intro H.
  destruct m as [ | [p | p | ] | p ]; try lia; cbn [shr_1 shr_m shr_r shr_s].
  - repeat split.
  - repeat split. rewrite Pos2Z.inj_xI. 
    replace (2 * Z.pos p + 1) with (1 + Z.pos p * 2) by lia.
    rewrite Z.div_add by lia. reflexivity.
  - repeat split. rewrite Pos2Z.inj_xO.
    replace (2 * Z.pos p) with (Z.pos p * 2) by lia.
    rewrite Z.div_mul by lia. reflexivity.
  - repeat split.
Qed.

Lemma shifted_first (M : Z) :
  0 <= M -> shifted M 1 (shr_1 {| shr_m := M; shr_r := false; shr_s := false |}).
Proof.
  intro H. unfold shifted.
  destruct (shr_1_fields {| shr_m := M; shr_r := false; shr_s := false |} H) as (Hm & Hr & Hs).
  cbn [shr_m shr_r shr_s] in *.
  rewrite Hm, Hr, Hs. change (2 ^ Z.of_nat 1) with 2. change (2 ^ (Z.of_nat 1 - 1)) with 1.
  repeat split.
  - rewrite Zodd_mod. 
    pose proof (Z.mod_pos_bound M 2 ltac:(lia)).
    destruct (Z.eqb_spec (M mod 2) 1); destruct (Z.leb_spec 1 (M mod 2)); try reflexivity; lia.
  - rewrite Z.mod_1_r. reflexivity.
Qed.

Lemma shifted_step (M : Z) (k : nat) (mrs : shr_record) :
  0 <= M -> (1 <= k)%nat -> shifted M k mrs -> shifted M (S k) (shr_1 mrs).
Proof.
  intros HM Hk (Hm & Hr & Hs). unfold shifted.
  assert (Hnn : 0 <= shr_m mrs).
  { rewrite Hm. apply Z.div_pos; [ exact HM | apply pow2_pos; lia ]. }
  destruct (shr_1_fields mrs Hnn) as (Hm' & Hr' & Hs').
  rewrite Hm', Hr', Hs', Hm, Hr, Hs.
  rewrite Nat2Z.inj_succ.
  replace (Z.succ (Z.of_nat k) - 1) with (Z.of_nat k) by lia.
  set (K := Z.of_nat k) in *.
  assert (HK : 1 <= K) by (unfold K; lia).
  assert (P : 0 < 2 ^ K) by (apply pow2_pos; lia).
  assert (P1 : 0 < 2 ^ (K - 1)) by (apply pow2_pos; lia).
  assert (S2 : 2 ^ Z.succ K = 2 ^ K * 2) by (rewrite Z.pow_succ_r by lia; ring).
  assert (S1 : 2 ^ K = 2 ^ (K - 1) * 2).
  { replace K with (Z.succ (K - 1)) at 1 by lia. rewrite Z.pow_succ_r by lia. ring. }
  pose proof (Z.div_mod M (2 ^ K) ltac:(lia)) as D.
  pose proof (Z.mod_pos_bound M (2 ^ K) P) as B.
  set (q := M / 2 ^ K) in *. set (R := M mod 2 ^ K) in *.
  pose proof (Z.div_mod q 2 ltac:(lia)) as Dq.
  pose proof (Z.mod_pos_bound q 2 ltac:(lia)) as Bq.
  assert (Q' : M / 2 ^ Z.succ K = q / 2).
  { rewrite S2. rewrite <- Z.div_div by lia. reflexivity. }
  assert (R' : M mod 2 ^ Z.succ K = (q mod 2) * 2 ^ K + R).
  { symmetry. apply Z.mod_unique with (q / 2); [ left; nia | ]. rewrite S2. nia. }
  split; [ symmetry; exact Q' | ].
  rewrite R'. split.
  - rewrite Zodd_mod.
    destruct (Z.eqb_spec (q mod 2) 1); destruct (Z.leb_spec (2 ^ K) (q mod 2 * 2 ^ K + R));
      try reflexivity; nia.
  - rewrite Z.add_comm, Z.mod_add by lia.
    rewrite (Z.mod_small R (2 ^ K)) by lia.
    pose proof (Z.div_mod R (2 ^ (K - 1)) ltac:(lia)) as DR.
    pose proof (Z.mod_pos_bound R (2 ^ (K - 1)) P1) as BR.
    destruct (Z.leb_spec (2 ^ (K - 1)) R) as [L | L];
      destruct (Z.eqb_spec (R mod 2 ^ (K - 1)) 0) as [E | E];
      destruct (Z.eqb_spec R 0) as [E0 | E0]; cbn; try reflexivity; try lia.
    + exfalso. assert (H0 : R / 2 ^ (K - 1) = 0) by (apply Z.div_small; lia).
      rewrite H0 in DR. lia.
    + exfalso. apply E. rewrite E0. apply Z.mod_0_l. lia.
Qed.

Lemma shifted_iter (M : Z) (k : nat) :
  0 <= M -> (1 <= k)%nat ->
  shifted M k (Nat.iter k shr_1 {| shr_m := M; shr_r := false; shr_s := false |}).
Proof.
  intros HM Hk. induction k as [ | k IH ]; [ lia | ].
  destruct k as [ | k ].
  - apply shifted_first. exact HM.
  - cbn [Nat.iter]. apply shifted_step; [ exact HM | lia | ].
    apply IH. lia.
Qed.

(** Rounding the shifted mantissa to nearest even is [round_half_even]. *)
Lemma shifted_round (M : Z) (k : nat) (mrs : shr_record) :
  0 <= M -> (1 <= k)%nat -> shifted M k mrs ->
  round_nearest_even (shr_m mrs) (loc_of_shr_record mrs)
  = round_half_even M (2 ^ Z.of_nat k).
Proof.
  intros HM Hk (Hm & Hr & Hs).
  destruct mrs as [m r s]. cbn [shr_m shr_r shr_s] in *.
  set (K := Z.of_nat k) in *.
  assert (HK : 1 <= K) by (unfold K; lia).
  assert (P : 0 < 2 ^ K) by (apply pow2_pos; lia).
  assert (P1 : 0 < 2 ^ (K - 1)) by (apply pow2_pos; lia).
  assert (S1 : 2 ^ K = 2 ^ (K - 1) * 2).
  { replace K with (Z.succ (K - 1)) at 1 by lia. rewrite Z.pow_succ_r by lia. ring. }
  pose proof (Z.mod_pos_bound M (2 ^ K) P) as B.
  unfold round_half_even. rewrite <- Hm.
  set (R := M mod 2 ^ K) in *.
  pose proof (Z.div_mod R (2 ^ (K - 1)) ltac:(lia)) as DR.
  pose proof (Z.mod_pos_bound R (2 ^ (K - 1)) P1) as BR.
  assert (Hq : R / 2 ^ (K - 1) = 0 \/ R / 2 ^ (K - 1) = 1).
  { assert (0 <= R / 2 ^ (K - 1)) by (apply Z.div_pos; lia).
    assert (R / 2 ^ (K - 1) < 2) by (apply Z.div_lt_upper_bound; lia). lia. }
  subst r s.
  destruct (Z.leb_spec (2 ^ (K - 1)) R) as [L | L];
    destruct (Z.eqb_spec (R mod 2 ^ (K - 1)) 0) as [E | E];
    cbn [negb loc_of_shr_record round_nearest_even];
    destruct (Z.compare_spec (2 * R) (2 ^ K)) as [C | C | C]; try reflexivity; try nia.
Qed.

Lemma fexp_eq (x : Z) : fexp prec emax x = Z.max (x - 53) (-1074).
Proof. reflexivity. Qed.

Lemma round_half_even_scale (a b c : Z) :
  0 < b -> 0 < c -> round_half_even (a * c) (b * c) = round_half_even a b.
Proof.
  intros Hb Hc. unfold round_half_even.
  rewrite Z.div_mul_cancel_r by lia.
  rewrite Z.mul_mod_distr_r by lia.
  replace (2 * (a mod b * c) ?= b * c) with (2 * (a mod b) ?= b); [ reflexivity | ].
  destruct (Z.compare_spec (2 * (a mod b)) b) as [E | L | G]; symmetry.
  - apply Z.compare_eq_iff. nia.
  - apply Z.compare_lt_iff. nia.
  - apply Z.compare_gt_iff. nia.
Qed.

Lemma round_half_even_one (a : Z) : round_half_even a 1 = a.
Proof.
  unfold round_half_even. rewrite Z.mod_1_r, Z.div_1_r. reflexivity.
Qed.

(** The first shift of [binary_round_aux], followed by the rounding. *)
Lemma shr_fexp_round (M : positive) (e : Z) :
  e <= round_exp (Zpos M) e ->
  let r := shr_fexp prec emax (Zpos M) e loc_Exact in
  round_nearest_even (shr_m (fst r)) (loc_of_shr_record (fst r))
  = round_half_even (Zpos M) (2 ^ (round_exp (Zpos M) e - e)) /\
  snd r = round_exp (Zpos M) e.
Proof.
  intros Hn r. subst r. unfold shr_fexp.
  rewrite fexp_eq. cbn [Zdigits2]. rewrite digits2_log2.
  fold (round_exp (Zpos M) e).
  set (E := round_exp (Zpos M) e) in *.
  cbn [shr_record_of_loc]. unfold shr.
  destruct (E - e) as [ | p | p ] eqn:Hp; try lia.
  - cbn [fst snd shr_m loc_of_shr_record round_nearest_even].
    change (2 ^ 0) with 1. rewrite round_half_even_one. split; [ reflexivity | lia ].
  - cbn [fst snd]. rewrite iter_pos_nat.
    assert (K : (1 <= Pos.to_nat p)%nat) by lia.
    pose proof (shifted_iter (Zpos M) (Pos.to_nat p) ltac:(lia) K) as S.
    rewrite (shifted_round (Zpos M) (Pos.to_nat p) _ ltac:(lia) K S).
    rewrite positive_nat_Z. split; [ reflexivity | lia ].
Qed.

(** The second shift of [binary_round_aux], on a mantissa of at most 54
    bits at an exponent not below the least one: an exact halving when
    the 54th bit is set, nothing otherwise. *)
Lemma shr_fexp_again (m : positive) (e : Z) :
  -1074 <= e -> Zpos m <= 2 ^ 53 ->
  shr_fexp prec emax (Zpos m) e loc_Exact
  = if Zpos m =? 2 ^ 53
    then ({| shr_m := 2 ^ 52; shr_r := false; shr_s := false |}, e + 1)
    else ({| shr_m := Zpos m; shr_r := false; shr_s := false |}, e).
Proof.
  intros He Hm. unfold shr_fexp. rewrite fexp_eq. cbn [Zdigits2].
  rewrite digits2_log2. cbn [shr_record_of_loc]. unfold shr.
  destruct (Z.eqb_spec (Zpos m) (2 ^ 53)) as [E | NE].
  - rewrite E. change (Z.log2 (2 ^ 53)) with 53.
    replace (Z.max (53 + 1 + e - 53) (-1074) - e) with 1 by lia.
    reflexivity.
  - assert (L : Z.log2 (Zpos m) < 53).
    { apply Z.log2_lt_pow2; lia. }
    destruct (Z.max (Z.log2 (Z.pos m) + 1 + e - 53) (-1074) - e) eqn:Hp; try lia; reflexivity.
Qed.

Lemma log2_mul_pow2 (M k : Z) : 0 < M -> 0 <= k -> Z.log2 (M * 2 ^ k) = Z.log2 M + k.
Proof. intros HM Hk. rewrite Z.log2_mul_pow2 by lia. lia. Qed.

Lemma round_exp_scaled (M e : Z) :
  0 < M -> 0 <= e + bias ->
  ulp_exp (M * 2 ^ (e + bias)) = round_exp M e + bias.
Proof.
  intros HM He. unfold ulp_exp, round_exp, sub_exp, bias in *.
  rewrite log2_mul_pow2 by lia. lia.
Qed.

Lemma RNpos_scaled (M e : Z) :
  0 < M -> 0 <= e + bias -> e <= round_exp M e ->
  RNpos (M * 2 ^ (e + bias))
  = round_half_even M (2 ^ (round_exp M e - e)) * 2 ^ (round_exp M e + bias).
Proof.
  intros HM He Hn. unfold RNpos. rewrite round_exp_scaled by assumption.
  set (E := round_exp M e) in *.
  replace (2 ^ (E + bias)) with (2 ^ (E - e) * 2 ^ (e + bias)).
  - rewrite round_half_even_scale by (apply pow2_pos; lia). reflexivity.
  - rewrite <- Z.pow_add_r by lia. f_equal. lia.
Qed.

(** The rounded mantissa has at most 53 bits, or is [2^53]; it has 53
    bits above the least exponent. *)
Lemma rounded_mantissa_bounds (M e : Z) :
  0 < M -> e <= round_exp M e ->
  let m1 := round_half_even M (2 ^ (round_exp M e - e)) in
  0 <= m1 <= 2 ^ 53 /\ (-1074 < round_exp M e -> 2 ^ 52 <= m1).
Proof.
  intros HM Hn m1. subst m1.
  set (E := round_exp M e) in *. set (n := E - e).
  assert (Hn0 : 0 <= n) by (unfold n; lia).
  assert (P : 0 < 2 ^ n) by (apply pow2_pos; lia).
  pose proof (round_half_even_bounds M (2 ^ n) P) as B.
  pose proof (Z.log2_spec M HM) as [L1 L2].
  set (l := Z.log2 M) in *.
  assert (Hl : 0 <= l) by (apply Z.log2_nonneg).
  assert (NE : l + 1 - 53 <= n) by (unfold n, E, round_exp; fold l; lia).
  split.
  - split.
    + pose proof (Z.div_pos M (2 ^ n) ltac:(lia) P). lia.
    + assert (M / 2 ^ n < 2 ^ 53); [ | lia ].
      apply Z.div_lt_upper_bound; [ exact P | ].
      apply Z.lt_le_trans with (1 := L2).
      rewrite <- Z.pow_add_r by lia. apply Z.pow_le_mono_r; lia.
  - intro Hsub.
    assert (En : n = l - 52) by (unfold n, E, round_exp in *; fold l in Hsub |- *; lia).
    assert (2 ^ 52 <= M / 2 ^ n); [ | lia ].
    apply Z.div_le_lower_bound; [ exact P | ].
    rewrite <- Z.pow_add_r by lia. replace (n + 52) with l by lia. exact L1.
Qed.

Lemma round_exp_ge (M e : Z) : -1074 <= round_exp M e.
Proof. unfold round_exp. lia. Qed.

Lemma binary_round_aux_spec (s : bool) (M : positive) (e : Z) :
  0 <= e + bias -> e <= round_exp (Zpos M) e ->
  binary_round_aux prec emax s (Zpos M) e loc_Exact
  = SFofZ s (RNpos (Zpos M * 2 ^ (e + bias))).
Proof.
  intros He Hn.
  rewrite RNpos_scaled by (try lia; assumption).
  destruct (rounded_mantissa_bounds (Zpos M) e ltac:(lia) Hn) as [[B0 B1] B2].
  pose proof (round_exp_ge (Zpos M) e) as HE.
  unfold binary_round_aux.
  destruct (shr_fexp_round M e Hn) as [R1 R2].
  destruct (shr_fexp prec emax (Zpos M) e loc_Exact) as [mrs' e'].
  cbn [fst snd] in R1, R2. rewrite R1, R2. clear R1 R2 mrs' e'.
  set (E := round_exp (Zpos M) e) in *.
  set (m1 := round_half_even (Zpos M) (2 ^ (E - e))) in *.
  assert (PE : 0 < 2 ^ (E + bias)) by (apply pow2_pos; unfold bias; lia).
  destruct m1 as [ | m | m ] eqn:Hm1; [ | | lia ].
  - (* the rounded mantissa is zero *)
    cbn [Z.mul SFofZ].
    unfold shr_fexp. rewrite fexp_eq. cbn [Zdigits2 shr_record_of_loc]. unfold shr.
    destruct (Z.max (0 + E - 53) (-1074) - E) eqn:Hp; try lia; reflexivity.
  - rewrite shr_fexp_again by lia.
    change (emax - prec) with 971.
    destruct (Z.eqb_spec (Zpos m) (2 ^ 53)) as [C | NC].
    + (* a carry into the 54th bit *)
      cbn [shr_m]. rewrite C.
      assert (EQ : 2 ^ 53 * 2 ^ (E + bias) = 2 ^ (E + bias + 53)).
      { rewrite <- Z.pow_add_r by (unfold bias; lia). f_equal. lia. }
      rewrite EQ.
      assert (P : 0 < 2 ^ (E + bias + 53)) by (apply pow2_pos; unfold bias; lia).
      destruct (2 ^ (E + bias + 53)) as [ | N | N ] eqn:HN; try lia.
      unfold SFofZ. rewrite <- HN.
      assert (U : ulp_exp (2 ^ (E + bias + 53)) = E + bias + 1).
      { unfold ulp_exp, sub_exp. rewrite Z.log2_pow2 by (unfold bias; lia).
        unfold bias. lia. }
      rewrite U.
      replace (E + bias + 1 - bias) with (E + 1) by lia.
      replace (2 ^ (E + bias + 53) / 2 ^ (E + bias + 1)) with (2 ^ 52).
      * change (2 ^ 52) with (Zpos (Z.to_pos (2 ^ 52))) at 1. reflexivity.
      * apply Z.div_unique_exact; [ lia | ].
        rewrite <- Z.pow_add_r by (unfold bias; lia). f_equal. lia.
    + cbn [shr_m].
      assert (PM : 0 < Zpos m * 2 ^ (E + bias)) by lia.
      destruct (Zpos m * 2 ^ (E + bias)) as [ | N | N ] eqn:HN; try lia.
      unfold SFofZ. rewrite <- HN.
      assert (U : ulp_exp (Zpos m * 2 ^ (E + bias)) = E + bias).
      { unfold ulp_exp, sub_exp. rewrite log2_mul_pow2 by (unfold bias; lia).
        assert (L : Z.log2 (Zpos m) < 53) by (apply Z.log2_lt_pow2; lia).
        destruct (Z.eq_dec E (-1074)) as [Es | Es].
        - unfold bias. lia.
        - assert (L2 : 52 <= Z.log2 (Zpos m)).
          { apply Z.log2_le_pow2; [ lia | ]. apply B2. lia. }
          unfold bias. lia. }
      rewrite U. replace (E + bias - bias) with E by lia.
      rewrite Z.div_mul by lia. reflexivity.
Qed.

Lemma iter_xO (d m : positive) : Zpos (Pos.iter xO m d) = Zpos m * 2 ^ Zpos d.
Proof.
  change (Pos.iter xO m d) with (shift_pos d m).
  rewrite shift_pos_correct, Z.pow_pos_fold. lia.
Qed.

Lemma shl_align_spec (m : positive) (e e' : Z) :
  let r := shl_align m e e' in
  snd r = Z.min e e' /\ Zpos (fst r) = Zpos m * 2 ^ (e - snd r).
Proof.
  unfold shl_align. destruct (e' - e) as [ | d | d ] eqn:Hd; cbn [fst snd].
  - split; [ lia | ]. replace (e - e) with 0 by lia. lia.
  - split; [ lia | ]. replace (e - e) with 0 by lia. lia.
  - split; [ lia | ]. rewrite iter_xO. f_equal. f_equal. lia.
Qed.

Lemma binary_round_spec (s : bool) (m : positive) (e : Z) :
  -1074 <= e ->
  binary_round prec emax s m e = SFofZ s (RNpos (Zpos m * 2 ^ (e + bias))).
Proof.
  intro He. unfold binary_round. rewrite fexp_eq, digits2_log2.
  fold (round_exp (Zpos m) e).
  pose proof (round_exp_ge (Zpos m) e) as HE.
  destruct (shl_align_spec m e (round_exp (Zpos m) e)) as [S2 S1].
  destruct (shl_align m e (round_exp (Z.pos m) e)) as [mz ez].
  cbn [fst snd] in S1, S2.
  assert (V : Zpos mz * 2 ^ (ez + bias) = Zpos m * 2 ^ (e + bias)).
  { rewrite S1, <- Z.mul_assoc, <- Z.pow_add_r by (unfold bias; lia).
    f_equal. f_equal. lia. }
  rewrite <- V. apply binary_round_aux_spec; [ unfold bias; lia | ].
  unfold round_exp in *. rewrite S1.
  rewrite log2_mul_pow2 by lia. lia.
Qed.

Lemma binary_normalize_spec (M e : Z) :
  -1074 <= e ->
  binary_normalize prec emax M e false = SFround (M * 2 ^ (e + bias)).
Proof.
  intro He.
  assert (P : 0 < 2 ^ (e + bias)) by (apply pow2_pos; unfold bias; lia).
  destruct M as [ | m | m ]; cbn [binary_normalize].
  - reflexivity.
  - rewrite binary_round_spec by exact He.
    destruct (Zpos m * 2 ^ (e + bias)) eqn:HN; try lia. reflexivity.
  - rewrite binary_round_spec by exact He.
    assert (HN : Zneg m * 2 ^ (e + bias) = - (Zpos m * 2 ^ (e + bias))) by lia.
    rewrite HN.
    destruct (Zpos m * 2 ^ (e + bias)) eqn:HP; try lia. reflexivity.
Qed.

Lemma bounded_iff (m : positive) (e : Z) :
  bounded prec emax m e = true <-> finite_bounds m e.
Proof.
  unfold bounded, canonical_mantissa, finite_bounds.
  rewrite fexp_eq, digits2_log2, andb_true_iff, Z.eqb_eq, Z.leb_le.
  unfold round_exp. change (emax - prec) with 971. tauto.
Qed.

Lemma finite_bounds_range (m : positive) (e : Z) :
  finite_bounds m e ->
  -1074 <= e <= 971 /\ Zpos m < 2 ^ 53 /\ (-1074 < e -> 2 ^ 52 <= Zpos m).
Proof.
  intros [C B]. unfold round_exp in C.
  pose proof (Z.log2_spec (Zpos m) ltac:(lia)) as [L1 L2].
  pose proof (Z.log2_nonneg (Zpos m)) as L0.
  split; [ lia | split ].
  - apply Z.lt_le_trans with (1 := L2). apply Z.pow_le_mono_r; lia.
  - intro H. apply Z.le_trans with (2 := L1). apply Z.pow_le_mono_r; lia.
Qed.

Lemma SFsub_finite (sx : bool) (mx : positive) (ex : Z) (sy : bool) (my : positive) (ey : Z) :
  -1074 <= ex -> -1074 <= ey ->
  SFsub prec emax (S754_finite sx mx ex) (S754_finite sy my ey)
  = SFround (SFN (S754_finite sx mx ex) - SFN (S754_finite sy my ey)).
Proof.
  intros Hx Hy. cbn [SFsub SFN].
  destruct (shl_align_spec mx ex (Z.min ex ey)) as [X2 X1].
  destruct (shl_align_spec my ey (Z.min ex ey)) as [Y2 Y1].
  rewrite X1, Y1, X2, Y2.
  replace (Z.min ex (Z.min ex ey)) with (Z.min ex ey) by lia.
  replace (Z.min ey (Z.min ex ey)) with (Z.min ex ey) by lia.
  rewrite binary_normalize_spec by lia.
  f_equal. set (ez := Z.min ex ey).
  assert (A : forall m e, ez <= e -> Zpos m * 2 ^ (e - ez) * 2 ^ (ez + bias) = Zpos m * 2 ^ (e + bias)).
  { intros m e H. rewrite <- Z.mul_assoc, <- Z.pow_add_r by (unfold bias, ez in *; lia).
    f_equal. f_equal. lia. }
  rewrite Z.mul_sub_distr_r.
  destruct sx, sy; cbn [cond_Zopp];
    rewrite ?Z.mul_opp_l, !A by (unfold ez; lia); reflexivity.
Qed.

Lemma SFadd_finite (sx : bool) (mx : positive) (ex : Z) (sy : bool) (my : positive) (ey : Z) :
  -1074 <= ex -> -1074 <= ey ->
  SFadd prec emax (S754_finite sx mx ex) (S754_finite sy my ey)
  = SFround (SFN (S754_finite sx mx ex) + SFN (S754_finite sy my ey)).
Proof.
  intros Hx Hy. cbn [SFadd SFN].
  destruct (shl_align_spec mx ex (Z.min ex ey)) as [X2 X1].
  destruct (shl_align_spec my ey (Z.min ex ey)) as [Y2 Y1].
  rewrite X1, Y1, X2, Y2.
  replace (Z.min ex (Z.min ex ey)) with (Z.min ex ey) by lia.
  replace (Z.min ey (Z.min ex ey)) with (Z.min ex ey) by lia.
  rewrite binary_normalize_spec by lia.
  f_equal. set (ez := Z.min ex ey).
  assert (A : forall m e, ez <= e -> Zpos m * 2 ^ (e - ez) * 2 ^ (ez + bias) = Zpos m * 2 ^ (e + bias)).
  { intros m e H. rewrite <- Z.mul_assoc, <- Z.pow_add_r by (unfold bias, ez in *; lia).
    f_equal. f_equal. lia. }
  rewrite Z.mul_add_distr_r.
  destruct sx, sy; cbn [cond_Zopp];
    rewrite ?Z.mul_opp_l, !A by (unfold ez; lia); reflexivity.
Qed.

Lemma representable_zero : representable 0.
Proof.
  exists sub_exp. split; [ lia | split; [ apply Z.divide_0_r | ] ].
  change (Z.abs 0) with 0. apply pow2_pos. unfold sub_exp. lia.
Qed.

Lemma representable_divide (R : Z) :
  0 < R -> representable R -> (2 ^ ulp_exp R | R).
Proof.
  intros HR (k & Hk & [q Hq] & Hlt).
  assert (E : ulp_exp R <= k).
  { unfold ulp_exp. apply Z.max_lub; [ | exact Hk ].
    assert (Z.log2 R < k + 53); [ | lia ].
    apply Z.log2_lt_pow2; lia. }
  pose proof (ulp_exp_pos R) as P.
  set (e := ulp_exp R) in *.
  exists (q * 2 ^ (k - e)).
  rewrite <- Z.mul_assoc, <- Z.pow_add_r by lia.
  replace (k - e + e) with k by lia. exact Hq.
Qed.

Lemma RNpos_representable (N : Z) : 0 < N -> representable (RNpos N).
Proof.
  intro HN.
  pose proof (RNpos_scaled N (- bias) HN ltac:(lia)) as S.
  replace (- bias + bias) with 0 in S by lia.
  change (2 ^ 0) with 1 in S. rewrite Z.mul_1_r in S.
  assert (Hn : - bias <= round_exp N (- bias)).
  { pose proof (round_exp_ge N (- bias)). unfold bias in *. lia. }
  specialize (S Hn).
  destruct (rounded_mantissa_bounds N (- bias) HN Hn) as [[B0 B1] B2].
  pose proof (round_exp_ge N (- bias)) as HE.
  set (E := round_exp N (- bias)) in *.
  set (m1 := round_half_even N (2 ^ (E - - bias))) in *.
  rewrite S.
  assert (PE : 0 < 2 ^ (E + bias)) by (apply pow2_pos; unfold bias; lia).
  destruct (Z.eq_dec m1 (2 ^ 53)) as [C | NC].
  - exists (E + bias + 1). split; [ unfold sub_exp, bias in *; lia | split ].
    + exists (2 ^ 52). rewrite C, <- !Z.pow_add_r by (unfold bias in *; lia). f_equal. lia.
    + rewrite C, <- Z.pow_add_r by (unfold bias in *; lia).
      rewrite Z.abs_eq by (apply Z.pow_nonneg; lia).
      apply Z.pow_lt_mono_r; unfold bias in *; lia.
  - exists (E + bias). split; [ unfold sub_exp, bias in *; lia | split ].
    + exists m1. reflexivity.
    + rewrite Z.abs_eq by (apply Z.mul_nonneg_nonneg; lia).
      rewrite (Z.pow_add_r 2 (E + bias) 53) by (unfold bias in *; lia).
      rewrite (Z.mul_comm (2 ^ (E + bias))).
      apply Z.mul_lt_mono_pos_r; [ exact PE | lia ].
Qed.

Lemma RNz_representable (N : Z) : representable (RNz N).
Proof.
  destruct N; cbn [RNz].
  - apply representable_zero.
  - apply RNpos_representable. lia.
  - apply representable_opp, RNpos_representable. lia.
Qed.

(** The canonical form of a positive representable value below the
    overflow threshold. *)
Lemma SFofZ_finite (s : bool) (R : Z) :
  0 < R -> representable R -> R < 2 ^ (1024 + bias) ->
  exists m e,
    SFofZ s R = S754_finite s m e /\ finite_bounds m e /\
    Zpos m * 2 ^ (e + bias) = R.
Proof.
  intros HR Rep Hlt.
  destruct (representable_divide R HR Rep) as [q Hq].
  pose proof (ulp_exp_ge R) as HE. unfold sub_exp in HE.
  assert (PE : 0 < 2 ^ ulp_exp R) by (apply pow2_pos; lia).
  assert (Hq0 : 0 < q) by nia.
  assert (L : Z.log2 R = Z.log2 q + ulp_exp R).
  { rewrite Hq at 1. apply log2_mul_pow2; lia. }
  assert (B : ulp_exp R - bias <= 971).
  { assert (Z.log2 R < 1024 + bias) by (apply Z.log2_lt_pow2; lia).
    unfold ulp_exp, sub_exp, bias in *. lia. }
  exists (Z.to_pos q), (ulp_exp R - bias).
  assert (Q : Zpos (Z.to_pos q) = q) by (apply Z2Pos.id; lia).
  assert (D : R / 2 ^ ulp_exp R = q).
  { symmetry. apply Z.div_unique_exact; [ lia | ]. rewrite Z.mul_comm. exact Hq. }
  split; [ | split ].
  - destruct R as [ | p | p ] eqn:ER; try lia. unfold SFofZ. rewrite <- ER in *.
    apply Z.leb_le in B. rewrite B, D. reflexivity.
  - split; [ | exact B ]. rewrite Q. unfold round_exp.
    unfold ulp_exp in L |- *. unfold sub_exp, bias in *. lia.
  - rewrite Q. replace (ulp_exp R - bias + bias) with (ulp_exp R) by lia.
    symmetry. exact Hq.
Qed.

Lemma SFofZ_overflow (s : bool) (R : Z) :
  2 ^ (1024 + bias) <= R -> SFofZ s R = S754_infinity s.
Proof.
  intro H.
  assert (P : 0 < 2 ^ (1024 + bias)) by (apply pow2_pos; unfold bias; lia).
  destruct R as [ | p | p ] eqn:ER; try lia. unfold SFofZ. rewrite <- ER in *.
  assert (L : 1024 + bias <= Z.log2 R) by (apply Z.log2_le_pow2; lia).
  replace (ulp_exp R - bias <=? 971) with false; [ reflexivity | ].
  symmetry. apply Z.leb_gt. unfold ulp_exp, sub_exp, bias in *. lia.
Qed.

Lemma finite_bounds_representable (m : positive) (e : Z) :
  finite_bounds m e -> representable (Zpos m * 2 ^ (e + bias)).
Proof.
  intro F. destruct (finite_bounds_range m e F) as (He & Hm & _).
  assert (P : 0 < 2 ^ (e + bias)) by (apply pow2_pos; unfold bias; lia).
  exists (e + bias). split; [ unfold sub_exp, bias in *; lia | split ].
  - exists (Zpos m). reflexivity.
  - rewrite Z.abs_eq by (apply Z.mul_nonneg_nonneg; lia).
    rewrite (Z.pow_add_r 2 (e + bias) 53) by (unfold bias in *; lia).
    rewrite (Z.mul_comm (2 ^ (e + bias))).
    apply Z.mul_lt_mono_pos_r; [ exact P | lia ].
Qed.

Lemma finite_bounds_below_overflow (m : positive) (e : Z) :
  finite_bounds m e -> Zpos m * 2 ^ (e + bias) < 2 ^ (1024 + bias).
Proof.
  intro F. destruct (finite_bounds_range m e F) as (He & Hm & _).
  assert (P : 0 < 2 ^ (e + bias)) by (apply pow2_pos; unfold bias; lia).
  apply Z.lt_le_trans with (2 ^ 53 * 2 ^ (e + bias));
    [ apply Z.mul_lt_mono_pos_r; [ exact P | lia ] | ].
  rewrite <- Z.pow_add_r by (unfold bias in *; lia).
  apply Z.pow_le_mono_r; unfold bias in *; lia.
Qed.

Lemma SFofZ_canonical (s : bool) (m : positive) (e : Z) :
  finite_bounds m e -> SFofZ s (Zpos m * 2 ^ (e + bias)) = S754_finite s m e.
Proof.
  intros [C B].
  assert (He : -1074 <= e) by (rewrite <- C; apply round_exp_ge).
  assert (P : 0 < 2 ^ (e + bias)) by (apply pow2_pos; unfold bias; lia).
  assert (PN : 0 < Zpos m * 2 ^ (e + bias)) by lia.
  destruct (Zpos m * 2 ^ (e + bias)) as [ | p | p ] eqn:EN; try lia.
  unfold SFofZ. rewrite <- EN.
  rewrite round_exp_scaled by (unfold bias in *; lia). rewrite C.
  replace (e + bias - bias) with e by lia.
  apply Z.leb_le in B. rewrite B. rewrite Z.div_mul by lia. reflexivity.
Qed.

(** What [SFround] gives below the overflow threshold: a valid number
    whose value is the rounded one. *)
Lemma SFround_value (N : Z) :
  Z.abs (RNz N) < 2 ^ (1024 + bias) ->
  valid_binary (SFround N) = true /\ is_number (SFround N) = true /\
  SFN (SFround N) = RNz N.
Proof.
  intro H.
  assert (G : forall s p, RNpos (Zpos p) < 2 ^ (1024 + bias) ->
              valid_binary (SFofZ s (RNpos (Zpos p))) = true /\
              is_number (SFofZ s (RNpos (Zpos p))) = true /\
              SFN (SFofZ s (RNpos (Zpos p))) = cond_Zopp s (RNpos (Zpos p))).
  { intros s p Hlt.
    pose proof (RNpos_nonneg (Zpos p) ltac:(lia)) as NN.
    destruct (Z.eq_dec (RNpos (Zpos p)) 0) as [E0 | NE0].
    - rewrite E0. cbn. destruct s; repeat split.
    - destruct (SFofZ_finite s (RNpos (Zpos p)) ltac:(lia)
                  (RNpos_representable (Zpos p) ltac:(lia)) Hlt) as (m & e & E & F & V).
      rewrite E. cbn [valid_binary is_number SFN]. rewrite V.
      split; [ apply bounded_iff; exact F | split; reflexivity ]. }
  destruct N as [ | p | p ]; cbn [SFround RNz] in *.
  - repeat split.
  - rewrite Z.abs_eq in H by (apply RNpos_nonneg; lia).
    exact (G false p H).
  - rewrite Z.abs_opp, Z.abs_eq in H by (apply RNpos_nonneg; lia).
    exact (G true p H).
Qed.

Lemma SFround_sign (N : Z) :
  0 <= N ->
  match SFround N with
  | S754_zero s | S754_infinity s | S754_finite s _ _ => s = false
  | S754_nan => False
  end.
Proof.
  intro H. destruct N as [ | p | p ]; try lia; cbn [SFround]; [ reflexivity | ].
  unfold SFofZ. destruct (RNpos (Zpos p)); try reflexivity.
  destruct (_ <=? _); reflexivity.
Qed.

Lemma compare_cont_spec (m1 m2 : positive) :
  Pos.compare_cont Eq m1 m2 = (Zpos m1 ?= Zpos m2).
Proof. reflexivity. Qed.

Lemma order_step (m m' T X Y : Z) :
  0 < m < 2 * T -> T <= m' -> 0 < X -> 1 <= Y -> m * X < m' * (Y * (2 * X)).
Proof.
  intros Hm Hm' HX HY.
  assert (S1 : m * X < (2 * T) * X) by (apply Z.mul_lt_mono_pos_r; lia).
  assert (S2 : T * X <= m' * X) by (apply Z.mul_le_mono_nonneg_r; lia).
  assert (S3 : (m' * X) * 1 <= (m' * X) * Y)
    by (apply Z.mul_le_mono_nonneg_l; [ apply Z.mul_nonneg_nonneg | ]; lia).
  lia.
Qed.

Lemma finite_compare (m1 : positive) (e1 : Z) (m2 : positive) (e2 : Z) :
  finite_bounds m1 e1 -> finite_bounds m2 e2 ->
  match e1 ?= e2 with
  | Lt => Lt
  | Gt => Gt
  | Eq => Pos.compare_cont Eq m1 m2
  end = (Zpos m1 * 2 ^ (e1 + bias) ?= Zpos m2 * 2 ^ (e2 + bias)).
Proof.
  intros F1 F2.
  destruct (finite_bounds_range _ _ F1) as (He1 & Hm1 & Hn1).
  destruct (finite_bounds_range _ _ F2) as (He2 & Hm2 & Hn2).
  assert (P1 : 0 < 2 ^ (e1 + bias)) by (apply pow2_pos; unfold bias; lia).
  assert (P2 : 0 < 2 ^ (e2 + bias)) by (apply pow2_pos; unfold bias; lia).
  assert (Low : forall m e m' e',
             -1074 <= e -> e < e' -> Zpos m < 2 ^ 53 -> 2 ^ 52 <= Zpos m' ->
             Zpos m * 2 ^ (e + bias) < Zpos m' * 2 ^ (e' + bias)).
  { intros m e m' e' A B C D.
    assert (Q : 0 < 2 ^ (e + bias)) by (apply pow2_pos; unfold bias; lia).
    assert (S : 2 ^ (e' + bias) = 2 ^ (e' - e - 1) * (2 * 2 ^ (e + bias))).
    { replace (2 * 2 ^ (e + bias)) with (2 ^ (e + bias + 1))
        by (rewrite Z.pow_add_r by (unfold bias in *; lia); lia).
      rewrite <- Z.pow_add_r by (unfold bias in *; lia). f_equal. lia. }
    assert (Q' : 1 <= 2 ^ (e' - e - 1)) by (pose proof (pow2_pos (e' - e - 1)); lia).
    rewrite S. change (2 ^ 53) with (2 * 2 ^ 52) in C.
    apply order_step with (T := 2 ^ 52); lia. }
  destruct (Z.compare_spec e1 e2) as [E | L | G].
  - subst e2. rewrite compare_cont_spec.
    destruct (Z.compare_spec (Zpos m1) (Zpos m2)) as [E | L | G]; symmetry.
    + apply Z.compare_eq_iff. congruence.
    + apply Z.compare_lt_iff. nia.
    + apply Z.compare_gt_iff. nia.
  - symmetry. apply Z.compare_lt_iff. apply Low; lia.
  - symmetry. apply Z.compare_gt_iff. apply Low; lia.
Qed.

(** On valid numbers and infinities [SFcompare] is the order of the
    ranks. *)
Lemma SFcompare_rank (x y : spec_float) :
  valid_binary x = true -> valid_binary y = true ->
  not_nan x = true -> not_nan y = true ->
  SFcompare x y = Some (SFrank x ?= SFrank y).
Proof.
  intros Vx Vy Nx Ny.
  assert (P : 0 < 2 ^ (1024 + bias)) by (apply pow2_pos; unfold bias; lia).
  assert (Pos : forall m e, finite_bounds m e ->
            0 < Zpos m * 2 ^ (e + bias) < 2 ^ (1024 + bias)).
  { intros m e F. pose proof (finite_bounds_below_overflow m e F).
    destruct (finite_bounds_range _ _ F) as (He & _).
    assert (0 < 2 ^ (e + bias)) by (apply pow2_pos; unfold bias; lia). lia. }
  assert (Fin : forall sx mx ex sy my ey,
            finite_bounds mx ex -> finite_bounds my ey ->
            SFcompare (S754_finite sx mx ex) (S754_finite sy my ey)
            = Some (SFN (S754_finite sx mx ex) ?= SFN (S754_finite sy my ey))).
  { intros sx mx ex sy my ey Fx Fy.
    pose proof (Pos _ _ Fx) as Bx. pose proof (Pos _ _ Fy) as By.
    pose proof (finite_compare mx ex my ey Fx Fy) as C.
    cbn [SFcompare SFN]. f_equal.
    destruct sx, sy; cbn [cond_Zopp].
    - rewrite Z.compare_opp, (Z.compare_antisym (Zpos mx * 2 ^ (ex + bias))), <- C.
      destruct (ex ?= ey); reflexivity.
    - symmetry. apply Z.compare_lt_iff. lia.
    - symmetry. apply Z.compare_gt_iff. lia.
    - exact C. }
  destruct x as [ sx | sx | | sx mx ex ], y as [ sy | sy | | sy my ey ];
    try discriminate;
    try (apply bounded_iff in Vx); try (apply bounded_iff in Vy);
    try (apply Fin; assumption);
    cbn [SFcompare SFrank SFN];
    try (pose proof (Pos _ _ Vx) as Bx); try (pose proof (Pos _ _ Vy) as By);
    try destruct sx; try destruct sy; cbn [cond_Zopp]; f_equal; symmetry;
    first [ apply Z.compare_eq_iff; lia | apply Z.compare_lt_iff; lia
          | apply Z.compare_gt_iff; lia ].
Qed.

Lemma SFmul_finite (sx : bool) (mx : positive) (ex : Z) (sy : bool) (my : positive) (ey : Z) :
  finite_bounds mx ex -> finite_bounds my ey ->
  SFmul prec emax (S754_finite sx mx ex) (S754_finite sy my ey)
  = SFofZ (xorb sx sy) (RNpos (Zpos mx * Zpos my * 2 ^ (ex + ey + bias))).
Proof.
  intros Fx Fy. cbn [SFmul].
  destruct (finite_bounds_range _ _ Fx) as (Hex & Hmx & Hnx).
  destruct (finite_bounds_range _ _ Fy) as (Hey & Hmy & Hny).
  rewrite Pos2Z.inj_mul.
  change (Zpos mx * Zpos my) with (Zpos (mx * my)).
  apply binary_round_aux_spec; [ unfold bias; lia | ].
  unfold round_exp. rewrite Pos2Z.inj_mul.
  destruct (Z.eq_dec ex (-1074)) as [E1 | N1];
    destruct (Z.eq_dec ey (-1074)) as [E2 | N2]; [ lia | | | ].
  - assert (52 <= Z.log2 (Zpos my)) by (apply Z.log2_le_pow2; lia).
    assert (Z.log2 (Zpos my) <= Z.log2 (Zpos mx * Zpos my))
      by (apply Z.log2_le_mono; nia).
    lia.
  - assert (52 <= Z.log2 (Zpos mx)) by (apply Z.log2_le_pow2; lia).
    assert (Z.log2 (Zpos mx) <= Z.log2 (Zpos mx * Zpos my))
      by (apply Z.log2_le_mono; nia).
    lia.
  - assert (52 <= Z.log2 (Zpos mx)) by (apply Z.log2_le_pow2; lia).
    assert (Z.log2 (Zpos mx) <= Z.log2 (Zpos mx * Zpos my))
      by (apply Z.log2_le_mono; nia).
    lia.
Qed.

Lemma SFofZ_sign (s : bool) (N : Z) :
  match SFofZ s N with
  | S754_zero s' | S754_infinity s' | S754_finite s' _ _ => s' = s
  | S754_nan => False
  end.
Proof.
  unfold SFofZ. destruct N; try reflexivity. destruct (_ <=? _); reflexivity.
Qed.

(** Subtraction and addition of two numbers that are not both zero. *)
Lemma SFround_of_valid (x : spec_float) :
  valid_binary x = true -> is_number x = true -> SFN x <> 0 -> SFround (SFN x) = x.
Proof.
  intros V Nb NZ. destruct x as [ s | s | | s m e ]; try discriminate.
  - cbn in NZ. lia.
  - cbn [valid_binary] in V. apply bounded_iff in V.
    destruct (finite_bounds_range _ _ V) as (He & _).
    assert (P : 0 < 2 ^ (e + bias)) by (apply pow2_pos; unfold bias; lia).
    assert (PN : 0 < Zpos m * 2 ^ (e + bias)) by lia.
    pose proof (finite_bounds_representable m e V) as R.
    cbn [SFN]. destruct s; cbn [cond_Zopp].
    + destruct (Zpos m * 2 ^ (e + bias)) as [ | p | p ] eqn:EN; try lia.
      cbn [Z.opp SFround]. rewrite <- EN.
      rewrite RNpos_exact by (try lia; rewrite EN; exact R).
      apply SFofZ_canonical. exact V.
    + destruct (Zpos m * 2 ^ (e + bias)) as [ | p | p ] eqn:EN; try lia.
      cbn [SFround]. rewrite <- EN.
      rewrite RNpos_exact by (try lia; rewrite EN; exact R).
      apply SFofZ_canonical. exact V.
Qed.

Lemma valid_finite_range (x : spec_float) :
  valid_binary x = true -> is_number x = true -> -1074 <= match x with S754_finite _ _ e => e | _ => 0 end.
Proof.
  intros V Nb. destruct x as [ s | s | | s m e ]; try discriminate Nb; [ lia | ].
  cbn [valid_binary] in V. apply bounded_iff in V.
  destruct (finite_bounds_range _ _ V) as (He & _). lia.
Qed.

Lemma SFsub_number (x y : spec_float) :
  valid_binary x = true -> valid_binary y = true ->
  is_number x = true -> is_number y = true ->
  SFN x <> 0 \/ SFN y <> 0 ->
  SFsub prec emax x y = SFround (SFN x - SFN y).
Proof.
  intros Vx Vy Nx Ny NZ.
  pose proof (valid_finite_range x Vx Nx) as Ex.
  pose proof (valid_finite_range y Vy Ny) as Ey.
  destruct x as [ sx | sx | | sx mx ex ], y as [ sy | sy | | sy my ey ];
    try discriminate.
  - cbn in NZ. lia.
  - replace (SFN (S754_zero sx) - SFN (S754_finite sy my ey))
      with (SFN (S754_finite (negb sy) my ey))
      by (cbn [SFN]; destruct sy; cbn [negb cond_Zopp]; lia).
    rewrite SFround_of_valid; try reflexivity; try exact Vy.
    cbn [SFN] in *. destruct sy; cbn [negb cond_Zopp] in *; lia.
  - replace (SFN (S754_finite sx mx ex) - SFN (S754_zero sy))
      with (SFN (S754_finite sx mx ex)) by (cbn [SFN]; lia).
    rewrite SFround_of_valid; try reflexivity; try exact Vx.
    cbn [SFN] in *. destruct NZ; [ assumption | lia ].
  - apply SFsub_finite; assumption.
Qed.

Lemma SFadd_number (x y : spec_float) :
  valid_binary x = true -> valid_binary y = true ->
  is_number x = true -> is_number y = true ->
  SFN x <> 0 \/ SFN y <> 0 ->
  SFadd prec emax x y = SFround (SFN x + SFN y).
Proof.
  intros Vx Vy Nx Ny NZ.
  pose proof (valid_finite_range x Vx Nx) as Ex.
  pose proof (valid_finite_range y Vy Ny) as Ey.
  destruct x as [ sx | sx | | sx mx ex ], y as [ sy | sy | | sy my ey ];
    try discriminate.
  - cbn in NZ. lia.
  - replace (SFN (S754_zero sx) + SFN (S754_finite sy my ey))
      with (SFN (S754_finite sy my ey)) by (cbn [SFN]; lia).
    rewrite SFround_of_valid; try reflexivity; try exact Vy.
    cbn [SFN] in *. destruct NZ; [ lia | assumption ].
  - replace (SFN (S754_finite sx mx ex) + SFN (S754_zero sy))
      with (SFN (S754_finite sx mx ex)) by (cbn [SFN]; lia).
    rewrite SFround_of_valid; try reflexivity; try exact Vx.
    cbn [SFN] in *. destruct NZ; [ assumption | lia ].
  - apply SFadd_finite; assumption.
Qed.

(** *** Primitive floats, through their specification *)

Lemma SFcompare_floats (x y : float) :
  not_nan (Prim2SF x) = true -> not_nan (Prim2SF y) = true ->
  SFcompare (Prim2SF x) (Prim2SF y) = Some (frank x ?= frank y).
Proof.
  intros Hx Hy. apply SFcompare_rank; try assumption; apply Prim2SF_valid.
Qed.

Lemma SFcompare_nan_l (x y : spec_float) : not_nan x = false -> SFcompare x y = None.
Proof. destruct x; try discriminate. reflexivity. Qed.

Lemma SFcompare_nan_r (x y : spec_float) : not_nan y = false -> SFcompare x y = None.
Proof. destruct y; try discriminate. destruct x; reflexivity. Qed.

Lemma ltb_rank (x y : float) :
  PrimFloat.ltb x y = true <->
  not_nan (Prim2SF x) = true /\ not_nan (Prim2SF y) = true /\ frank x < frank y.
Proof.
  rewrite ltb_spec. unfold SFltb.
  destruct (not_nan (Prim2SF x)) eqn:Hx; [ | rewrite SFcompare_nan_l by exact Hx; intuition discriminate ].
  destruct (not_nan (Prim2SF y)) eqn:Hy; [ | rewrite SFcompare_nan_r by exact Hy; intuition discriminate ].
  rewrite SFcompare_floats by assumption.
  destruct (Z.compare_spec (frank x) (frank y)); intuition (try discriminate; try lia).
Qed.

Lemma leb_rank (x y : float) :
  PrimFloat.leb x y = true <->
  not_nan (Prim2SF x) = true /\ not_nan (Prim2SF y) = true /\ frank x <= frank y.
Proof.
  rewrite leb_spec. unfold SFleb.
  destruct (not_nan (Prim2SF x)) eqn:Hx; [ | rewrite SFcompare_nan_l by exact Hx; intuition discriminate ].
  destruct (not_nan (Prim2SF y)) eqn:Hy; [ | rewrite SFcompare_nan_r by exact Hy; intuition discriminate ].
  rewrite SFcompare_floats by assumption.
  destruct (Z.compare_spec (frank x) (frank y)); intuition (try discriminate; try lia).
Qed.

Lemma ltb_false_rank (x y : float) :
  not_nan (Prim2SF x) = true -> not_nan (Prim2SF y) = true ->
  (PrimFloat.ltb x y = false <-> frank y <= frank x).
Proof.
  intros Hx Hy. pose proof (ltb_rank x y) as L.
  destruct (PrimFloat.ltb x y).
  - split; [ discriminate | ]. intro. destruct L as [L _]. specialize (L eq_refl). lia.
  - split; [ | reflexivity ]. intros _.
    destruct (Z.le_gt_cases (frank y) (frank x)); [ assumption | ].
    destruct L as [_ L]. discriminate L. auto.
Qed.

Lemma is_nan_false (x : float) : not_nan (Prim2SF x) = true -> PrimFloat.is_nan x = false.
Proof.
  intro H. unfold PrimFloat.is_nan. rewrite eqb_spec. unfold SFeqb.
  rewrite SFcompare_floats by assumption. rewrite Z.compare_refl. reflexivity.
Qed.

Lemma of_float_number (x : float) : not_nan (Prim2SF x) = true -> of_float x = Num x.
Proof. intro H. unfold of_float. rewrite is_nan_false by exact H. reflexivity. Qed.

Lemma plus_sign_not_nan (x : spec_float) : plus_sign x -> not_nan x = true.
Proof. destruct x; cbn; intro H; try reflexivity. destruct H. Qed.

Lemma add_zero_l (p : float) : plus_sign (Prim2SF p) -> (0 + p)%float = p.
Proof.
  intro H. apply Prim2SF_inj. rewrite add_spec.
  change (Prim2SF 0%float) with (S754_zero false).
  destruct (Prim2SF p) as [ s | s | | s m e ]; cbn in H |- *; subst; reflexivity.
Qed.

Lemma add_zero_r (p : float) : plus_sign (Prim2SF p) -> (p + 0)%float = p.
Proof.
  intro H. apply Prim2SF_inj. rewrite add_spec.
  change (Prim2SF 0%float) with (S754_zero false).
  destruct (Prim2SF p) as [ s | s | | s m e ]; cbn in H |- *; subst; reflexivity.
Qed.

Lemma number_rank (x : spec_float) : is_number x = true -> SFrank x = SFN x.
Proof. destruct x; try discriminate; reflexivity. Qed.

Lemma number_not_nan (x : spec_float) : is_number x = true -> not_nan x = true.
Proof. destruct x; try discriminate; reflexivity. Qed.

Lemma fval_bound (x : float) : Z.abs (fval x) < 2 ^ (1024 + bias).
Proof.
  unfold fval. pose proof (Prim2SF_valid x) as V.
  assert (P : 0 < 2 ^ (1024 + bias)) by (apply pow2_pos; unfold bias; lia).
  destruct (Prim2SF x) as [ s | s | | s m e ]; cbn [SFN]; try (rewrite Z.abs_0; exact P).
  cbn [valid_binary] in V. apply bounded_iff in V.
  pose proof (finite_bounds_below_overflow m e V).
  destruct (finite_bounds_range _ _ V) as (He & _).
  assert (0 < 2 ^ (e + bias)) by (apply pow2_pos; unfold bias; lia).
  destruct s; cbn [cond_Zopp]; lia.
Qed.

Lemma fval_representable (x : float) : representable (fval x).
Proof.
  unfold fval. pose proof (Prim2SF_valid x) as V.
  destruct (Prim2SF x) as [ s | s | | s m e ]; cbn [SFN]; try apply representable_zero.
  cbn [valid_binary] in V. apply bounded_iff in V.
  pose proof (finite_bounds_representable m e V) as R.
  destruct s; cbn [cond_Zopp]; [ apply representable_opp | ]; exact R.
Qed.

Lemma fval_multiple (x : float) : (2 ^ sub_exp | fval x).
Proof.
  unfold fval. pose proof (Prim2SF_valid x) as V.
  destruct (Prim2SF x) as [ s | s | | s m e ]; cbn [SFN]; try apply Z.divide_0_r.
  cbn [valid_binary] in V. apply bounded_iff in V.
  destruct (finite_bounds_range _ _ V) as (He & _).
  assert (D : (2 ^ sub_exp | Zpos m * 2 ^ (e + bias))).
  { exists (Zpos m * 2 ^ (e + bias - sub_exp)).
    rewrite <- Z.mul_assoc, <- Z.pow_add_r by (unfold bias, sub_exp; lia).
    f_equal. f_equal. lia. }
  destruct s; cbn [cond_Zopp]; [ apply Z.divide_opp_r | ]; exact D.
Qed.

(** The difference of two numbers, below the overflow threshold. *)
Lemma sub_value (x y : float) :
  is_number (Prim2SF x) = true -> is_number (Prim2SF y) = true ->
  fval x <> 0 \/ fval y <> 0 ->
  Z.abs (RNz (fval x - fval y)) < 2 ^ (1024 + bias) ->
  is_number (Prim2SF (x - y)) = true /\ fval (x - y) = RNz (fval x - fval y) /\
  (0 <= fval x - fval y -> plus_sign (Prim2SF (x - y))).
Proof.
  intros Nx Ny NZ Hlt. unfold fval in *. rewrite sub_spec.
  unfold SF64sub.
  rewrite SFsub_number by (try apply Prim2SF_valid; assumption).
  destruct (SFround_value _ Hlt) as (V & N & E).
  split; [ exact N | split; [ exact E | ] ].
  intro H. pose proof (SFround_sign _ H) as S.
  destruct (SFround _); exact S.
Qed.

Lemma sub_self (t : float) :
  is_number (Prim2SF t) = true -> fval t <> 0 -> (t - t)%float = 0%float.
Proof.
  intros N NZ. apply Prim2SF_inj. rewrite sub_spec. unfold SF64sub.
  rewrite SFsub_number by (try apply Prim2SF_valid; try assumption; left; exact NZ).
  fold (fval t). rewrite Z.sub_diag. reflexivity.
Qed.

Lemma mul_plus_sign (x y : float) :
  plus_sign (Prim2SF x) -> plus_sign (Prim2SF y) -> 
  is_number (Prim2SF x) = true -> is_number (Prim2SF y) = true ->
  plus_sign (Prim2SF (x * y)).
Proof.
  intros Px Py Nx Ny. rewrite mul_spec. unfold SF64mul.
  pose proof (Prim2SF_valid x) as Vx. pose proof (Prim2SF_valid y) as Vy.
  destruct (Prim2SF x) as [ sx | sx | | sx mx ex ], (Prim2SF y) as [ sy | sy | | sy my ey ];
    try discriminate; cbn in Px, Py; subst; try reflexivity.
  cbn [valid_binary] in Vx, Vy. apply bounded_iff in Vx, Vy.
  rewrite SFmul_finite by assumption.
  pose proof (SFofZ_sign (xorb false false)
                (RNpos (Zpos mx * Zpos my * 2 ^ (ex + ey + bias)))) as S.
  destruct (SFofZ _ _); exact S.
Qed.

Lemma number_of_rank (x : float) :
  not_nan (Prim2SF x) = true -> - 2 ^ (1024 + bias) < frank x < 2 ^ (1024 + bias) ->
  is_number (Prim2SF x) = true.
Proof.
  unfold frank. intros H R. destruct (Prim2SF x) as [ s | s | | s m e ]; try reflexivity; try discriminate H.
  cbn [SFrank] in R. destruct s; cbn [cond_Zopp] in R; lia.
Qed.

Lemma positive_number (x : float) :
  is_number (Prim2SF x) = true -> 0 < fval x ->
  plus_sign (Prim2SF x) /\ exists m e, Prim2SF x = S754_finite false m e /\ finite_bounds m e.
Proof.
  unfold fval. intros N P. pose proof (Prim2SF_valid x) as V.
  destruct (Prim2SF x) as [ s | s | | s m e ]; try discriminate N; cbn [SFN] in P; [ lia | ].
  cbn [valid_binary] in V. apply bounded_iff in V.
  destruct (finite_bounds_range _ _ V) as (He & _).
  assert (0 < 2 ^ (e + bias)) by (apply pow2_pos; unfold bias; lia).
  destruct s; cbn [cond_Zopp] in P; [ lia | ].
  split; [ reflexivity | ]. exists m, e. split; [ reflexivity | exact V ].
Qed.

Lemma zero_of_fval (x : float) :
  is_number (Prim2SF x) = true -> plus_sign (Prim2SF x) -> fval x = 0 -> x = 0%float.
Proof.
  unfold fval. intros N S Z. pose proof (Prim2SF_valid x) as V.
  apply Prim2SF_inj. change (Prim2SF 0%float) with (S754_zero false).
  destruct (Prim2SF x) as [ s | s | | s m e ]; try discriminate N; cbn in S; subst.
  - reflexivity.
  - cbn [valid_binary] in V. apply bounded_iff in V.
    destruct (finite_bounds_range _ _ V) as (He & _).
    assert (0 < 2 ^ (e + bias)) by (apply pow2_pos; unfold bias; lia).
    cbn [SFN cond_Zopp] in Z. lia.
Qed.

(** Two positive numbers of the same value are the same number. *)
Lemma fval_inj_pos (x y : float) :
  is_number (Prim2SF x) = true -> is_number (Prim2SF y) = true ->
  0 < fval x -> fval x = fval y -> x = y.
Proof.
  intros Nx Ny P E. apply Prim2SF_inj.
  destruct (positive_number x Nx P) as (_ & mx & ex & Bx & Fx).
  destruct (positive_number y Ny ltac:(lia)) as (_ & my & ey & By & Fy).
  unfold fval in E. rewrite Bx, By in E |- *. cbn [SFN cond_Zopp] in E.
  rewrite <- (SFofZ_canonical false mx ex Fx), <- (SFofZ_canonical false my ey Fy), E.
  reflexivity.
Qed.

Lemma unit_value_pos : 0 < unit_value.
Proof. apply pow2_pos. unfold bias. lia. Qed.

Lemma fval_integer (x : float) (m : positive) (e k : Z) :
  Prim2SF x = S754_finite false m e -> e <= 0 -> - e <= bias -> Zpos m = k * 2 ^ (- e) ->
  fval x = k * unit_value.
Proof.
  intros Bx He Hb Hm. unfold fval, unit_value. rewrite Bx. cbn [SFN cond_Zopp].
  rewrite Hm, <- Z.mul_assoc, <- Z.pow_add_r by lia. f_equal. f_equal. lia.
Qed.

Lemma fval_12570 : fval 12570 = 12570 * unit_value.
Proof. apply fval_integer with (m := 6910430580572160%positive) (e := -39); try reflexivity; unfold bias; lia. Qed.

Lemma fval_37700 : fval 37700 = 37700 * unit_value.
Proof. apply fval_integer with (m := 5181448545894400%positive) (e := -37); try reflexivity; unfold bias; lia. Qed.

Lemma fval_50270 : fval 50270 = 50270 * unit_value.
Proof. apply fval_integer with (m := 6909056191037440%positive) (e := -37); try reflexivity; unfold bias; lia. Qed.

Lemma overflow_pos : 0 < 2 ^ (1024 + bias).
Proof. apply pow2_pos. unfold bias. lia. Qed.

Lemma constant_below_overflow (c : float) (k : Z) :
  fval c = k * unit_value -> Z.abs (k * unit_value) < 2 ^ (1024 + bias).
Proof. intro E. rewrite <- E. apply fval_bound. Qed.

Lemma RNz_fval (x : float) : RNz (fval x) = fval x.
Proof. apply RNz_exact, fval_representable. Qed.

Lemma RNz_positive (D : Z) : 0 < D -> (2 ^ sub_exp | D) -> 0 < RNz D.
Proof.
  intros P Dv.
  assert (Q : 0 < 2 ^ sub_exp) by (apply pow2_pos; unfold sub_exp; lia).
  assert (L : 2 ^ sub_exp <= D) by (apply Z.divide_pos_le; assumption).
  pose proof (RNz_mono _ _ L) as M.
  rewrite (RNz_exact (2 ^ sub_exp)) in M; [ lia | ].
  exists sub_exp. split; [ lia | split; [ apply Z.divide_refl | ] ].
  rewrite Z.abs_eq by lia. apply Z.pow_lt_mono_r; unfold sub_exp; lia.
Qed.

Lemma frank_zero : frank 0 = 0.
Proof. reflexivity. Qed.

Lemma not_nan_zero : not_nan (Prim2SF 0%float) = true.
Proof. reflexivity. Qed.

(** A number between two constants of the program. *)
Lemma number_between (x lo hi : float) :
  is_number (Prim2SF lo) = true -> is_number (Prim2SF hi) = true ->
  PrimFloat.ltb lo x = true -> PrimFloat.leb x hi = true ->
  is_number (Prim2SF x) = true /\ fval lo < fval x <= fval hi.
Proof.
  intros Nlo Nhi H1 H2.
  apply ltb_rank in H1. destruct H1 as (_ & Nx & L).
  apply leb_rank in H2. destruct H2 as (_ & _ & U).
  unfold frank in L, U. rewrite (number_rank _ Nlo) in L. rewrite (number_rank _ Nhi) in U.
  pose proof (fval_bound lo) as Blo. pose proof (fval_bound hi) as Bhi.
  fold (fval lo) in L. fold (fval hi) in U.
  assert (N : is_number (Prim2SF x) = true).
  { apply (number_of_rank x Nx). unfold frank. lia. }
  split; [ exact N | ]. unfold fval at 2 3. rewrite <- (number_rank _ N). lia.
Qed.

Lemma leb_false_of_ltb (c x : float) :
  PrimFloat.ltb c x = true -> PrimFloat.leb x c = false.
Proof.
  intro H. apply ltb_rank in H. destruct H as (Nc & Nx & L).
  destruct (PrimFloat.leb x c) eqn:E; [ | reflexivity ].
  apply leb_rank in E. lia.
Qed.

Section Bands.

Variable x : float.

Local Abbreviation t := (taxable_of x).

Lemma taxable_value :
  is_number (Prim2SF x) = true -> 12570 * unit_value < fval x ->
  is_number (Prim2SF t) = true /\ plus_sign (Prim2SF t) /\
  fval t = RNz (fval x - 12570 * unit_value) /\ 0 < fval t <= fval x.
Proof.
  intros N L.
  pose proof (fval_bound x) as Bx.
  pose proof unit_value_pos as PU.
  assert (M0 : 0 < RNz (fval x - 12570 * unit_value)).
  { apply RNz_positive; [ lia | ].
    apply Z.divide_sub_r; [ apply fval_multiple | ].
    rewrite <- fval_12570. apply fval_multiple. }
  assert (M1 : RNz (fval x - 12570 * unit_value) <= fval x).
  { rewrite <- (RNz_fval x) at 2. apply RNz_mono. lia. }
  destruct (sub_value x 12570 N eq_refl) as (Nt & Vt & St).
  - left. lia.
  - rewrite fval_12570. lia.
  - rewrite fval_12570 in Vt, St. fold t in Nt, Vt, St.
    split; [ exact Nt | split; [ apply St; lia | split; [ exact Vt | lia ] ] ].
Qed.

Lemma band_basic :
  PrimFloat.ltb 12570 x = true -> PrimFloat.leb x 50270 = true ->
  estimateTaxYearly (Num x) = dmul (dsub (Num x) (Num 12570)) (Num 0.2).
Proof.
  intros H1 H2.
  destruct (number_between x 12570 50270 eq_refl eq_refl H1 H2) as [N [L U]].
  rewrite fval_12570 in L. rewrite fval_50270 in U.
  destruct (taxable_value N L) as (Nt & St & Vt & Pt & _).
  pose proof unit_value_pos as PU.
  assert (T37 : fval t <= 37700 * unit_value).
  { rewrite Vt, <- fval_37700, <- (RNz_fval 37700), fval_37700. apply RNz_mono. lia. }
  assert (L37 : PrimFloat.ltb 37700 t = false).
  { apply ltb_false_rank; [ reflexivity | apply number_not_nan; exact Nt | ].
    unfold frank. rewrite (number_rank _ Nt), (number_rank (Prim2SF 37700%float) eq_refl).
    fold (fval t) (fval 37700). rewrite fval_37700. exact T37. }
  assert (L0 : PrimFloat.ltb 0 t = true).
  { apply ltb_rank. split; [ reflexivity | split; [ apply number_not_nan; exact Nt | ] ].
    unfold frank at 2. rewrite (number_rank _ Nt). exact Pt. }
  assert (Sp : plus_sign (Prim2SF (t * 0.2)%float)).
  { apply mul_plus_sign; try assumption; reflexivity. }
  unfold estimateTaxYearly. cbn [dle]. rewrite (leb_false_of_ltb _ _ H1).
  change (dsub (Num x) (Num 12570)) with (of_float t).
  rewrite (of_float_number t) by (apply number_not_nan; exact Nt).
  replace (dsub (Num 50270) (Num 12570)) with (Num 37700) by reflexivity.
  unfold dmin, dmax. cbn [dlt]. rewrite L37, L0.
  change (dmul (Num t) (Num 0.2)) with (of_float (t * 0.2)).
  rewrite (of_float_number (t * 0.2)) by (apply plus_sign_not_nan; exact Sp).
  change (dsub (Num t) (Num t)) with (of_float (t - t)).
  rewrite (sub_self t Nt) by lia.
  replace (of_float 0) with (Num 0) by reflexivity. cbn [dlt].
  replace (PrimFloat.ltb 0 0) with false by reflexivity.
  replace (dmul (Num 0) (Num 0.4)) with (Num 0) by reflexivity.
  change (dadd (Num 0) (Num (t * 0.2))) with (of_float (0 + t * 0.2)).
  rewrite (add_zero_l _ Sp).
  rewrite (of_float_number (t * 0.2)) by (apply plus_sign_not_nan; exact Sp).
  change (dadd (Num (t * 0.2)) (Num 0)) with (of_float (t * 0.2 + 0)).
  rewrite (add_zero_r _ Sp).
  apply of_float_number, plus_sign_not_nan. exact Sp.
Qed.

Local Abbreviation u := (above_basic_of x).

Lemma infinity_of_rank :
  not_nan (Prim2SF x) = true -> is_number (Prim2SF x) = false -> 0 < frank x -> x = infinity.
Proof.
  intros Nn N P. apply Prim2SF_inj. change (Prim2SF infinity) with (S754_infinity false).
  unfold frank in P.
  destruct (Prim2SF x) as [ s | s | | s m e ]; try discriminate.
  pose proof overflow_pos. cbn [SFrank] in P. destruct s; cbn [cond_Zopp] in P; [ lia | reflexivity ].
Qed.

Lemma above_basic_value :
  is_number (Prim2SF x) = true -> 50270 * unit_value < fval x ->
  is_number (Prim2SF t) = true /\ plus_sign (Prim2SF t) /\
  fval t = RNz (fval x - 12570 * unit_value) /\
  37700 * unit_value <= fval t /\
  is_number (Prim2SF u) = true /\ plus_sign (Prim2SF u) /\
  fval u = RNz (fval t - 37700 * unit_value) /\ 0 <= fval u.
Proof.
  intros N L. pose proof unit_value_pos as PU.
  destruct (taxable_value N ltac:(lia)) as (Nt & St & Vt & Pt & Ut).
  assert (T37 : 37700 * unit_value <= fval t).
  { rewrite Vt, <- fval_37700, <- (RNz_fval 37700), fval_37700. apply RNz_mono. lia. }
  pose proof (fval_bound x) as Bx.
  assert (M1 : RNz (fval t - 37700 * unit_value) <= fval t).
  { rewrite <- (RNz_fval t) at 2. apply RNz_mono. lia. }
  assert (M0 : 0 <= RNz (fval t - 37700 * unit_value)) by (apply RNz_nonneg; lia).
  destruct (sub_value t 37700 Nt eq_refl) as (Nu & Vu & Su).
  - left. lia.
  - rewrite fval_37700. lia.
  - rewrite fval_37700 in Vu, Su. fold u in Nu, Vu, Su.
    repeat split; try assumption; try lia. apply Su. lia.
Qed.

Lemma band_higher :
  PrimFloat.ltb 50270 x = true ->
  estimateTaxYearly (Num x)
  = dadd (Num 7540) (dmul (dsub (dsub (Num x) (Num 12570)) (Num 37700)) (Num 0.4)).
Proof.
  intro H. pose proof H as H'.
  apply ltb_rank in H'. destruct H' as (_ & Nn & L).
  change (frank 50270) with (fval 50270) in L. rewrite fval_50270 in L.
  pose proof unit_value_pos as PU.
  destruct (is_number (Prim2SF x)) eqn:N.
  2:{ rewrite (infinity_of_rank Nn N ltac:(lia)). reflexivity. }
  unfold frank in L. rewrite (number_rank _ N) in L. fold (fval x) in L.
  destruct (above_basic_value N L) as (Nt & St & Vt & T37 & Nu & Su & Vu & Pu).
  assert (Lc : PrimFloat.ltb 12570 x = true).
  { apply ltb_rank. split; [ reflexivity | split; [ exact Nn | ] ].
    change (frank 12570) with (fval 12570). rewrite fval_12570.
    unfold frank. rewrite (number_rank _ N). fold (fval x). lia. }
  assert (Min : dmin (Num t) (Num 37700) = Num 37700).
  { unfold dmin. cbn [dlt]. destruct (PrimFloat.ltb 37700 t) eqn:E; [ reflexivity | ].
    apply ltb_false_rank in E; [ | reflexivity | apply number_not_nan; exact Nt ].
    unfold frank in E. rewrite (number_rank _ Nt) in E.
    change (SFrank (Prim2SF 37700%float)) with (fval 37700) in E. rewrite fval_37700 in E.
    fold (fval t) in E.
    f_equal. apply fval_inj_pos; [ exact Nt | reflexivity | lia | ].
    rewrite fval_37700. lia. }
  assert (Max : dmax (Num 0) (Num u) = Num u).
  { unfold dmax. cbn [dlt]. destruct (PrimFloat.ltb 0 u) eqn:E; [ reflexivity | ].
    apply ltb_false_rank in E; [ | reflexivity | apply number_not_nan; exact Nu ].
    unfold frank in E. rewrite (number_rank _ Nu) in E. fold (fval u) in E.
    change (SFrank (Prim2SF 0%float)) with 0 in E.
    f_equal. symmetry. apply zero_of_fval; [ exact Nu | exact Su | lia ]. }
  unfold estimateTaxYearly. cbn [dle]. rewrite (leb_false_of_ltb _ _ Lc).
  change (dsub (Num x) (Num 12570)) with (of_float t).
  rewrite (of_float_number t) by (apply number_not_nan; exact Nt).
  replace (dsub (Num 50270) (Num 12570)) with (Num 37700) by reflexivity.
  rewrite Min.
  replace (dmax (Num 0) (Num 37700)) with (Num 37700) by reflexivity.
  replace (dadd (Num 0) (dmul (Num 37700) (Num 0.2))) with (Num 7540) by reflexivity.
  change (dsub (Num t) (Num 37700)) with (of_float u).
  rewrite (of_float_number u) by (apply number_not_nan; exact Nu).
  rewrite Max. reflexivity.
Qed.

Lemma fval_2p54 : fval 18014398509481984 = 2 ^ 54 * unit_value.
Proof.
  unfold fval, unit_value.
  change (Prim2SF 18014398509481984%float) with (S754_finite false 4503599627370496 2).
  cbn [SFN cond_Zopp]. rewrite (Z.pow_add_r 2 2 bias) by (unfold bias; lia).
  change (Zpos 4503599627370496) with (2 ^ 52). lia.
Qed.

Lemma exact_difference :
  is_number (Prim2SF x) = true -> 12570 * unit_value < fval x -> fval x <= 2 ^ 54 * unit_value ->
  representable (fval x - 12570 * unit_value).
Proof.
  intros N L U. pose proof unit_value_pos as PU.
  destruct (positive_number x N ltac:(lia)) as (_ & m & e & Bx & F).
  destruct (finite_bounds_range _ _ F) as (He & Hm & Hn).
  unfold fval in *. rewrite Bx in *. cbn [SFN cond_Zopp] in *.
  assert (P : 0 < 2 ^ (e + bias)) by (apply pow2_pos; unfold bias; lia).
  destruct (Z_le_gt_dec e 1) as [E1 | E2].
  - exists (e + bias). split; [ unfold sub_exp, bias; lia | split ].
    + apply Z.divide_sub_r; [ exists (Zpos m); reflexivity | ].
      exists (6285 * 2 ^ (1 - e)). unfold unit_value.
      rewrite <- Z.mul_assoc, <- Z.pow_add_r by (unfold bias; lia).
      replace (1 - e + (e + bias)) with (1 + bias) by lia.
      rewrite (Z.pow_add_r 2 1 bias) by (unfold bias; lia). lia.
    + rewrite Z.abs_eq by lia.
      apply Z.lt_le_trans with (Zpos m * 2 ^ (e + bias)); [ lia | ].
      rewrite (Z.pow_add_r 2 (e + bias) 53) by (unfold bias; lia).
      rewrite (Z.mul_comm (2 ^ (e + bias))).
      apply Z.mul_le_mono_nonneg_r; lia.
  - assert (M : 2 ^ 52 <= Zpos m) by (apply Hn; lia).
    assert (S : 2 ^ (e + bias) = 2 ^ (e - 2) * (4 * unit_value)).
    { unfold unit_value. change 4 with (2 ^ 2). rewrite <- !Z.pow_add_r by (unfold bias; lia).
      f_equal. lia. }
    assert (Q : 1 <= 2 ^ (e - 2)) by (pose proof (pow2_pos (e - 2)); lia).
    assert (X : 2 ^ 54 * unit_value <= Zpos m * 2 ^ (e + bias)).
    { rewrite S. change (2 ^ 54) with (2 ^ 52 * 4).
      rewrite <- Z.mul_assoc.
      apply Z.le_trans with (Zpos m * (4 * unit_value)).
      - apply Z.mul_le_mono_nonneg_r; lia.
      - apply Z.mul_le_mono_nonneg_l; [ lia | ].
        rewrite <- (Z.mul_1_l (4 * unit_value)) at 1.
        apply Z.mul_le_mono_nonneg_r; lia. }
    assert (EQ : Zpos m * 2 ^ (e + bias) = 2 ^ 54 * unit_value) by lia.
    rewrite EQ. exists (1 + bias). split; [ unfold sub_exp, bias; lia | split ].
    + exists (2 ^ 53 - 6285). rewrite (Z.pow_add_r 2 1 bias) by (unfold bias; lia).
      fold unit_value. lia.
    + rewrite Z.abs_eq by lia.
      rewrite (Z.pow_add_r 2 (1 + bias) 53), (Z.pow_add_r 2 1 bias) by (unfold bias; lia).
      fold unit_value. lia.
Qed.

Lemma band_higher_exact :
  PrimFloat.ltb 50270 x = true -> PrimFloat.leb x 18014398509481984 = true ->
  dsub (dsub (Num x) (Num 12570)) (Num 37700) = dsub (Num x) (Num 50270).
Proof.
  intros H1 H2. pose proof unit_value_pos as PU.
  destruct (number_between x 50270 18014398509481984 eq_refl eq_refl H1 H2) as [N [L U]].
  rewrite fval_50270 in L. rewrite fval_2p54 in U.
  destruct (above_basic_value N L) as (Nt & St & Vt & T37 & Nu & Su & Vu & Pu).
  rewrite (RNz_exact _ (exact_difference N ltac:(lia) U)) in Vt.
  assert (D : 0 < fval x - 50270 * unit_value) by lia.
  assert (M0 : 0 < RNz (fval x - 50270 * unit_value)).
  { apply RNz_positive; [ lia | ].
    apply Z.divide_sub_r; [ apply fval_multiple | ].
    rewrite <- fval_50270. apply fval_multiple. }
  assert (M1 : RNz (fval x - 50270 * unit_value) <= fval x).
  { rewrite <- (RNz_fval x) at 2. apply RNz_mono. lia. }
  pose proof (fval_bound x) as Bx.
  destruct (sub_value x 50270 N eq_refl) as (Nw & Vw & Sw).
  - left. lia.
  - rewrite fval_50270. lia.
  - rewrite fval_50270 in Vw.
    change (dsub (Num x) (Num 12570)) with (of_float t).
    rewrite (of_float_number t) by (apply number_not_nan; exact Nt).
    change (dsub (Num t) (Num 37700)) with (of_float u).
    change (dsub (Num x) (Num 50270)) with (of_float (x - 50270)).
    f_equal. apply fval_inj_pos; try assumption.
    + rewrite Vu, Vt. replace (fval x - 12570 * unit_value - 37700 * unit_value)
        with (fval x - 50270 * unit_value) by lia. exact M0.
    + rewrite Vu, Vt, Vw. f_equal. lia.
Qed.

End Bands.

(** *** Sums and products of numbers *)

Lemma add_value (x y : float) :
  is_number (Prim2SF x) = true -> is_number (Prim2SF y) = true ->
  fval x <> 0 \/ fval y <> 0 ->
  Z.abs (RNz (fval x + fval y)) < 2 ^ (1024 + bias) ->
  is_number (Prim2SF (x + y)) = true /\ fval (x + y) = RNz (fval x + fval y) /\
  (0 <= fval x + fval y -> plus_sign (Prim2SF (x + y))).
Proof.
  intros Nx Ny NZ Hlt. unfold fval in *. rewrite add_spec.
  unfold SF64add.
  rewrite SFadd_number by (try apply Prim2SF_valid; assumption).
  destruct (SFround_value _ Hlt) as (V & N & E).
  split; [ exact N | split; [ exact E | ] ].
  intro H. pose proof (SFround_sign _ H) as S.
  destruct (SFround _); exact S.
Qed.

Lemma product_in_units (mx my ex ey : Z) :
  -1074 <= ex -> -1074 <= ey ->
  mx * 2 ^ (ex + bias) * (my * 2 ^ (ey + bias)) / unit_value
  = mx * my * 2 ^ (ex + ey + bias).
Proof.
  intros Hx Hy. unfold unit_value.
  assert (E : 2 ^ (ex + bias) * 2 ^ (ey + bias) = 2 ^ (ex + ey + bias) * 2 ^ bias).
  { rewrite <- !Z.pow_add_r by (unfold bias; lia). f_equal. lia. }
  set (A := 2 ^ (ex + bias)) in *. set (C := 2 ^ (ey + bias)) in *.
  set (D := 2 ^ (ex + ey + bias)) in *.
  assert (P : 0 < 2 ^ bias) by (apply pow2_pos; unfold bias; lia).
  set (U := 2 ^ bias) in *.
  replace (mx * A * (my * C)) with (mx * my * (A * C)) by ring.
  rewrite E, Z.mul_assoc. apply Z.div_mul. lia.
Qed.

(** The product of two numbers that are not negative. *)
Lemma mul_value (a c : float) :
  is_number (Prim2SF a) = true -> is_number (Prim2SF c) = true ->
  plus_sign (Prim2SF a) -> plus_sign (Prim2SF c) ->
  RNz (fval a * fval c / unit_value) < 2 ^ (1024 + bias) ->
  is_number (Prim2SF (a * c)) = true /\ plus_sign (Prim2SF (a * c)) /\
  fval (a * c) = RNz (fval a * fval c / unit_value).
Proof.
  intros Na Nc Pa Pc Hlt. unfold fval in *. rewrite mul_spec. unfold SF64mul.
  pose proof (Prim2SF_valid a) as Va. pose proof (Prim2SF_valid c) as Vc.
  destruct (Prim2SF a) as [ sa | sa | | sa ma ea ]; try discriminate Na;
    destruct (Prim2SF c) as [ sc | sc | | sc mc ec ]; try discriminate Nc;
    cbn in Pa, Pc; subst sa sc.
  - cbn. repeat split.
  - cbn. repeat split.
  - cbn [SFmul SFN xorb is_number plus_sign]. rewrite Z.mul_0_r, Z.div_0_l.
    + repeat split.
    + pose proof unit_value_pos. lia.
  - cbn [valid_binary] in Va, Vc. apply bounded_iff in Va, Vc.
    destruct (finite_bounds_range _ _ Va) as (Hea & _).
    destruct (finite_bounds_range _ _ Vc) as (Hec & _).
    rewrite SFmul_finite by assumption.
    cbn [SFN cond_Zopp xorb] in Hlt |- *.
    rewrite product_in_units in Hlt |- * by lia.
    set (P := Zpos ma * Zpos mc * 2 ^ (ea + ec + bias)) in *.
    assert (PP : 0 < P).
    { unfold P. pose proof (pow2_pos (ea + ec + bias)). unfold bias in *. nia. }
    rewrite (RNz_pos P PP) in Hlt |- *.
    pose proof (RNpos_nonneg P ltac:(lia)) as NN.
    destruct (Z.eq_dec (RNpos P) 0) as [E0 | NE0].
    + rewrite E0. cbn. repeat split.
    + destruct (SFofZ_finite false (RNpos P) ltac:(lia)
                  (RNpos_representable P PP) Hlt) as (m & e & E & F & V).
      rewrite E. cbn [is_number plus_sign SFN cond_Zopp]. rewrite V. repeat split.
Qed.

(** *** The tax estimate as a function of the value of the income *)

Lemma fval_rates :
  0 < fval 0.2 /\ fval 0.2 < unit_value /\ 0 < fval 0.4 /\ 2 * fval 0.4 < unit_value.
Proof.
  unfold fval, unit_value.
  change (Prim2SF 0.2%float) with (S754_finite false 7205759403792794 (-55)).
  change (Prim2SF 0.4%float) with (S754_finite false 7205759403792794 (-54)).
  cbn [SFN cond_Zopp].
  assert (P : 0 < 2 ^ (-55 + bias)) by (apply pow2_pos; unfold bias; lia).
  assert (E1 : 2 ^ (-54 + bias) = 2 * 2 ^ (-55 + bias)).
  { replace (-54 + bias) with (1 + (-55 + bias)) by lia.
    rewrite Z.pow_add_r by (unfold bias; lia). reflexivity. }
  assert (E2 : 2 ^ bias = 2 ^ 55 * 2 ^ (-55 + bias)).
  { rewrite <- Z.pow_add_r by (unfold bias; lia). f_equal; lia. }
  rewrite E1, E2. set (Q := 2 ^ (-55 + bias)) in *.
  change (2 ^ 55) with 36028797018963968. lia.
Qed.

Lemma fval_7540 : fval 7540 = 7540 * unit_value.
Proof.
  apply fval_integer with (m := 8290317673431040%positive) (e := -40);
    try reflexivity; unfold bias; lia.
Qed.

Lemma scaled_le (V c : Z) : 0 <= V -> 0 <= c <= unit_value -> V * c / unit_value <= V.
Proof.
  intros HV Hc. pose proof unit_value_pos as PU.
  apply Z.div_le_upper_bound; [ exact PU | ]. nia.
Qed.

Lemma scaled_mono (V W c : Z) : 0 <= c -> V <= W -> V * c / unit_value <= W * c / unit_value.
Proof.
  intros Hc H. apply Z.div_le_mono; [ exact unit_value_pos | nia ].
Qed.

Lemma scaled_nonneg (V c : Z) : 0 <= V -> 0 <= c -> 0 <= V * c / unit_value.
Proof. intros HV Hc. apply Z.div_pos; [ nia | exact unit_value_pos ]. Qed.

Lemma basic_tax_value_mono (X Y : Z) : X <= Y -> basic_tax_value X <= basic_tax_value Y.
Proof.
  intro H. unfold basic_tax_value. destruct fval_rates as (P1 & _).
  apply RNz_mono, scaled_mono; [ lia | ]. apply RNz_mono. lia.
Qed.

Lemma higher_tax_value_mono (X Y : Z) : X <= Y -> higher_tax_value X <= higher_tax_value Y.
Proof.
  intro H. unfold higher_tax_value. destruct fval_rates as (_ & _ & P2 & _).
  apply RNz_mono. apply Z.add_le_mono_l.
  apply RNz_mono, scaled_mono; [ lia | ].
  apply RNz_mono. apply Z.sub_le_mono_r. apply RNz_mono. lia.
Qed.

Lemma pow2_split (a b : Z) : 0 <= a -> 0 <= b -> 2 ^ (a + b) = 2 ^ a * 2 ^ b.
Proof. intros. apply Z.pow_add_r; assumption. Qed.

Lemma representable_pow2_multiple (q k : Z) :
  sub_exp <= k -> 0 <= q < 2 ^ 53 -> representable (q * 2 ^ k).
Proof.
  intros Hk Hq. exists k. split; [ exact Hk | split; [ exists q; reflexivity | ] ].
  assert (P : 0 < 2 ^ k) by (apply pow2_pos; unfold sub_exp in Hk; lia).
  rewrite Z.abs_eq by nia.
  rewrite (Z.pow_add_r 2 k 53) by (unfold sub_exp in Hk; lia).
  rewrite (Z.mul_comm (2 ^ k)). apply Z.mul_lt_mono_pos_r; lia.
Qed.

(** The sum that ends the higher band does not overflow. *)
Lemma higher_sum_bound (V : Z) :
  0 <= V <= 2 ^ (1024 + bias) ->
  0 <= RNz (V * fval 0.4 / unit_value) /\
  7540 * unit_value <= RNz (7540 * unit_value + RNz (V * fval 0.4 / unit_value))
    < 2 ^ (1024 + bias).
Proof.
  intros [V0 V1]. destruct fval_rates as (_ & _ & C0 & C1).
  pose proof unit_value_pos as PU.
  set (K := 2 ^ (1022 + bias)).
  assert (PK : 0 < K) by (apply pow2_pos; unfold bias; lia).
  assert (E3 : 2 ^ (1023 + bias) = 2 * K).
  { replace (1023 + bias) with (1 + (1022 + bias)) by lia.
    rewrite pow2_split by (unfold bias; lia). reflexivity. }
  assert (E4 : 2 ^ (1024 + bias) = 4 * K).
  { replace (1024 + bias) with (2 + (1022 + bias)) by lia.
    rewrite pow2_split by (unfold bias; lia). reflexivity. }
  assert (U : 7540 * unit_value <= K).
  { unfold K, unit_value. rewrite (pow2_split 1022 bias) by (unfold bias; lia).
    apply Z.mul_le_mono_nonneg_r; [ unfold unit_value in PU; lia | ].
    apply Z.le_trans with (2 ^ 13); [ change (2 ^ 13) with 8192; lia | ].
    apply Z.pow_le_mono_r; lia. }
  rewrite E4 in *.
  set (W := RNz (V * fval 0.4 / unit_value)).
  assert (W0 : 0 <= W) by (apply RNz_nonneg, scaled_nonneg; lia).
  assert (W1 : W <= 2 * K).
  { rewrite <- E3. rewrite <- (RNz_exact (2 ^ (1023 + bias))).
    - apply RNz_mono. apply Z.div_le_upper_bound; [ exact PU | ].
      rewrite E3. nia.
    - replace (2 ^ (1023 + bias)) with (1 * 2 ^ (1023 + bias)) by lia.
      apply representable_pow2_multiple; [ unfold sub_exp, bias; lia | ].
      change (2 ^ 53) with 9007199254740992. lia. }
  split; [ exact W0 | split ].
  - rewrite <- (RNz_exact (7540 * unit_value)) at 1.
    + apply RNz_mono. lia.
    + rewrite <- fval_7540. apply fval_representable.
  - apply Z.le_lt_trans with (3 * K); [ | lia ].
    rewrite <- (RNz_exact (3 * K)).
    + apply RNz_mono. lia.
    + apply representable_pow2_multiple; [ unfold sub_exp, bias; lia | ].
      change (2 ^ 53) with 9007199254740992. lia.
Qed.

Lemma is_nan_true (x : float) : not_nan (Prim2SF x) = false -> PrimFloat.is_nan x = true.
Proof.
  intro H. unfold PrimFloat.is_nan. rewrite eqb_spec. unfold SFeqb.
  rewrite SFcompare_nan_l by exact H. reflexivity.
Qed.

(** A float that is a NaN, should [Num] hold one, is taxed 0 like a NaN. *)
Lemma tax_of_nan (x : float) :
  not_nan (Prim2SF x) = false -> estimateTaxYearly (Num x) = Num 0.
Proof.
  intro H. unfold estimateTaxYearly. cbn [dle].
  assert (L : PrimFloat.leb x 12570 = false).
  { destruct (PrimFloat.leb x 12570) eqn:E; [ | reflexivity ].
    apply leb_rank in E. destruct E as (E & _). congruence. }
  rewrite L.
  assert (T : dsub (Num x) (Num 12570) = NaN true).
  { change (dsub (Num x) (Num 12570)) with (of_float (x - 12570)).
    unfold of_float. rewrite is_nan_true; [ reflexivity | ].
    rewrite sub_spec. unfold SF64sub.
    destruct (Prim2SF x); try discriminate H. reflexivity. }
  rewrite T. reflexivity.
Qed.

Lemma band_basic_value (x : float) :
  PrimFloat.ltb 12570 x = true -> PrimFloat.leb x 50270 = true ->
  exists r,
    estimateTaxYearly (Num x) = Num r /\ is_number (Prim2SF r) = true /\
    plus_sign (Prim2SF r) /\ fval r = basic_tax_value (fval x).
Proof.
  intros H1 H2.
  destruct (number_between x 12570 50270 eq_refl eq_refl H1 H2) as [N [L U]].
  rewrite fval_12570 in L.
  destruct (taxable_value x N L) as (Nt & St & Vt & Pt & Ut).
  destruct fval_rates as (A1 & A2 & _).
  destruct (mul_value (taxable_of x) 0.2 Nt eq_refl St eq_refl) as (Nr & Sr & Vr).
  { apply Z.le_lt_trans with (fval (taxable_of x));
      [ | pose proof (fval_bound (taxable_of x)); lia ].
    rewrite <- (RNz_fval (taxable_of x)) at 2. apply RNz_mono, scaled_le; lia. }
  exists (taxable_of x * 0.2)%float.
  rewrite (band_basic x H1 H2).
  change (dsub (Num x) (Num 12570)) with (of_float (taxable_of x)).
  rewrite (of_float_number _ (number_not_nan _ Nt)).
  change (dmul (Num (taxable_of x)) (Num 0.2)) with (of_float (taxable_of x * 0.2)).
  rewrite (of_float_number _ (number_not_nan _ Nr)).
  split; [ reflexivity | split; [ exact Nr | split; [ exact Sr | ] ] ].
  rewrite Vr, Vt. reflexivity.
Qed.

Lemma band_higher_value (x : float) :
  PrimFloat.ltb 50270 x = true -> is_number (Prim2SF x) = true ->
  exists r,
    estimateTaxYearly (Num x) = Num r /\ is_number (Prim2SF r) = true /\
    plus_sign (Prim2SF r) /\ fval r = higher_tax_value (fval x).
Proof.
  intros H N. pose proof H as H'.
  apply ltb_rank in H'. destruct H' as (_ & Nn & L).
  change (frank 50270) with (fval 50270) in L. rewrite fval_50270 in L.
  unfold frank in L. rewrite (number_rank _ N) in L. fold (fval x) in L.
  destruct (above_basic_value x N L) as (Nt & St & Vt & T37 & Nu & Su & Vu & Pu).
  pose proof (fval_bound (above_basic_of x)) as Bu.
  destruct (higher_sum_bound (fval (above_basic_of x)) ltac:(lia)) as (W0 & S0 & S1).
  destruct fval_rates as (_ & _ & C0 & C1).
  pose proof unit_value_pos as PU.
  destruct (mul_value (above_basic_of x) 0.4 Nu eq_refl Su eq_refl) as (Nw & Sw & Vw).
  { apply Z.le_lt_trans with (fval (above_basic_of x)); [ | lia ].
    rewrite <- (RNz_fval (above_basic_of x)) at 2. apply RNz_mono, scaled_le; lia. }
  destruct (add_value 7540 (above_basic_of x * 0.4) eq_refl Nw) as (Nr & Vr & Sr).
  { left. rewrite fval_7540. lia. }
  { rewrite fval_7540, Vw. rewrite Z.abs_eq by lia. lia. }
  rewrite fval_7540, Vw in Vr, Sr.
  exists (7540 + above_basic_of x * 0.4)%float.
  rewrite (band_higher x H).
  change (dsub (Num x) (Num 12570)) with (of_float (taxable_of x)).
  rewrite (of_float_number _ (number_not_nan _ Nt)).
  change (dsub (Num (taxable_of x)) (Num 37700)) with (of_float (above_basic_of x)).
  rewrite (of_float_number _ (number_not_nan _ Nu)).
  change (dmul (Num (above_basic_of x)) (Num 0.4))
    with (of_float (above_basic_of x * 0.4)).
  rewrite (of_float_number _ (number_not_nan _ Nw)).
  change (dadd (Num 7540) (Num (above_basic_of x * 0.4)))
    with (of_float (7540 + above_basic_of x * 0.4)).
  rewrite (of_float_number _ (number_not_nan _ Nr)).
  split; [ reflexivity | split; [ exact Nr | split; [ apply Sr; lia | ] ] ].
  rewrite Vr. unfold higher_tax_value. rewrite Vu, Vt. reflexivity.
Qed.

Lemma overflow_above_constants :
  50270 * unit_value < 2 ^ (1024 + bias).
Proof.
  unfold unit_value. rewrite (pow2_split 1024 bias) by (unfold bias; lia).
  assert (P : 0 < 2 ^ bias) by (apply pow2_pos; unfold bias; lia).
  apply Z.mul_lt_mono_pos_r; [ exact P | ].
  apply Z.lt_le_trans with (2 ^ 16); [ change (2 ^ 16) with 65536; lia | ].
  apply Z.pow_le_mono_r; lia.
Qed.

Lemma representable_overflow : representable (2 ^ (1024 + bias)).
Proof.
  replace (2 ^ (1024 + bias)) with (1 * 2 ^ (1024 + bias)) by lia.
  apply representable_pow2_multiple; [ unfold sub_exp, bias; lia | ].
  change (2 ^ 53) with 9007199254740992. lia.
Qed.

Lemma basic_tax_value_top : basic_tax_value (50270 * unit_value) = 7540 * unit_value.
Proof.
  unfold basic_tax_value.
  replace (50270 * unit_value - 12570 * unit_value) with (fval 37700)
    by (rewrite fval_37700; lia).
  rewrite RNz_fval.
  destruct fval_rates as (A1 & A2 & _). pose proof unit_value_pos as PU.
  destruct (mul_value 37700 0.2 eq_refl eq_refl eq_refl eq_refl) as (_ & _ & V).
  - apply Z.le_lt_trans with (fval 37700); [ | pose proof (fval_bound 37700); lia ].
    rewrite <- (RNz_fval 37700) at 2. apply RNz_mono, scaled_le; [ | lia ].
    rewrite fval_37700. lia.
  - rewrite <- V. exact fval_7540.
Qed.

Lemma basic_tax_value_range (X : Z) :
  12570 * unit_value <= X <= 50270 * unit_value ->
  0 <= basic_tax_value X <= 7540 * unit_value.
Proof.
  intros [L U]. destruct fval_rates as (A1 & _). split.
  - unfold basic_tax_value. apply RNz_nonneg, scaled_nonneg; [ | lia ].
    apply RNz_nonneg. lia.
  - rewrite <- basic_tax_value_top. apply basic_tax_value_mono. exact U.
Qed.

Lemma higher_tax_value_range (X : Z) :
  50270 * unit_value <= X <= 2 ^ (1024 + bias) ->
  7540 * unit_value <= higher_tax_value X < 2 ^ (1024 + bias).
Proof.
  intros [L U]. pose proof unit_value_pos as PU. unfold higher_tax_value.
  assert (T : 37700 * unit_value <= RNz (X - 12570 * unit_value) <= 2 ^ (1024 + bias)).
  { split.
    - rewrite <- fval_37700, <- (RNz_fval 37700), fval_37700. apply RNz_mono. lia.
    - rewrite <- (RNz_exact _ representable_overflow). apply RNz_mono. lia. }
  apply higher_sum_bound. split.
  - apply RNz_nonneg. lia.
  - rewrite <- (RNz_exact _ representable_overflow). apply RNz_mono. lia.
Qed.

Lemma tax_rank_nonneg (X : Z) : 0 <= tax_rank X.
Proof.
  unfold tax_rank. pose proof unit_value_pos as PU. pose proof overflow_pos as PO.
  destruct (Z.leb_spec X (12570 * unit_value)); [ lia | ].
  destruct (Z.leb_spec X (50270 * unit_value)).
  - apply basic_tax_value_range. lia.
  - destruct (Z.ltb_spec X (2 ^ (1024 + bias))); [ | lia ].
    pose proof (higher_tax_value_range X ltac:(lia)). lia.
Qed.

Lemma tax_rank_mono (X Y : Z) : X <= Y -> tax_rank X <= tax_rank Y.
Proof.
  intro H. pose proof (tax_rank_nonneg Y) as NY. unfold tax_rank in *.
  pose proof unit_value_pos as PU. pose proof overflow_above_constants as PO.
  destruct (Z.leb_spec X (12570 * unit_value)) as [ | X1 ]; [ exact NY | ].
  destruct (Z.leb_spec Y (12570 * unit_value)) as [ | Y1 ]; [ lia | ].
  destruct (Z.leb_spec X (50270 * unit_value)) as [ X2 | X2 ].
  - pose proof (basic_tax_value_range X ltac:(lia)) as RX.
    destruct (Z.leb_spec Y (50270 * unit_value)) as [ Y2 | Y2 ].
    + apply basic_tax_value_mono. exact H.
    + destruct (Z.ltb_spec Y (2 ^ (1024 + bias))) as [ Y3 | Y3 ].
      * pose proof (higher_tax_value_range Y ltac:(lia)). lia.
      * lia.
  - destruct (Z.leb_spec Y (50270 * unit_value)) as [ Y2 | Y2 ]; [ lia | ].
    destruct (Z.ltb_spec X (2 ^ (1024 + bias))) as [ X3 | X3 ].
    + destruct (Z.ltb_spec Y (2 ^ (1024 + bias))) as [ Y3 | Y3 ].
      * apply higher_tax_value_mono. exact H.
      * pose proof (higher_tax_value_range X ltac:(lia)). lia.
    + destruct (Z.ltb_spec Y (2 ^ (1024 + bias))) as [ Y3 | Y3 ]; lia.
Qed.

(** What [estimateTaxYearly] returns for a number: a number or an
    infinity, of rank [tax_rank]. *)
Lemma tax_rank_spec (x : float) :
  not_nan (Prim2SF x) = true ->
  exists r,
    estimateTaxYearly (Num x) = Num r /\ not_nan (Prim2SF r) = true /\
    frank r = tax_rank (frank x).
Proof.
  intro Nn. pose proof unit_value_pos as PU. pose proof overflow_above_constants as PO.
  unfold tax_rank.
  destruct (PrimFloat.leb x 12570) eqn:A.
  - exists 0%float. split; [ | split; [ reflexivity | ] ].
    + unfold estimateTaxYearly. cbn [dle]. rewrite A. reflexivity.
    + apply leb_rank in A. destruct A as (_ & _ & A).
      change (frank 12570) with (fval 12570) in A. rewrite fval_12570 in A.
      apply Z.leb_le in A. rewrite A. reflexivity.
  - assert (A' : 12570 * unit_value < frank x).
    { destruct (Z_le_gt_dec (frank x) (12570 * unit_value)) as [ Le | Gt ]; [ | lia ].
      assert (E : PrimFloat.leb x 12570 = true).
      { apply leb_rank. split; [ exact Nn | split; [ reflexivity | ] ].
        change (frank 12570) with (fval 12570). rewrite fval_12570. exact Le. }
      congruence. }
    assert (H1 : PrimFloat.ltb 12570 x = true).
    { apply ltb_rank. split; [ reflexivity | split; [ exact Nn | ] ].
      change (frank 12570) with (fval 12570). rewrite fval_12570. exact A'. }
    replace (frank x <=? 12570 * unit_value) with false
      by (symmetry; apply Z.leb_gt; exact A').
    destruct (PrimFloat.leb x 50270) eqn:B.
    + destruct (band_basic_value x H1 B) as (r & E & Nr & Sr & Vr).
      destruct (number_between x 12570 50270 eq_refl eq_refl H1 B) as [N [L U]].
      exists r. split; [ exact E | split; [ apply number_not_nan; exact Nr | ] ].
      unfold frank. rewrite (number_rank _ Nr), (number_rank _ N).
      fold (fval r) (fval x). rewrite fval_50270 in U.
      apply Z.leb_le in U. rewrite U. exact Vr.
    + assert (B' : 50270 * unit_value < frank x).
      { destruct (Z_le_gt_dec (frank x) (50270 * unit_value)) as [ Le | Gt ]; [ | lia ].
        assert (E : PrimFloat.leb x 50270 = true).
        { apply leb_rank. split; [ exact Nn | split; [ reflexivity | ] ].
          change (frank 50270) with (fval 50270). rewrite fval_50270. exact Le. }
        congruence. }
      assert (H2 : PrimFloat.ltb 50270 x = true).
      { apply ltb_rank. split; [ reflexivity | split; [ exact Nn | ] ].
        change (frank 50270) with (fval 50270). rewrite fval_50270. exact B'. }
      replace (frank x <=? 50270 * unit_value) with false
        by (symmetry; apply Z.leb_gt; exact B').
      destruct (is_number (Prim2SF x)) eqn:N.
      * destruct (band_higher_value x H2 N) as (r & E & Nr & Sr & Vr).
        exists r. split; [ exact E | split; [ apply number_not_nan; exact Nr | ] ].
        unfold frank. rewrite (number_rank _ Nr), (number_rank _ N).
        fold (fval r) (fval x). pose proof (fval_bound x) as Bx.
        replace (fval x <? 2 ^ (1024 + bias)) with true
          by (symmetry; apply Z.ltb_lt; lia).
        exact Vr.
      * rewrite (infinity_of_rank x Nn N ltac:(lia)).
        exists infinity. split; [ reflexivity | split; [ reflexivity | ] ].
        change (frank infinity) with (2 ^ (1024 + bias)).
        rewrite Z.ltb_irrefl. reflexivity.
Qed.

(** ** The CSV codec *)

Lemma bad_csv_not_bad_number (l1 l2 : N) : bad_csv l1 <> bad_number l2.
Proof. unfold bad_csv, bad_number; simpl; intro H; inversion H. Qed.

Lemma append_empty_r (s : string) : s ++ EmptyString = s.
Proof. induction s; cbn; congruence. Qed.

Lemma append_snoc (s rest : string) (c : ascii) :
  (s ++ String c EmptyString) ++ rest = s ++ String c rest.
Proof. induction s; cbn; congruence. Qed.

Lemma split_fields_no_comma (line : string) :
  forall cur, no_comma line -> split_fields line cur = [cur ++ line].
Proof.
  induction line as [ | c rest IH ]; intros cur H.
  - cbn. rewrite append_empty_r. reflexivity.
  - cbn [split_fields].
    destruct (Ascii.eqb_spec c ","%char) as [Heq | Hne].
    + exfalso. apply (H c); [ left; reflexivity | exact Heq ].
    + rewrite IH.
      * rewrite append_snoc. reflexivity.
      * intros c' Hin. apply H. right. exact Hin.
Qed.

Lemma in_append (a b : string) (c : ascii) :
  In c (list_ascii_of_string (a ++ b)) ->
  In c (list_ascii_of_string a) \/ In c (list_ascii_of_string b).
Proof.
  induction a as [ | x a IH ]; cbn; [ auto | ].
  intros [H | H]; [ auto | ]. destruct (IH H); auto.
Qed.

Lemma no_comma_app (a b : string) :
  no_comma a -> no_comma b -> no_comma (a ++ b).
Proof.
  intros Ha Hb c Hc. destruct (in_append _ _ _ Hc); [ apply Ha | apply Hb ]; assumption.
Qed.

Lemma no_comma_cons (x : ascii) (s : string) :
  x <> ","%char -> no_comma s -> no_comma (String x s).
Proof. intros Hx Hs c [H | H]; [ subst; exact Hx | apply Hs; exact H ]. Qed.

Lemma no_comma_tail (x : ascii) (s : string) : no_comma (String x s) -> no_comma s.
Proof. intros H c Hc. apply H. right. exact Hc. Qed.

Lemma no_comma_empty : no_comma EmptyString.
Proof. intros c []. Qed.

Lemma no_comma_substring (s : string) :
  forall pos len, no_comma s -> no_comma (substring pos len s).
Proof.
  induction s as [ | x s IH ]; intros pos len H.
  - destruct pos, len; exact no_comma_empty.
  - destruct pos; cbn.
    + destruct len; [ exact no_comma_empty | ].
      apply no_comma_cons; [ apply H; left; reflexivity | ].
      apply IH. exact (no_comma_tail _ _ H).
    + apply IH. exact (no_comma_tail _ _ H).
Qed.

Lemma no_comma_strip_zeros (s : string) : no_comma s -> no_comma (Std.strip_zeros s).
Proof.
  induction s as [ | x s IH ]; intro H; cbn; [ exact no_comma_empty | ].
  pose proof (IH (no_comma_tail _ _ H)) as Hs.
  assert (Hx : x <> ","%char) by (apply H; left; reflexivity).
  destruct (Std.strip_zeros s).
  - destruct (Ascii.eqb x "0"); [ exact no_comma_empty | ].
    apply no_comma_cons; [ exact Hx | exact no_comma_empty ].
  - apply no_comma_cons; assumption.
Qed.

Lemma no_comma_with_point (s : string) : no_comma s -> no_comma (Std.with_point s).
Proof.
  intro H. unfold Std.with_point.
  pose proof (no_comma_strip_zeros s H) as Hs.
  destruct (Std.strip_zeros s); [ exact no_comma_empty | ].
  apply no_comma_cons; [ discriminate | exact Hs ].
Qed.

Lemma digit_char_no_comma (d : Z) : 0 <= d < 10 -> Std.digit_char d <> ","%char.
Proof.
  intro H.
  assert (E : d = 0 \/ d = 1 \/ d = 2 \/ d = 3 \/ d = 4 \/
              d = 5 \/ d = 6 \/ d = 7 \/ d = 8 \/ d = 9) by lia.
  repeat (destruct E as [E | E]; [ subst d; discriminate | ]).
  subst d; discriminate.
Qed.

Lemma no_comma_digits_fixed (width : nat) :
  forall n, no_comma (Std.digits_fixed width n).
Proof.
  induction width as [ | w IH ]; intro n; cbn; [ exact no_comma_empty | ].
  apply no_comma_app; [ apply IH | ].
  apply no_comma_cons; [ | exact no_comma_empty ].
  apply digit_char_no_comma. apply Z.mod_pos_bound. lia.
Qed.

Lemma no_comma_string_of_uint (d : Decimal.uint) : no_comma (NilEmpty.string_of_uint d).
Proof.
  induction d; cbn; try exact no_comma_empty;
    (apply no_comma_cons; [ discriminate | assumption ]).
Qed.

Lemma no_comma_to_string (n : N) : no_comma (Std.to_string n).
Proof.
  unfold Std.to_string, NilZero.string_of_uint.
  destruct (N.to_uint n) eqn:E; try apply no_comma_string_of_uint.
  apply no_comma_cons; [ discriminate | exact no_comma_empty ].
Qed.

Lemma no_comma_exponent_text (x : Z) : no_comma (Std.exponent_text x).
Proof.
  unfold Std.exponent_text.
  apply no_comma_app; [ | apply no_comma_app ].
  - destruct (x <? 0); (apply no_comma_cons; [ discriminate | exact no_comma_empty ]).
  - destruct (Z.abs x <? 10); [ | exact no_comma_empty ].
    apply no_comma_cons; [ discriminate | exact no_comma_empty ].
  - apply no_comma_to_string.
Qed.

Lemma no_comma_put_positive (n d : Z) : no_comma (Std.put_positive n d).
Proof.
  unfold Std.put_positive.
  destruct (Std.six_digits n d) as [m x].
  pose proof (no_comma_digits_fixed 6 m) as D.
  destruct ((x <? -4) || (6 <=? x))%bool; [ | destruct (0 <=? x) ].
  - apply no_comma_app; [ apply no_comma_substring; exact D | ].
    apply no_comma_app; [ apply no_comma_with_point, no_comma_substring; exact D | ].
    apply no_comma_app; [ | apply no_comma_exponent_text ].
    apply no_comma_cons; [ discriminate | exact no_comma_empty ].
  - apply no_comma_app; [ apply no_comma_substring; exact D | ].
    apply no_comma_with_point, no_comma_substring. exact D.
  - apply no_comma_app.
    + apply no_comma_cons; [ discriminate | exact no_comma_empty ].
    + apply no_comma_with_point, no_comma_app; [ apply no_comma_digits_fixed | exact D ].
Qed.

Lemma no_comma_minus (s : bool) : no_comma (Std.minus s).
Proof.
  destruct s; [ | exact no_comma_empty ].
  apply no_comma_cons; [ discriminate | exact no_comma_empty ].
Qed.

Lemma no_comma_put_double (v : double) : no_comma (Std.put_double v).
Proof.
  assert (W : forall w, existsb (Ascii.eqb ",") (list_ascii_of_string w) = false ->
                        no_comma w).
  { intros w H c Hc Hcomma. subst c.
    assert (E : existsb (Ascii.eqb ",") (list_ascii_of_string w) = true).
    { apply existsb_exists. exists ","%char. split; [ exact Hc | apply Ascii.eqb_refl ]. }
    congruence. }
  unfold Std.put_double. destruct v as [x | s].
  - destruct (Prim2SF x) as [s | s | | s m e].
    + apply no_comma_app; [ apply no_comma_minus | apply W; reflexivity ].
    + apply no_comma_app; [ apply no_comma_minus | apply W; reflexivity ].
    + apply W. reflexivity.
    + apply no_comma_app; [ apply no_comma_minus | ].
      destruct (0 <=? e); apply no_comma_put_positive.
  - apply no_comma_app; [ apply no_comma_minus | apply W; reflexivity ].
Qed.

Lemma split_fields_field (f : string) :
  forall rest cur,
    no_comma f ->
    split_fields (f ++ String "," rest) cur = (cur ++ f) :: split_fields rest EmptyString.
Proof.
  induction f as [ | c f IH ]; intros rest cur H.
  - cbn. rewrite append_empty_r. reflexivity.
  - cbn [append split_fields].
    destruct (Ascii.eqb_spec c ","%char) as [Heq | Hne].
    + exfalso. apply (H c); [ left; reflexivity | exact Heq ].
    + rewrite IH by exact (no_comma_tail _ _ H).
      rewrite append_snoc. reflexivity.
Qed.

(** The text of the line survives decoding: when neither the date nor the
    note holds a comma, [fromCSV (toCSV s)] has the date and the note of
    [s], and for its two numbers what [stod] reads back from the printed
    ones. *)
Lemma fromCSV_toCSV_fields (s : Shift) (ln : N) :
  no_comma (date s) -> no_comma (note s) ->
  fromCSV (toCSV s) ln
  = match (h <- Std.stod (Std.put_double (hours s)) ;;
           r <- Std.stod (Std.put_double (hourlyRate s)) ;;
           Ok (h, r)) with
    | Ok (h, r) => Ok {| date := date s; hours := h; hourlyRate := r; note := note s |}
    | Throw _ => Throw (bad_number ln)
    end.
Proof.
  intros Hd Hn. unfold fromCSV, toCSV.
  change ("," ++ ?x) with (String "," x).
  cbn [append].
  rewrite (split_fields_field (date s)) by exact Hd.
  rewrite (split_fields_field (Std.put_double (hours s))) by apply no_comma_put_double.
  rewrite (split_fields_field (Std.put_double (hourlyRate s))) by apply no_comma_put_double.
  rewrite split_fields_no_comma by exact Hn.
  cbn. reflexivity.
Qed.

(** So the round trip holds at every shift whose two numbers are read
    back as they were. *)
Lemma fromCSV_toCSV_when_numbers_survive (s : Shift) (ln : N) (h r : double) :
  no_comma (date s) -> no_comma (note s) ->
  Std.stod (Std.put_double (hours s)) = Ok h -> deq h (hours s) = true ->
  Std.stod (Std.put_double (hourlyRate s)) = Ok r -> deq r (hourlyRate s) = true ->
  exists s', fromCSV (toCSV s) ln = Ok s' /\ Shift_eq s' s.
Proof.
  intros Hd Hn Hh Eh Hr Er.
  rewrite fromCSV_toCSV_fields by assumption.
  rewrite Hh, Hr. cbn [bind].
  eexists. split; [ reflexivity | ].
  repeat split; assumption.
Qed.

(** C1, at a shift the program can be given ([--add 2025-10-01 7.5
    12.3456789 "Lunch shift"], no comma in any field): [toCSV] writes the
    rate with six significant digits, so decoding the line yields a shift
    whose [hourlyRate] is 12.3457, not the original 12.3456789.  The
    round trip [decode (encode s) == s] fails at this shift. *)
Theorem toCSV_fromCSV_rounds_rate :
  no_comma (date lunch_shift) /\ no_comma (note lunch_shift) /\
  toCSV lunch_shift = "2025-10-01,7.5,12.3457,Lunch shift" /\
  fromCSV (toCSV lunch_shift) 1
    = Ok (mkShift "2025-10-01" 7.5 12.3457 "Lunch shift") /\
  ~ Shift_eq (mkShift "2025-10-01" 7.5 12.3457 "Lunch shift") lunch_shift.
Proof.
  assert (plain : forall s, existsb (Ascii.eqb ",") (list_ascii_of_string s) = false ->
                            no_comma s).
  { intros s H c Hc Hcomma. subst c.
    assert (E : existsb (Ascii.eqb ",") (list_ascii_of_string s) = true).
    { apply existsb_exists. exists ","%char. split; [ exact Hc | apply Ascii.eqb_refl ]. }
    congruence. }
  split; [ apply plain; reflexivity | ].
  split; [ apply plain; reflexivity | ].
  split; [ vm_compute; reflexivity | split; [ vm_compute; reflexivity | ] ].
  intros (_ & _ & Hrate & _).
  vm_compute in Hrate. discriminate Hrate.
Qed.

(** *** What [stod] rejects *)

Lemma read_number_none (s : string) :
  Std.read_number s = None -> Std.read_mantissa Std.read_digits s = None.
Proof.
  assert (D : Std.read_decimal s = None ->
              Std.read_mantissa Std.read_digits s = None).
  { unfold Std.read_decimal.
    destruct (Std.read_mantissa Std.read_digits s) as [[[m fcount] rest] | ];
      [ discriminate | reflexivity ]. }
  unfold Std.read_number.
  destruct (Std.starts_with "inf" s); [ discriminate | ].
  destruct (Std.starts_with "nan" s); [ discriminate | ].
  destruct s as [ | a s' ]; [ exact D | ].
  destruct a as [[] [] [] [] [] [] [] []]; try exact D.
  destruct s' as [ | x rest ]; [ exact D | ].
  destruct (Ascii.eqb x "x" || Ascii.eqb x "X")%bool; [ | exact D ].
  destruct (Std.read_hexadecimal rest); [ discriminate | exact D ].
Qed.

(** The only exception [stod] throws once a number has been found. *)
Lemma value_of_literal_throws (neg : bool) (l : Std.literal) (e : exn) :
  Std.value_of_literal neg l = Throw e -> e = out_of_range "stod".
Proof.
  assert (C : forall n d, Std.convert neg n d = Throw e -> e = out_of_range "stod").
  { intros n d. unfold Std.convert.
    destruct (round_binary64 n d); intro H; inversion H; reflexivity. }
  destruct l as [m x | m x | | ]; cbn [Std.value_of_literal]; try discriminate.
  - destruct (m =? 0); [ discriminate | ].
    destruct ((310 <? Std.log10 m + 1 + x) || (Std.log10 m + 1 + x <? -330))%bool;
      [ intro H; inversion H; reflexivity | ].
    destruct (0 <=? x); apply C.
  - destruct (m =? 0); [ discriminate | ].
    destruct ((1030 <? Z.log2 m + 1 + x) || (Z.log2 m + 1 + x <? -1080))%bool;
      [ intro H; inversion H; reflexivity | ].
    destruct (0 <=? x); apply C.
Qed.

(** A decimal numeral does not start with white space. *)
Lemma real_number_text_no_space (field : string) :
  real_number_text field = true -> Std.skip_space field = field.
Proof.
  destruct field as [ | c rest ]; [ reflexivity | ].
  intro H. cbn [Std.skip_space].
  destruct (Std.isspace c) eqn:S; [ exfalso | reflexivity ].
  unfold real_number_text, Std.read_mantissa in H.
  destruct c as [[] [] [] [] [] [] [] []]; try discriminate S;
    cbn in H; discriminate H.
Qed.

(** [stod] finds a number in every decimal numeral: it rejects one only
    for its size. *)
Lemma stod_real_number_text (field : string) (e : exn) :
  real_number_text field = true ->
  Std.stod field = Throw e -> e = out_of_range "stod".
Proof.
  intros H. unfold Std.stod. rewrite (real_number_text_no_space _ H).
  unfold real_number_text in H.
  destruct (Std.read_sign field) as [neg s1].
  destruct (Std.read_number s1) as [l | ] eqn:R.
  - apply value_of_literal_throws.
  - rewrite (read_number_none _ R) in H. discriminate H.
Qed.

(** C5, as the code has it: [fromCSV] on any line.  With fewer than three
    comma-separated fields it throws [runtime_error] "Bad CSV at line n".
    With three or more it throws [runtime_error] "Bad number at line n"
    (another message, the same exception type) exactly when [stod] throws
    on field 2 or on field 3, and otherwise returns the shift made of
    field 1, the two numbers [stod] returned and field 4, the note being
    empty when there is no field 4.  [stod] rejects a field that is a
    decimal numeral only when its value is out of the range of
    [double]; it accepts more than decimal numerals (see the lemma that
    follows). *)
Theorem fromCSV_cases (line : string) (lineno : N) :
  let parts := split_fields line EmptyString in
  ((List.length parts < 3)%nat -> fromCSV line lineno = Throw (bad_csv lineno)) /\
  ((3 <= List.length parts)%nat ->
     match Std.stod (nth 1 parts EmptyString), Std.stod (nth 2 parts EmptyString) with
     | Ok h, Ok r =>
         fromCSV line lineno
         = Ok {| date := nth 0 parts EmptyString; hours := h; hourlyRate := r;
                 note := nth 3 parts EmptyString |} /\
         (List.length parts = 3%nat -> nth 3 parts EmptyString = EmptyString)
     | _, _ => fromCSV line lineno = Throw (bad_number lineno)
     end) /\
  (forall field e,
      real_number_text field = true -> Std.stod field = Throw e ->
      e = out_of_range "stod") /\
  bad_csv lineno <> bad_number lineno /\
  is_runtime_error (bad_csv lineno) = true /\
  is_runtime_error (bad_number lineno) = true.
Proof.
  intro parts.
  split; [ | split; [ | split; [ exact stod_real_number_text | ] ] ].
  - intro Hlen. unfold fromCSV. fold parts.
    apply Nat.ltb_lt in Hlen. rewrite Hlen. reflexivity.
  - intro Hlen. unfold fromCSV. fold parts.
    assert (Hge : (List.length parts <? 3)%nat = false) by (apply Nat.ltb_ge; exact Hlen).
    rewrite Hge.
    destruct (Std.stod (nth 1 parts EmptyString)) as [h | e1]; cbn [bind];
      [ | reflexivity ].
    destruct (Std.stod (nth 2 parts EmptyString)) as [r | e2]; cbn [bind];
      [ | reflexivity ].
    split.
    + f_equal. f_equal.
      destruct (4 <=? List.length parts)%nat eqn:H4; [ reflexivity | ].
      apply Nat.leb_gt in H4. symmetry. apply nth_overflow. lia.
    + intro H3. apply nth_overflow. lia.
  - split; [ apply bad_csv_not_bad_number | split; reflexivity ].
Qed.

(** The theorem at the line ["2025-01-01,3,4"]: three fields, two numbers,
    no note. *)
Lemma fromCSV_cases_witness :
  fromCSV "2025-01-01,3,4" 12 = Ok (mkShift "2025-01-01" 3 4 "") /\
  (List.length (split_fields "2025-01-01,3,4" EmptyString) = 3%nat ->
   nth 3 (split_fields "2025-01-01,3,4" EmptyString) EmptyString = EmptyString).
Proof.
  exact (proj1 (proj2 (fromCSV_cases "2025-01-01,3,4" 12)) (Nat.le_refl 3)).
Defined.

(** C5 as stated fails in both directions.  A field that is no real
    number is decoded when it starts with one ([3abc] is read as 3), and
    so are [nan] and [inf]; a field that is a real number is rejected
    when it is too large or too small for a [double]. *)
Lemma fromCSV_accepts_more_than_real_numbers :
  real_number_text "3abc" = false /\
  fromCSV "2025-01-01,3abc,4" 7 = Ok (mkShift "2025-01-01" 3 4 "") /\
  real_number_text "nan" = false /\ real_number_text "inf" = false /\
  fromCSV "2025-01-01,nan,inf,x" 7
  = Ok {| date := "2025-01-01"; hours := NaN false;
          hourlyRate := Num PrimFloat.infinity; note := "x" |} /\
  real_number_text "1e999" = true /\
  fromCSV "2025-01-01,1e999,4" 7 = Throw (bad_number 7) /\
  real_number_text "1e-310" = true /\
  fromCSV "2025-01-01,3,1e-310" 7 = Throw (bad_number 7).
Proof. repeat split; vm_compute; reflexivity. Qed.

(** ** The tax estimator *)

(** C7, as the code has it, in the arithmetic of [double].  Up to the
    allowance 12570 the tax is 0.  Above it and up to 50270 the tax is
    the product [(gross - 12570) * 0.2].  Above 50270 it is
    [7540 + ((gross - 12570) - 37700) * 0.4], the difference being formed
    in two steps, each rounded; for an income up to [2^54] the first
    step is exact and the result is
    [(50270 - 12570) * 0.2 + (gross - 50270) * 0.4].  At 12570, 50270 and
    60270 this gives exactly 0, 7540 and 11540. *)
Theorem estimateTaxYearly_bands (gross : double) :
  (dle gross (Num 12570) = true -> estimateTaxYearly gross = Num 0) /\
  (dlt (Num 12570) gross = true -> dle gross (Num 50270) = true ->
     estimateTaxYearly gross = dmul (dsub gross (Num 12570)) (Num 0.2)) /\
  (dlt (Num 50270) gross = true ->
     estimateTaxYearly gross
     = dadd (Num 7540)
            (dmul (dsub (dsub gross (Num 12570)) (Num 37700)) (Num 0.4))) /\
  (dlt (Num 50270) gross = true -> dle gross (Num 18014398509481984) = true ->
     estimateTaxYearly gross
     = dadd (dmul (dsub (Num 50270) (Num 12570)) (Num 0.2))
            (dmul (dsub gross (Num 50270)) (Num 0.4))) /\
  estimateTaxYearly (Num 12570) = Num 0 /\
  estimateTaxYearly (Num 50270) = Num 7540 /\
  estimateTaxYearly (Num 60270) = Num 11540.
Proof.
  split; [ | split; [ | split; [ | split; [ | repeat split; vm_compute; reflexivity ] ] ] ].
  - intro H. unfold estimateTaxYearly. rewrite H. reflexivity.
  - intros H1 H2. destruct gross as [x | s]; [ | discriminate H1 ].
    apply band_basic; assumption.
  - intro H. destruct gross as [x | s]; [ | discriminate H ].
    apply band_higher. exact H.
  - intros H1 H2. destruct gross as [x | s]; [ | discriminate H1 ].
    rewrite (band_higher x H1), (band_higher_exact x H1 H2). reflexivity.
Qed.

(** The bands at 30000 and at 80000. *)
Lemma estimateTaxYearly_bands_witness :
  estimateTaxYearly (Num 30000) = dmul (dsub (Num 30000) (Num 12570)) (Num 0.2) /\
  estimateTaxYearly (Num 80000)
  = dadd (dmul (dsub (Num 50270) (Num 12570)) (Num 0.2))
         (dmul (dsub (Num 80000) (Num 50270)) (Num 0.4)).
Proof.
  split.
  - apply (proj1 (proj2 (estimateTaxYearly_bands (Num 30000)))); reflexivity.
  - apply (proj1 (proj2 (proj2 (proj2 (estimateTaxYearly_bands (Num 80000))))));
      reflexivity.
Defined.

(** C7 as stated fails above [2^54]: at the income 18014398509532256 the
    code returns 7205759403800336, while the formula
    [(50270 - 12570) * 0.2 + (gross - 50270) * 0.4] gives
    7205759403800334 in the arithmetic of [double] (and 7205759403800334.4
    in exact arithmetic). *)
Lemma estimateTaxYearly_higher_band_rounding :
  dlt (Num 50270) (Num 18014398509532256) = true /\
  estimateTaxYearly (Num 18014398509532256) = Num 7205759403800336 /\
  dadd (dmul (dsub (Num 50270) (Num 12570)) (Num 0.2))
       (dmul (dsub (Num 18014398509532256) (Num 50270)) (Num 0.4))
  = Num 7205759403800334 /\
  deq (Num 7205759403800336) (Num 7205759403800334) = false /\
  5 * 7205759403800334 < 5 * 7540 + 2 * (18014398509532256 - 50270)
    < 5 * 7205759403800335.
Proof. repeat split; vm_compute; reflexivity. Qed.

(** ** The text of a line *)

Section MadeOf.

Variable P : ascii -> bool.

Lemma made_of_empty : made_of P EmptyString.
Proof. intros c []. Qed.

Lemma made_of_cons (x : ascii) (s : string) :
  P x = true -> made_of P s -> made_of P (String x s).
Proof. intros Hx Hs c [H | H]; [ subst; exact Hx | apply Hs; exact H ]. Qed.

Lemma made_of_tail (x : ascii) (s : string) : made_of P (String x s) -> made_of P s.
Proof. intros H c Hc. apply H. right. exact Hc. Qed.

Lemma made_of_app (a b : string) : made_of P a -> made_of P b -> made_of P (a ++ b).
Proof.
  intros Ha Hb c Hc. destruct (in_append _ _ _ Hc); [ apply Ha | apply Hb ]; assumption.
Qed.

Lemma made_of_substring (s : string) :
  forall pos len, made_of P s -> made_of P (substring pos len s).
Proof.
  induction s as [ | x s IH ]; intros pos len H.
  - destruct pos, len; exact made_of_empty.
  - destruct pos; cbn.
    + destruct len; [ exact made_of_empty | ].
      apply made_of_cons; [ apply H; left; reflexivity | ].
      apply IH. exact (made_of_tail _ _ H).
    + apply IH. exact (made_of_tail _ _ H).
Qed.

Lemma made_of_strip_zeros (s : string) : made_of P s -> made_of P (Std.strip_zeros s).
Proof.
  induction s as [ | x s IH ]; intro H; cbn; [ exact made_of_empty | ].
  pose proof (IH (made_of_tail _ _ H)) as Hs.
  assert (Hx : P x = true) by (apply H; left; reflexivity).
  destruct (Std.strip_zeros s).
  - destruct (Ascii.eqb x "0"); [ exact made_of_empty | ].
    apply made_of_cons; [ exact Hx | exact made_of_empty ].
  - apply made_of_cons; assumption.
Qed.

Lemma made_of_with_point (s : string) :
  P "." = true -> made_of P s -> made_of P (Std.with_point s).
Proof.
  intros Hp H. unfold Std.with_point.
  pose proof (made_of_strip_zeros s H) as Hs.
  destruct (Std.strip_zeros s); [ exact made_of_empty | ].
  apply made_of_cons; [ exact Hp | exact Hs ].
Qed.

End MadeOf.

Lemma digit_char_number (d : Z) : 0 <= d < 10 -> number_char (Std.digit_char d) = true.
Proof.
  intro H.
  assert (E : d = 0 \/ d = 1 \/ d = 2 \/ d = 3 \/ d = 4 \/
              d = 5 \/ d = 6 \/ d = 7 \/ d = 8 \/ d = 9) by lia.
  repeat (destruct E as [E | E]; [ subst d; reflexivity | ]).
  subst d; reflexivity.
Qed.

Lemma digits_fixed_number (width : nat) :
  forall n, made_of number_char (Std.digits_fixed width n).
Proof.
  induction width as [ | w IH ]; intro n; cbn; [ apply made_of_empty | ].
  apply made_of_app; [ apply IH | ].
  apply made_of_cons; [ | apply made_of_empty ].
  apply digit_char_number. apply Z.mod_pos_bound. lia.
Qed.

Lemma string_of_uint_number (d : Decimal.uint) :
  made_of number_char (NilEmpty.string_of_uint d).
Proof.
  induction d; cbn; try apply made_of_empty;
    (apply made_of_cons; [ reflexivity | assumption ]).
Qed.

Lemma to_string_number (n : N) : made_of number_char (Std.to_string n).
Proof.
  unfold Std.to_string, NilZero.string_of_uint.
  destruct (N.to_uint n) eqn:E; try apply string_of_uint_number.
  apply made_of_cons; [ reflexivity | apply made_of_empty ].
Qed.

Lemma exponent_text_number (x : Z) : made_of number_char (Std.exponent_text x).
Proof.
  unfold Std.exponent_text.
  apply made_of_app; [ | apply made_of_app ].
  - destruct (x <? 0); (apply made_of_cons; [ reflexivity | apply made_of_empty ]).
  - destruct (Z.abs x <? 10); [ | apply made_of_empty ].
    apply made_of_cons; [ reflexivity | apply made_of_empty ].
  - apply to_string_number.
Qed.

Lemma put_positive_number (n d : Z) : made_of number_char (Std.put_positive n d).
Proof.
  unfold Std.put_positive.
  destruct (Std.six_digits n d) as [m x].
  pose proof (digits_fixed_number 6 m) as D.
  destruct ((x <? -4) || (6 <=? x))%bool; [ | destruct (0 <=? x) ].
  - apply made_of_app; [ apply made_of_substring; exact D | ].
    apply made_of_app;
      [ apply made_of_with_point; [ reflexivity | apply made_of_substring; exact D ] | ].
    apply made_of_app; [ | apply exponent_text_number ].
    apply made_of_cons; [ reflexivity | apply made_of_empty ].
  - apply made_of_app; [ apply made_of_substring; exact D | ].
    apply made_of_with_point; [ reflexivity | apply made_of_substring; exact D ].
  - apply made_of_app.
    + apply made_of_cons; [ reflexivity | apply made_of_empty ].
    + apply made_of_with_point; [ reflexivity | ].
      apply made_of_app; [ apply digits_fixed_number | exact D ].
Qed.

Lemma made_of_check (P : ascii -> bool) (s : string) :
  forallb P (list_ascii_of_string s) = true -> made_of P s.
Proof. intros H c Hc. rewrite forallb_forall in H. exact (H c Hc). Qed.

Lemma minus_number (s : bool) : made_of number_char (Std.minus s).
Proof. destruct s; apply made_of_check; reflexivity. Qed.

(** A printed number holds digits, a point, signs and the letters of
    [e], [inf] and [nan] only. *)
Lemma put_double_number (v : double) : made_of number_char (Std.put_double v).
Proof.
  unfold Std.put_double. destruct v as [x | s].
  - destruct (Prim2SF x) as [s | s | | s m e].
    + apply made_of_app; [ apply minus_number | apply made_of_check; reflexivity ].
    + apply made_of_app; [ apply minus_number | apply made_of_check; reflexivity ].
    + apply made_of_check. reflexivity.
    + apply made_of_app; [ apply minus_number | ].
      destruct (0 <=? e); apply put_positive_number.
  - apply made_of_app; [ apply minus_number | apply made_of_check; reflexivity ].
Qed.

Lemma no_newline_put_double (v : double) : no_newline (Std.put_double v).
Proof.
  intros c Hc E. subst c.
  pose proof (put_double_number v _ Hc) as H. discriminate H.
Qed.

Lemma no_newline_app (a b : string) :
  no_newline a -> no_newline b -> no_newline (a ++ b).
Proof.
  intros Ha Hb c Hc. destruct (in_append _ _ _ Hc); [ apply Ha | apply Hb ]; assumption.
Qed.

Lemma no_newline_toCSV (s : Shift) :
  no_newline (date s) -> no_newline (note s) -> no_newline (toCSV s).
Proof.
  intros Hd Hn. unfold toCSV.
  assert (C : no_newline ",") by (intros c [E | []]; subst c; discriminate).
  repeat (apply no_newline_app; try assumption; try apply no_newline_put_double).
Qed.

Lemma getlines_line (l : string) :
  forall rest cur,
    no_newline l ->
    getlines (l ++ String "010" rest) cur = (cur ++ l) :: getlines rest EmptyString.
Proof.
  induction l as [ | c l IH ]; intros rest cur H.
  - cbn. rewrite append_empty_r. reflexivity.
  - cbn [append getlines].
    destruct (Ascii.eqb_spec c "010"%char) as [E | _].
    + exfalso. exact (H c (or_introl eq_refl) E).
    + rewrite IH by (intros c' Hc'; apply H; right; exact Hc').
      rewrite append_snoc. reflexivity.
Qed.

(** [getline] finds in the text [save] wrote the lines of the shifts. *)
Lemma getlines_write_lines (v : list Shift) :
  (forall s, In s v -> no_newline (toCSV s)) ->
  getlines (write_lines v) EmptyString = map toCSV v.
Proof.
  induction v as [ | s rest IH ]; intro H; [ reflexivity | ].
  cbn [write_lines map].
  change (String "010" EmptyString ++ write_lines rest)
    with (String "010" (write_lines rest)).
  rewrite getlines_line by (apply H; left; reflexivity).
  rewrite IH by (intros s' Hs'; apply H; right; exact Hs').
  reflexivity.
Qed.

Lemma toCSV_not_empty (s : Shift) : is_empty (toCSV s) = false.
Proof. unfold toCSV. destruct (date s); reflexivity. Qed.

Lemma append_assoc (a b c : string) : (a ++ b) ++ c = a ++ b ++ c.
Proof. induction a as [ | x a IH ]; cbn; [ reflexivity | rewrite IH; reflexivity ]. Qed.

Lemma concat_empty_cons (x : string) (l : list string) :
  String.concat EmptyString (x :: l) = x ++ String.concat EmptyString l.
Proof.
  destruct l; cbn [String.concat]; [ rewrite append_empty_r | ]; reflexivity.
Qed.

(** The text [save] writes is the encoded lines of the shifts, each with
    its newline, one after the other. *)
Lemma write_lines_encoded (v : list Shift) : write_lines v = encoded_lines v.
Proof.
  unfold encoded_lines.
  induction v as [ | s rest IH ]; [ reflexivity | ].
  cbn [write_lines map]. rewrite concat_empty_cons, IH, append_assoc.
  reflexivity.
Qed.

(** ** Tracker: [add] and the queries *)

(** C8: [add s], whatever the port does.  The collection becomes the old
    one with [s] at its end, one [save] of that whole collection is made
    through the port, and [add] returns or throws what [save] returned or
    threw; nothing undoes the append.  With [FileStorage] behind the port:
    when the file can be opened for writing, whatever it held is replaced
    by the encoded line of every shift of the whole collection, each
    followed by a newline, in collection order (read line by line, the
    new text gives back these encoded lines, one line a shift, when no
    date or note holds a newline); when it cannot, [add] throws
    [runtime_error] "Cannot open file for write: <path>", the file is left
    as it was, and the collection still ends with [s]. *)
Theorem add_appends_then_saves :
  (forall (St : Type) (port : IStorage St) (s : Shift) (t : Tracker St),
      shifts (fst (add port s t)) = (shifts t ++ [s])%list /\
      port_log (fst (add port s t))
        = (port_log t ++ [called_save (shifts t ++ [s])])%list /\
      storage (fst (add port s t))
        = fst (save port (shifts t ++ [s])%list (storage t)) /\
      snd (add port s t) = snd (save port (shifts t ++ [s])%list (storage t))) /\
  (forall (fs : FileStorage) (s : Shift) (t : Tracker Disk),
      let t' := fst (add (FileStorage_port fs) s t) in
      let r := snd (add (FileStorage_port fs) s t) in
      shifts t' = (shifts t ++ [s])%list /\
      (can_write (storage t) = true ->
         r = Ok tt /\
         file (storage t')
         = Some (String.concat EmptyString
                   (map (fun x => toCSV x ++ nl) (shifts t ++ [s]))) /\
         can_read (storage t') = can_read (storage t) /\
         can_write (storage t') = true /\
         (Forall (fun x => no_newline (date x) /\ no_newline (note x))
                 (shifts t ++ [s]) ->
          forall text, file (storage t') = Some text ->
          getlines text EmptyString = map toCSV (shifts t ++ [s]))) /\
      (can_write (storage t) = false ->
         r = Throw (runtime_error ("Cannot open file for write: " ++ path fs)) /\
         storage t' = storage t /\
         shifts t' = (shifts t ++ [s])%list)).
Proof.
  split.
  - intros St port s t. unfold add.
    destruct (save port (shifts t ++ [s])%list (storage t)) as [st' r].
    repeat split.
  - intros fs s t. unfold add, FileStorage_port. cbn [save].
    unfold FileStorage_save.
    destruct (can_write (storage t)) eqn:W; cbn [fst snd shifts storage file can_read can_write].
    + split; [ reflexivity | ].
      split; intro H; [ | discriminate H ].
      split; [ reflexivity | ].
      split; [ rewrite write_lines_encoded; reflexivity | ].
      split; [ reflexivity | split; [ reflexivity | ] ].
      intros F text E. inversion E. subst text.
      apply getlines_write_lines. intros x Hx.
      rewrite Forall_forall in F. destruct (F x Hx) as [Hd Hn].
      apply no_newline_toCSV; assumption.
    + split; [ reflexivity | ].
      split; intro H; [ discriminate H | repeat split ].
Qed.

(** [add] on a disk that cannot be written, and on one that can. *)
Lemma add_appends_then_saves_witness :
  (snd (add (FileStorage_port shifts_csv) lunch_shift
          (tracker_of around_jan_10 locked_disk))
     = Throw (runtime_error "Cannot open file for write: data/shifts.csv") /\
   storage (fst (add (FileStorage_port shifts_csv) lunch_shift
                   (tracker_of around_jan_10 locked_disk))) = locked_disk /\
   shifts (fst (add (FileStorage_port shifts_csv) lunch_shift
                  (tracker_of around_jan_10 locked_disk)))
     = (around_jan_10 ++ [lunch_shift])%list) /\
  (snd (add (FileStorage_port shifts_csv) lunch_shift
          (tracker_of around_jan_10 fresh_disk)) = Ok tt /\
   file (storage (fst (add (FileStorage_port shifts_csv) lunch_shift
                         (tracker_of around_jan_10 fresh_disk))))
     = Some ("2025-01-09,1,10," ++ nl ++
             "2025-01-10,2,10," ++ nl ++
             "2025-01-11,3,10," ++ nl ++
             "2025-10-01,7.5,12.3457,Lunch shift" ++ nl)).
Proof.
  split.
  - apply (proj2 (proj2 (proj2 add_appends_then_saves shifts_csv lunch_shift
                           (tracker_of around_jan_10 locked_disk)))).
    reflexivity.
  - destruct (proj1 (proj2 (proj2 add_appends_then_saves shifts_csv lunch_shift
                              (tracker_of around_jan_10 fresh_disk))) eq_refl)
      as (R & F & _).
    split; [ exact R | ]. rewrite F. vm_compute. reflexivity.
Defined.

(** C10: the five queries.  Whatever the sorting procedure, the arguments
    and the clock, a query returns the object as it was: the collection,
    the state behind the storage port and the log of port calls are
    unchanged, so no [load] and no [save] is made; the same holds after
    any sequence of queries. *)
Theorem queries_leave_tracker_unchanged :
  forall (St : Type) (std_sort : (Shift -> Shift -> bool) -> list Shift -> list Shift)
         (t : Tracker St),
    fst (listAllSorted std_sort t) = t /\
    (forall now days, fst (filterRecentDays now days t) = t) /\
    (forall v, fst (totalPay v t) = t) /\
    fst (monthlyTotals t) = t /\
    (forall threshold, fst (countHighPay threshold t) = t) /\
    (forall qs,
        after_queries std_sort qs t = t /\
        shifts (after_queries std_sort qs t) = shifts t /\
        storage (after_queries std_sort qs t) = storage t /\
        port_log (after_queries std_sort qs t) = port_log t).
Proof.
  intros St std_sort t.
  repeat (split; [ reflexivity || (intros; reflexivity) | ]).
  intro qs.
  assert (H : after_queries std_sort qs t = t).
  { induction qs as [ | q qs IH ]; [ reflexivity | ].
    unfold after_queries in *. cbn [fold_left].
    replace (after_query std_sort q t) with t by (destruct q; reflexivity).
    exact IH. }
  rewrite H. repeat split.
Qed.

(** ** File storage: [load] *)

Lemma fromCSV_throws (line : string) (ln : N) (e : exn) :
  fromCSV line ln = Throw e -> e = bad_csv ln \/ e = bad_number ln.
Proof.
  unfold fromCSV.
  destruct (List.length (split_fields line EmptyString) <? 3)%nat.
  - intro H. left. inversion H. reflexivity.
  - destruct (Std.stod (nth 1 (split_fields line EmptyString) EmptyString)) as [h | e1];
      cbn [bind].
    + destruct (Std.stod (nth 2 (split_fields line EmptyString) EmptyString)) as [r | e2];
        cbn [bind]; intro H; [ discriminate H | ].
      right. inversion H. reflexivity.
    + intro H. right. inversion H. reflexivity.
Qed.

(** The loop of [load] decodes the lines that are not empty, in order,
    each under its number in the file. *)
Lemma load_loop_decode_all (lines : list string) :
  forall (ln : N) (v : list Shift),
    load_loop lines ln v
    = (out <- decode_all (filter (fun p => negb (is_empty (snd p)))
                                 (numbered ln lines)) ;;
       Ok (v ++ out)%list).
Proof.
  induction lines as [ | line rest IH ]; intros ln v.
  - cbn. rewrite app_nil_r. reflexivity.
  - cbn [load_loop numbered filter snd].
    destruct (is_empty line); cbn [negb].
    + apply IH.
    + cbn [decode_all bind].
      destruct (fromCSV line (ln + 1)) as [s | e]; cbn [bind]; [ | reflexivity ].
      rewrite IH.
      destruct (decode_all _) as [out | e]; cbn [bind]; [ | reflexivity ].
      rewrite <- app_assoc. reflexivity.
Qed.

Lemma decode_all_throws (lines : list (N * string)) (e : exn) :
  decode_all lines = Throw e -> exists ln, e = bad_csv ln \/ e = bad_number ln.
Proof.
  induction lines as [ | [ln line] rest IH ]; cbn [decode_all]; [ discriminate | ].
  destruct (fromCSV line ln) as [s | e1] eqn:E; cbn [bind].
  - destruct (decode_all rest) as [v | e2]; cbn [bind]; [ discriminate | ].
    intro H. inversion H. subst. apply IH. reflexivity.
  - intro H. inversion H. subst. exists ln. exact (fromCSV_throws _ _ _ E).
Qed.

(** C3, as the code has it: [load] returns the empty collection, without
    error, whenever the file cannot be opened for reading: when there is
    no file, and also when the file exists but cannot be read.  [load]
    throws only what decoding a line throws. *)
Theorem load_unopenable_is_empty (fs : FileStorage) (d : Disk) :
  (file d = None -> FileStorage_load fs d = Ok []) /\
  (can_read d = false -> FileStorage_load fs d = Ok []) /\
  (forall e, FileStorage_load fs d = Throw e ->
             exists ln, e = bad_csv ln \/ e = bad_number ln).
Proof.
  unfold FileStorage_load, open_in.
  split; [ | split ].
  - intro H. rewrite H. reflexivity.
  - intro H. rewrite H. destruct (file d); reflexivity.
  - intro e. destruct (file d) as [text | ]; [ | discriminate ].
    destruct (can_read d); [ | discriminate ].
    rewrite load_loop_decode_all.
    destruct (decode_all _) as [out | e1] eqn:E; cbn [bind]; [ discriminate | ].
    intro H. inversion H. subst. exact (decode_all_throws _ _ E).
Qed.

(** First run (no file), and a file that is there but unreadable. *)
Lemma load_unopenable_is_empty_witness :
  FileStorage_load shifts_csv fresh_disk = Ok [] /\
  FileStorage_load shifts_csv locked_disk = Ok [].
Proof.
  split.
  - apply (proj1 (load_unopenable_is_empty shifts_csv fresh_disk)). reflexivity.
  - apply (proj1 (proj2 (load_unopenable_is_empty shifts_csv locked_disk))).
    reflexivity.
Defined.

(** C3 as stated fails: the file of [locked_disk] exists and cannot be
    read, and [load] throws nothing. *)
Lemma load_unreadable_no_error :
  (exists text, file locked_disk = Some text) /\
  can_read locked_disk = false /\
  ~ (exists e, FileStorage_load shifts_csv locked_disk = Throw e).
Proof.
  split; [ eexists; reflexivity | split; [ reflexivity | ] ].
  intros [e H]. vm_compute in H. discriminate H.
Qed.

(** C9, as the code has it: [load] skips exactly the lines of length zero
    and decodes every other line, in file order, under its 1-based number
    among all the lines.  Nothing is trimmed: a line that is not empty
    and holds only white space is decoded, and decoding it throws "Bad
    CSV at line n". *)
Theorem load_skips_empty_lines_only :
  (forall (fs : FileStorage) (d : Disk) (text : string),
      open_in d = Some text ->
      FileStorage_load fs d
      = decode_all (filter (fun p => negb (is_empty (snd p)))
                           (numbered 0 (getlines text EmptyString)))) /\
  (forall (line : string) (ln : N),
      line <> EmptyString -> all_space line ->
      is_empty line = false /\ fromCSV line ln = Throw (bad_csv ln)).
Proof.
  split.
  - intros fs d text H. unfold FileStorage_load. rewrite H.
    rewrite load_loop_decode_all.
    destruct (decode_all _); reflexivity.
  - intros line ln Hne Hsp. split.
    + destruct line; [ congruence | reflexivity ].
    + unfold fromCSV. rewrite split_fields_no_comma.
      * reflexivity.
      * intros c Hin Hc. apply Hsp in Hin. subst c. discriminate Hin.
Qed.

(** The theorem on a file with an empty second line, and on a line of
    three spaces. *)
Lemma load_skips_empty_lines_only_witness :
  FileStorage_load shifts_csv disk_with_empty_line
  = decode_all [(1%N, "2025-01-05,2,10,"); (3%N, "2025-01-20,3,10,x")] /\
  is_empty "   " = false /\
  fromCSV "   " 2 = Throw (bad_csv 2).
Proof.
  split.
  - apply (proj1 load_skips_empty_lines_only shifts_csv disk_with_empty_line
             ("2025-01-05,2,10," ++ nl ++ nl ++ "2025-01-20,3,10,x" ++ nl)).
    reflexivity.
  - apply (proj2 load_skips_empty_lines_only "   " 2%N).
    + discriminate.
    + intros c [H | [H | [H | []]]]; subst c; reflexivity.
Defined.

(** C9 as stated fails: the second line of [disk_with_blank_line] holds
    only white space, and [load] does not skip it but throws. *)
Lemma load_blank_line_is_an_error :
  all_space "   " /\
  FileStorage_load shifts_csv disk_with_blank_line = Throw (bad_csv 2) /\
  FileStorage_load shifts_csv disk_with_empty_line
  = Ok [mkShift "2025-01-05" 2 10 ""; mkShift "2025-01-20" 3 10 "x"].
Proof.
  split; [ | split; vm_compute; reflexivity ].
  intros c [H | [H | [H | []]]]; subst c; reflexivity.
Qed.
(** ** Dates: [parseISO] and [filterRecentDays] *)

Lemma read_digits_bound (s : string) :
  forall acc count v c rest,
    0 <= acc ->
    Std.read_digits s acc count = (v, c, rest) ->
    0 <= v < (acc + 1) * 10 ^ Z.of_nat (String.length s).
Proof.
  induction s as [ | a s IH ]; intros acc count v c rest Hacc H.
  - cbn in H. inversion H. subst. cbn. lia.
  - cbn [Std.read_digits] in H.
    assert (Hpow : 10 ^ Z.of_nat (String.length (String a s))
                   = 10 * 10 ^ Z.of_nat (String.length s)).
    { cbn [String.length]. rewrite Nat2Z.inj_succ, Z.pow_succ_r by lia. reflexivity. }
    assert (Hpos : 0 < 10 ^ Z.of_nat (String.length s)) by (apply Z.pow_pos_nonneg; lia).
    unfold Std.digit_value in H.
    destruct (Nat.leb 48 (nat_of_ascii a) && Nat.leb (nat_of_ascii a) 57)%bool eqn:D.
    + apply andb_true_iff in D. destruct D as [D1 D2].
      apply Nat.leb_le in D1. apply Nat.leb_le in D2.
      apply IH in H; [ | lia ].
      rewrite Hpow. nia.
    + inversion H. subst. rewrite Hpow. nia.
Qed.

Lemma skip_space_length (s : string) :
  (String.length (Std.skip_space s) <= String.length s)%nat.
Proof.
  induction s as [ | a s IH ]; cbn; [ lia | ].
  destruct (Std.isspace a); cbn; lia.
Qed.

Lemma read_sign_length (s : string) :
  (String.length (snd (Std.read_sign s)) <= String.length s)%nat.
Proof.
  destruct s as [ | a s ]; cbn; [ lia | ].
  destruct a as [[] [] [] [] [] [] [] []]; cbn; lia.
Qed.

Lemma substring_length (s : string) :
  forall pos len, (String.length (substring pos len s) <= len)%nat.
Proof.
  induction s as [ | a s IH ]; intros pos len.
  - destruct pos, len; cbn; lia.
  - destruct pos; cbn.
    + destruct len; cbn; [ lia | ]. specialize (IH 0%nat len). lia.
    + apply IH.
Qed.

(** On at most four characters [stoi] cannot leave the range of [int]:
    it fails only for want of a digit. *)
Lemma stoi_short (s : string) (e : exn) :
  (String.length s <= 4)%nat ->
  Std.stoi s = Throw e -> e = invalid_argument "stoi".
Proof.
  intros Hlen. unfold Std.stoi.
  pose proof (skip_space_length s) as H1.
  pose proof (read_sign_length (Std.skip_space s)) as H2.
  destruct (Std.read_sign (Std.skip_space s)) as [neg s1]. cbn [snd] in H2.
  destruct (Std.read_digits s1 0 0) as [[v count] rest] eqn:R.
  apply read_digits_bound in R; [ | lia ].
  assert (Hv : 0 <= v < 10 ^ 4).
  { split; [ lia | ].
    apply Z.lt_le_trans with (1 := proj2 R).
    rewrite Z.mul_1_l. apply Z.pow_le_mono_r; lia. }
  destruct count; [ intro H; inversion H; reflexivity | ].
  replace ((-2147483648 <=? (if neg then - v else v))
           && ((if neg then - v else v) <=? 2147483647))%bool with true.
  - discriminate.
  - symmetry. apply andb_true_iff. change (10 ^ 4) with 10000 in Hv.
    split; apply Z.leb_le; destruct neg; lia.
Qed.

(** C6, as the code has it: [parseISO] checks the length and nothing
    else.  A string of fewer than 10 characters gives the zero-filled
    [tm] without error.  On 10 characters or more the three fields are
    read by [stoi]: when all three conversions succeed the result holds
    them (year less 1900, month less 1, day); when one of them finds no
    number, [parseISO] throws [invalid_argument]. *)
Theorem parseISO_cases (ymd : string) :
  ((String.length ymd < 10)%nat -> parseISO ymd = Ok tm_zero) /\
  ((10 <= String.length ymd)%nat ->
     (forall y m d,
         Std.stoi (Std.substr 0 4 ymd) = Ok y ->
         Std.stoi (Std.substr 5 2 ymd) = Ok m ->
         Std.stoi (Std.substr 8 2 ymd) = Ok d ->
         parseISO ymd
         = Ok {| tm_year := y - 1900; tm_mon := m - 1; tm_mday := d;
                 tm_hour := 0; tm_min := 0; tm_sec := 0 |}) /\
     (forall e,
         Std.stoi (Std.substr 0 4 ymd) = Throw e \/
         Std.stoi (Std.substr 5 2 ymd) = Throw e \/
         Std.stoi (Std.substr 8 2 ymd) = Throw e ->
         parseISO ymd = Throw (invalid_argument "stoi"))).
Proof.
  unfold parseISO. split.
  - intro H. apply Nat.leb_gt in H. rewrite H. reflexivity.
  - intro H. apply Nat.leb_le in H. rewrite H. split.
    + intros y m d Hy Hm Hd. rewrite Hy, Hm, Hd. reflexivity.
    + intros e He.
      assert (Y : forall e', Std.stoi (Std.substr 0 4 ymd) = Throw e' ->
                             e' = invalid_argument "stoi")
        by (intro e'; apply stoi_short, substring_length).
      assert (M : forall e', Std.stoi (Std.substr 5 2 ymd) = Throw e' ->
                             e' = invalid_argument "stoi").
      { intro e'. apply stoi_short.
        pose proof (substring_length ymd 5 2). unfold Std.substr. lia. }
      assert (D : forall e', Std.stoi (Std.substr 8 2 ymd) = Throw e' ->
                             e' = invalid_argument "stoi").
      { intro e'. apply stoi_short.
        pose proof (substring_length ymd 8 2). unfold Std.substr. lia. }
      destruct (Std.stoi (Std.substr 0 4 ymd)) as [y | ey]; cbn [bind].
      2: { rewrite (Y ey eq_refl). reflexivity. }
      destruct (Std.stoi (Std.substr 5 2 ymd)) as [m | em]; cbn [bind].
      2: { rewrite (M em eq_refl). reflexivity. }
      destruct (Std.stoi (Std.substr 8 2 ymd)) as [d | ed]; cbn [bind].
      2: { rewrite (D ed eq_refl). reflexivity. }
      destruct He as [He | [He | He]]; discriminate He.
Qed.

(** A short string, a well-formed date, and a date with letters. *)
Lemma parseISO_cases_witness :
  parseISO "2025-1-1" = Ok tm_zero /\
  parseISO "2025-01-10"
  = Ok {| tm_year := 2025 - 1900; tm_mon := 1 - 1; tm_mday := 10;
          tm_hour := 0; tm_min := 0; tm_sec := 0 |} /\
  parseISO "2025-xx-10" = Throw (invalid_argument "stoi").
Proof.
  split; [ | split ].
  - apply (proj1 (parseISO_cases "2025-1-1")). cbn. lia.
  - apply (proj1 (proj2 (parseISO_cases "2025-01-10")
                    ltac:(cbn; lia))); reflexivity.
  - apply (proj2 (proj2 (parseISO_cases "2025-xx-10") ltac:(cbn; lia))
             (invalid_argument "stoi")).
    right. left. reflexivity.
Defined.

(** C6 as stated fails: on a string of 10 characters with letters for
    its numbers [parseISO] returns no [tm] but throws, and so does
    [filterRecentDays] on a collection holding such a date. *)
Lemma parseISO_letters_throw :
  String.length "abcd-ef-gh" = 10%nat /\
  ~ (exists t, parseISO "abcd-ef-gh" = Ok t) /\
  parseISO "abcd-ef-gh" = Throw (invalid_argument "stoi") /\
  snd (filterRecentDays noon_jan_10 7
         (tracker_of [mkShift "abcd-ef-gh" 1 10 ""] tt))
  = Throw (invalid_argument "stoi").
Proof.
  split; [ reflexivity | split; [ | split; vm_compute; reflexivity ] ].
  intros [t H]. vm_compute in H. discriminate H.
Qed.

Lemma copy_if_recent_filter (cutoff : Z) (l : list Shift) :
  forall out,
    (forall s, In s l -> exists ts, midnight s = Ok ts) ->
    copy_if_recent cutoff l out = Ok (out ++ filter (at_or_after cutoff) l)%list.
Proof.
  induction l as [ | s rest IH ]; intros out H.
  - cbn. rewrite app_nil_r. reflexivity.
  - cbn [copy_if_recent filter].
    destruct (H s (or_introl eq_refl)) as [ts Hts].
    unfold at_or_after at 1. rewrite Hts.
    unfold midnight in Hts.
    destruct (parseISO (date s)) as [t | e]; cbn [bind] in *; [ | discriminate Hts ].
    inversion Hts. subst ts.
    rewrite IH by (intros s' Hin; apply H; right; exact Hin).
    destruct (cutoff <=? utc_timegm t); [ | reflexivity ].
    rewrite <- app_assoc. reflexivity.
Qed.

Lemma at_or_after_day (now day : Z) :
  now <= 86400 * day <->
  now / 86400 < day \/ (day = now / 86400 /\ now mod 86400 = 0).
Proof.
  pose proof (Z.div_mod now 86400 ltac:(lia)) as E.
  pose proof (Z.mod_pos_bound now 86400 ltac:(lia)) as B.
  lia.
Qed.

(** C2, as the code has it: with the clock at [now] and every stored date
    readable, [filterRecentDays 0] returns, in collection order, exactly
    the shifts whose date, taken as midnight UTC, is at or after [now].
    So a shift dated on day [day] (days since the epoch) is returned when
    [day] is after today, or when [day] is today and [now] is exactly
    midnight; a shift dated today is left out at any later time of day,
    and so is every shift dated before today. *)
Theorem filterRecentDays_zero (St : Type) (now : Z) (t : Tracker St) :
  (forall s, In s (shifts t) -> exists ts, midnight s = Ok ts) ->
  filterRecentDays now 0 t = (t, Ok (filter (at_or_after now) (shifts t))) /\
  (forall s day,
      midnight s = Ok (86400 * day) ->
      (In s (filter (at_or_after now) (shifts t)) <->
       In s (shifts t) /\
       (now / 86400 < day \/ (day = now / 86400 /\ now mod 86400 = 0)))).
Proof.
  intro H. split.
  - unfold filterRecentDays.
    replace (now - 0 * 24 * 3600) with now by lia.
    rewrite copy_if_recent_filter by exact H. reflexivity.
  - intros s day Hs. rewrite filter_In. unfold at_or_after. rewrite Hs.
    rewrite Z.leb_le, at_or_after_day. reflexivity.
Qed.

Lemma around_jan_10_dates_parse (s : Shift) :
  In s around_jan_10 -> exists ts, midnight s = Ok ts.
Proof.
  intros [H | [H | [H | []]]]; subst s; eexists; vm_compute; reflexivity.
Qed.

(** The theorem at noon of 2025-01-10 on shifts dated the 9th, the 10th
    and the 11th: only the shift of the 11th is returned. *)
Lemma filterRecentDays_zero_witness :
  filterRecentDays noon_jan_10 0 (tracker_of around_jan_10 tt)
  = (tracker_of around_jan_10 tt,
     Ok (filter (at_or_after noon_jan_10) around_jan_10)) /\
  (forall s day,
      midnight s = Ok (86400 * day) ->
      (In s (filter (at_or_after noon_jan_10) around_jan_10) <->
       In s around_jan_10 /\
       (noon_jan_10 / 86400 < day \/
        (day = noon_jan_10 / 86400 /\ noon_jan_10 mod 86400 = 0)))).
Proof.
  apply (filterRecentDays_zero unit noon_jan_10 (tracker_of around_jan_10 tt)).
  exact around_jan_10_dates_parse.
Defined.

(** C2 as stated fails: at noon of 2025-01-10, [filterRecentDays 0]
    returns the shift dated 2025-01-11 and not the shift dated
    2025-01-10, although the latter is the one dated today. *)
Lemma filterRecentDays_zero_not_today :
  snd (filterRecentDays noon_jan_10 0 (tracker_of around_jan_10 tt))
  = Ok [mkShift "2025-01-11" 3 10 ""] /\
  midnight (mkShift "2025-01-10" 2 10 "") = Ok (86400 * (noon_jan_10 / 86400)) /\
  In (mkShift "2025-01-10" 2 10 "") around_jan_10 /\
  midnight (mkShift "2025-01-11" 3 10 "")
  = Ok (86400 * (noon_jan_10 / 86400 + 1)).
Proof.
  repeat split; try (vm_compute; reflexivity).
  right. left. reflexivity.
Qed.

(** ** Sorting: [listAllSorted] *)

Lemma ascii_compare_refl (a : ascii) : Ascii.compare a a = Eq.
Proof. unfold Ascii.compare. apply N.compare_refl. Qed.

Lemma ascii_compare_lt_trans (a b c : ascii) :
  Ascii.compare a b = Lt -> Ascii.compare b c = Lt -> Ascii.compare a c = Lt.
Proof.
  unfold Ascii.compare. rewrite !N.compare_lt_iff. apply N.lt_trans.
Qed.

Lemma string_compare_refl (s : string) : String.compare s s = Eq.
Proof.
  induction s as [ | a s IH ]; cbn; [ reflexivity | ].
  rewrite ascii_compare_refl. exact IH.
Qed.

Lemma string_compare_lt_trans (s1 : string) :
  forall s2 s3,
    String.compare s1 s2 = Lt -> String.compare s2 s3 = Lt ->
    String.compare s1 s3 = Lt.
Proof.
  induction s1 as [ | a s1 IH ]; intros [ | b s2 ] [ | c s3 ]; cbn;
    try discriminate; try reflexivity.
  destruct (Ascii.compare a b) eqn:Eab; try discriminate;
    destruct (Ascii.compare b c) eqn:Ebc; try discriminate; intros H12 H23.
  - apply Ascii.compare_eq_iff in Eab, Ebc. subst.
    rewrite ascii_compare_refl. exact (IH _ _ H12 H23).
  - apply Ascii.compare_eq_iff in Eab. subst. rewrite Ebc. reflexivity.
  - apply Ascii.compare_eq_iff in Ebc. subst. rewrite Eab. reflexivity.
  - rewrite (ascii_compare_lt_trans _ _ _ Eab Ebc). reflexivity.
Qed.

Lemma ltb_false_both (s1 s2 : string) :
  String.ltb s1 s2 = false -> String.ltb s2 s1 = false -> s1 = s2.
Proof.
  unfold String.ltb. rewrite (String.compare_antisym s2 s1).
  destruct (String.compare s1 s2) eqn:E; cbn; try discriminate.
  intros _ _. apply String.compare_eq_iff. exact E.
Qed.

Lemma ltb_irrefl (s : string) : String.ltb s s = false.
Proof. unfold String.ltb. rewrite string_compare_refl. reflexivity. Qed.

Lemma ltb_trans (s1 s2 s3 : string) :
  String.ltb s1 s2 = true -> String.ltb s2 s3 = true -> String.ltb s1 s3 = true.
Proof.
  unfold String.ltb.
  destruct (String.compare s1 s2) eqn:E12; try discriminate.
  destruct (String.compare s2 s3) eqn:E23; try discriminate.
  rewrite (string_compare_lt_trans _ _ _ E12 E23). reflexivity.
Qed.

Lemma ltb_false_leb (s1 s2 : string) :
  String.ltb s2 s1 = false -> String.leb s1 s2 = true.
Proof.
  unfold String.ltb, String.leb. rewrite (String.compare_antisym s2 s1).
  destruct (String.compare s1 s2); cbn; congruence.
Qed.

(** The comparison [a.date < b.date] is one [std::sort] accepts. *)
Lemma by_date_strict_weak_order : strict_weak_order by_date.
Proof.
  unfold by_date. split; [ | split ].
  - intro a. apply ltb_irrefl.
  - intros a b c. apply ltb_trans.
  - intros a b c Hab Hba Hbc Hcb.
    rewrite (ltb_false_both _ _ Hab Hba), (ltb_false_both _ _ Hbc Hcb).
    split; apply ltb_irrefl.
Qed.

Section InsertionSort.

Context {A : Type} (lt : A -> A -> bool).
Hypothesis lt_order : strict_weak_order lt.

Lemma lt_asym (a b : A) : lt a b = true -> lt b a = false.
Proof.
  destruct lt_order as (Hirr & Htr & _). intro H.
  destruct (lt b a) eqn:E; [ | reflexivity ].
  rewrite <- (Hirr a). symmetry. exact (Htr _ _ _ H E).
Qed.

Lemma insert_behind_perm (x : A) (l : list A) :
  Permutation (x :: l) (insert_behind lt x l).
Proof.
  induction l as [ | y rest IH ]; cbn; [ apply Permutation_refl | ].
  destruct (lt x y); [ apply Permutation_refl | ].
  apply perm_trans with (y :: x :: rest); [ apply perm_swap | ].
  apply perm_skip. exact IH.
Qed.

Lemma insert_behind_sorted (x : A) (l : list A) :
  StronglySorted (fun a b => lt b a = false) l ->
  StronglySorted (fun a b => lt b a = false) (insert_behind lt x l).
Proof.
  destruct lt_order as (Hirr & Htr & _).
  induction l as [ | y rest IH ]; intro H; cbn.
  - constructor; constructor.
  - apply StronglySorted_inv in H. destruct H as [Hrest Hy].
    destruct (lt x y) eqn:E.
    + constructor; [ constructor; assumption | ].
      constructor; [ apply lt_asym; exact E | ].
      rewrite Forall_forall in Hy |- *. intros z Hz.
      destruct (lt z x) eqn:Ezx; [ | reflexivity ].
      rewrite <- (Hy z Hz). symmetry. exact (Htr _ _ _ Ezx E).
    + constructor; [ apply IH; exact Hrest | ].
      apply (Permutation_Forall (insert_behind_perm x rest)).
      constructor; assumption.
Qed.

Lemma insertion_sort_loop_perm (l : list A) :
  forall sorted,
    Permutation (sorted ++ l)%list
      (fold_left (fun sorted x => insert_behind lt x sorted) l sorted).
Proof.
  induction l as [ | x rest IH ]; intro sorted; cbn [fold_left].
  - rewrite app_nil_r. apply Permutation_refl.
  - apply perm_trans with (2 := IH (insert_behind lt x sorted)).
    apply perm_trans with ((x :: sorted) ++ rest)%list.
    + apply Permutation_sym, Permutation_middle.
    + apply Permutation_app_tail, insert_behind_perm.
Qed.

Lemma insertion_sort_loop_sorted (l : list A) :
  forall sorted,
    StronglySorted (fun a b => lt b a = false) sorted ->
    StronglySorted (fun a b => lt b a = false)
      (fold_left (fun sorted x => insert_behind lt x sorted) l sorted).
Proof.
  induction l as [ | x rest IH ]; intros sorted H; cbn [fold_left];
    [ exact H | ].
  apply IH, insert_behind_sorted, H.
Qed.

Lemma insertion_sort_perm (l : list A) : Permutation l (insertion_sort lt l).
Proof. exact (insertion_sort_loop_perm l []). Qed.

Lemma insertion_sort_sorted (l : list A) :
  StronglySorted (fun a b => lt b a = false) (insertion_sort lt l).
Proof. apply insertion_sort_loop_sorted. constructor. Qed.

End InsertionSort.

Lemma StronglySorted_weaken {A : Type} (R R' : A -> A -> Prop) (l : list A) :
  (forall a b, R a b -> R' a b) -> StronglySorted R l -> StronglySorted R' l.
Proof.
  intros HR H. induction H as [ | a l Hl IH Ha ]; constructor; [ exact IH | ].
  rewrite Forall_forall in Ha |- *. intros b Hb. apply HR, Ha, Hb.
Qed.

(** The insertion sort is a sorting procedure as the standard describes
    [std::sort]. *)
Lemma insertion_sort_contract : sort_contract insertion_sort.
Proof.
  intros lt l H. split.
  - apply insertion_sort_perm.
  - apply insertion_sort_sorted. exact H.
Qed.

(** C4, as the code has it: whichever procedure stands behind
    [std::sort], [listAllSorted] leaves the collection as it is and
    returns a rearrangement of it in ascending order of the date string
    (each date at most the dates after it).  Which of two shifts of the
    same date comes first is not fixed. *)
Theorem listAllSorted_ascending_permutation
    (St : Type)
    (std_sort : (Shift -> Shift -> bool) -> list Shift -> list Shift)
    (t : Tracker St) :
  sort_contract std_sort ->
  exists out,
    listAllSorted std_sort t = (t, Ok out) /\
    Permutation (shifts t) out /\
    StronglySorted (fun a b => String.leb (date a) (date b) = true) out.
Proof.
  intro H. exists (std_sort by_date (shifts t)).
  destruct (H by_date (shifts t) by_date_strict_weak_order) as [Hperm Hsorted].
  split; [ reflexivity | split; [ exact Hperm | ] ].
  apply StronglySorted_weaken with (2 := Hsorted).
  intros a b Hba. apply ltb_false_leb. exact Hba.
Qed.

(** The theorem with the insertion sort, on the three shifts dated
    2025-03-01, 2025-01-10, 2025-01-10. *)
Lemma listAllSorted_ascending_permutation_witness :
  exists out,
    listAllSorted insertion_sort (tracker_of march_then_january tt)
    = (tracker_of march_then_january tt, Ok out) /\
    Permutation march_then_january out /\
    StronglySorted (fun a b => String.leb (date a) (date b) = true) out.
Proof.
  apply (listAllSorted_ascending_permutation unit insertion_sort
           (tracker_of march_then_january tt)).
  exact insertion_sort_contract.
Defined.


(** C4 as stated fails: [std::sort] of libstdc++ is not stable.  Of
    seventeen shifts of one day, entered with the notes [a] to [q],
    [listAllSorted] returns the ninth first and the others in an order
    that is not the order of entry.  (On the three shifts of the claim's
    example it does keep the two shifts of 2025-01-10 in their order:
    up to sixteen elements it sorts by insertion.) *)
Lemma listAllSorted_not_stable :
  snd (listAllSorted Libstdcxx.sort (tracker_of seventeen_shifts tt))
  = Ok (one_day ["i"; "q"; "p"; "o"; "n"; "m"; "l"; "k"; "j"; "a"; "h"; "g";
                 "f"; "e"; "d"; "c"; "b"]) /\
  (forall s, In s seventeen_shifts -> date s = "2025-01-10") /\
  ~ keeps_order_of_equal_dates seventeen_shifts
      (one_day ["i"; "q"; "p"; "o"; "n"; "m"; "l"; "k"; "j"; "a"; "h"; "g";
                "f"; "e"; "d"; "c"; "b"]) /\
  snd (listAllSorted Libstdcxx.sort (tracker_of march_then_january tt))
  = Ok [ mkShift "2025-01-10" 5 10 "b";
         mkShift "2025-01-10" 6 10 "c";
         mkShift "2025-03-01" 4 10 "a" ].
Proof.
  split; [ vm_compute; reflexivity | split; [ | split; [ | vm_compute; reflexivity ] ] ].
  - unfold seventeen_shifts, one_day. intros s Hs.
    apply in_map_iff in Hs. destruct Hs as (n & E & _). subst s. reflexivity.
  - intro H. specialize (H "2025-01-10"). vm_compute in H. discriminate H.
Qed.

(** ** Sample runs *)

Example monthlyTotals_sample :
  snd (monthlyTotals
         (tracker_of [ mkShift "2025-01-05" 2 10 "";
                       mkShift "2025-01-20" 3 10 "";
                       mkShift "2025-02-01" 1 10 "" ] tt))
  = Ok [("2025-01", Num 50); ("2025-02", Num 10)].
Proof. vm_compute. reflexivity. Qed.

Example countHighPay_sample :
  snd (countHighPay (Num 100)
         (tracker_of [ mkShift "2025-01-05" 5 10 "";
                       mkShift "2025-01-06" 10 10 "";
                       mkShift "2025-01-07" 15 10 "" ] tt))
  = Ok 2%nat.
Proof. vm_compute. reflexivity. Qed.

(** First run: the constructor on a disk without file, one [add], then a
    second constructor on the disk the first left. *)
Example add_then_construct :
  let port := FileStorage_port shifts_csv in
  let s := mkShift "2025-10-01" 5.5 12.5 "Lunch shift" in
  match construct port fresh_disk with
  | Ok t =>
      shifts t = [] /\
      file (storage (fst (add port s t)))
      = Some ("2025-10-01,5.5,12.5,Lunch shift" ++ nl) /\
      match construct port (storage (fst (add port s t))) with
      | Ok t' => shifts t' = [s]
      | Throw _ => False
      end
  | Throw _ => False
  end.
Proof. vm_compute. repeat split. Qed.

(** [--summary] and [--list] on a file of three shifts. *)
Example summary_sample :
  let d := {| file := Some ("2025-01-05,80,12.5,a" ++ nl ++
                            "2025-01-06,7.5,14,b" ++ nl ++
                            "2025-01-04,10,11.25,c" ++ nl);
              can_read := true; can_write := true |} in
  stdout (main Libstdcxx.sort noon_jan_10 ["--summary"] d)
  = "Shifts: 3" ++ nl ++
    "Gross (pretax): 1217.5" ++ nl ++
    "Very rough PAYE estimate (yearly scaled): 50.1154 (for demo)" ++ nl ++
    ">=" ++ String "194" (String "163" "100 shifts: 3") ++ nl /\
  stdout (main Libstdcxx.sort noon_jan_10 ["--list"] d)
  = "2025-01-04,10,11.25,c" ++ nl ++
    "2025-01-05,80,12.5,a" ++ nl ++
    "2025-01-06,7.5,14,b" ++ nl.
Proof. vm_compute. split; reflexivity. Qed.

(** * Further properties *)

(** ** Fields of a line *)

Lemma no_comma_check (s : string) :
  existsb (Ascii.eqb ",") (list_ascii_of_string s) = false -> no_comma s.
Proof.
  intros H c Hc Hcomma. subst c.
  assert (E : existsb (Ascii.eqb ",") (list_ascii_of_string s) = true).
  { apply existsb_exists. exists ","%char. split; [ exact Hc | apply Ascii.eqb_refl ]. }
  congruence.
Qed.

Lemma split_fields_not_nil (line cur : string) : split_fields line cur <> [].
Proof.
  revert cur. induction line as [ | c rest IH ]; intro cur; cbn; [ discriminate | ].
  destruct (Ascii.eqb c ","); [ discriminate | apply IH ].
Qed.

Lemma split_fields_concat (line : string) :
  forall cur, String.concat "," (split_fields line cur) = cur ++ line.
Proof.
  induction line as [ | c rest IH ]; intro cur.
  - cbn. rewrite append_empty_r. reflexivity.
  - cbn [split_fields].
    destruct (Ascii.eqb_spec c ","%char) as [Heq | Hne].
    + subst c. specialize (IH EmptyString).
      destruct (split_fields rest EmptyString) as [ | f fs ] eqn:E.
      * exfalso. exact (split_fields_not_nil _ _ E).
      * change (String.concat "," (cur :: f :: fs))
          with (cur ++ "," ++ String.concat "," (f :: fs)).
        rewrite IH. reflexivity.
    + rewrite IH. apply append_snoc.
Qed.

Lemma split_fields_length (line : string) :
  forall cur,
    List.length (split_fields line cur)
    = S (List.length (filter (Ascii.eqb ",") (list_ascii_of_string line))).
Proof.
  induction line as [ | c rest IH ]; intro cur; [ reflexivity | ].
  cbn [split_fields list_ascii_of_string filter].
  rewrite (Ascii.eqb_sym "," c).
  destruct (Ascii.eqb c ","); cbn [List.length]; rewrite IH; reflexivity.
Qed.

Lemma split_fields_no_commas (line : string) :
  forall cur f, no_comma cur -> In f (split_fields line cur) -> no_comma f.
Proof.
  induction line as [ | c rest IH ]; intros cur f Hcur Hin.
  - destruct Hin as [H | []]. subst f. exact Hcur.
  - cbn [split_fields] in Hin.
    destruct (Ascii.eqb_spec c ","%char) as [Heq | Hne].
    + destruct Hin as [H | H]; [ subst f; exact Hcur | ].
      exact (IH _ _ no_comma_empty H).
    + apply (IH (cur ++ String c EmptyString)); [ | exact Hin ].
      apply no_comma_app; [ exact Hcur | ].
      apply no_comma_cons; [ exact Hne | exact no_comma_empty ].
Qed.

(** X1: the loop of [fromCSV] cuts a line into one field more than the
    line has commas; no field holds a comma, and the fields joined by
    commas are the line again. *)
Theorem split_fields_join (line : string) :
  String.concat "," (split_fields line EmptyString) = line /\
  List.length (split_fields line EmptyString)
  = S (List.length (filter (Ascii.eqb ",") (list_ascii_of_string line))) /\
  (forall f, In f (split_fields line EmptyString) -> no_comma f).
Proof.
  split; [ apply split_fields_concat | split; [ apply split_fields_length | ] ].
  intros f Hf. exact (split_fields_no_commas _ _ _ no_comma_empty Hf).
Qed.

(** ** Encoding, then decoding *)

(** The part of a note before its first comma. *)
Lemma first_field_prefix (a b : string) :
  no_comma a ->
  nth 0 (split_fields (a ++ String "," b) EmptyString) EmptyString = a.
Proof.
  intro H. rewrite split_fields_field by exact H. reflexivity.
Qed.

(** X2: what [fromCSV] makes of the line [toCSV] writes, for a shift
    whose date has no comma: the same date, the two numbers as [stod]
    reads the printed ones, and for note the first field of the original
    note.  A note [a,b] comes back as [a]: the comma and what follows it
    are lost. *)
Theorem fromCSV_toCSV_cuts_note (s : Shift) (ln : N) :
  no_comma (date s) ->
  fromCSV (toCSV s) ln
  = match (h <- Std.stod (Std.put_double (hours s)) ;;
           r <- Std.stod (Std.put_double (hourlyRate s)) ;;
           Ok (h, r)) with
    | Ok (h, r) =>
        Ok {| date := date s; hours := h; hourlyRate := r;
              note := nth 0 (split_fields (note s) EmptyString) EmptyString |}
    | Throw _ => Throw (bad_number ln)
    end /\
  (forall a b, note s = a ++ String "," b -> no_comma a ->
               nth 0 (split_fields (note s) EmptyString) EmptyString = a).
Proof.
  intro Hd. split.
  - unfold fromCSV, toCSV.
    change ("," ++ ?x) with (String "," x).
    cbn [append].
    rewrite (split_fields_field (date s)) by exact Hd.
    rewrite (split_fields_field (Std.put_double (hours s))) by apply no_comma_put_double.
    rewrite (split_fields_field (Std.put_double (hourlyRate s))) by apply no_comma_put_double.
    cbn [append].
    destruct (split_fields (note s) EmptyString) as [ | f fs ] eqn:E.
    + exfalso. exact (split_fields_not_nil _ _ E).
    + reflexivity.
  - intros a b Hn Ha. rewrite Hn. apply first_field_prefix. exact Ha.
Qed.

(** The theorem at a shift whose note is [early, then late]. *)
Lemma fromCSV_toCSV_cuts_note_witness :
  fromCSV (toCSV (mkShift "2025-10-01" 5.5 12.5 "early, then late")) 1
  = Ok (mkShift "2025-10-01" 5.5 12.5 "early").
Proof.
  rewrite (proj1 (fromCSV_toCSV_cuts_note
                    (mkShift "2025-10-01" 5.5 12.5 "early, then late") 1
                    (no_comma_check "2025-10-01" eq_refl))).
  reflexivity.
Defined.

(** X3: the round trip holds for every shift without comma in its date
    and note whose two numbers are read back as they were printed: then
    [fromCSV (toCSV s)] returns a shift equal to [s] field for field. *)
Theorem fromCSV_toCSV_round_trip (s : Shift) (ln : N) (h r : double) :
  no_comma (date s) -> no_comma (note s) ->
  Std.stod (Std.put_double (hours s)) = Ok h -> deq h (hours s) = true ->
  Std.stod (Std.put_double (hourlyRate s)) = Ok r -> deq r (hourlyRate s) = true ->
  exists s', fromCSV (toCSV s) ln = Ok s' /\ Shift_eq s' s.
Proof.
  intros Hd Hn Hh Eh Hr Er.
  rewrite fromCSV_toCSV_fields by assumption.
  rewrite Hh, Hr. cbn [bind].
  eexists. split; [ reflexivity | ].
  repeat split; assumption.
Qed.

(** The round trip at the shift of the help text. *)
Lemma fromCSV_toCSV_round_trip_witness :
  exists s',
    fromCSV (toCSV (mkShift "2025-10-01" 5.5 12.5 "Lunch shift")) 1 = Ok s' /\
    Shift_eq s' (mkShift "2025-10-01" 5.5 12.5 "Lunch shift").
Proof.
  apply (fromCSV_toCSV_round_trip
           (mkShift "2025-10-01" 5.5 12.5 "Lunch shift") 1 (Num 5.5) (Num 12.5)).
  - apply no_comma_check. reflexivity.
  - apply no_comma_check. reflexivity.
  - vm_compute. reflexivity.
  - reflexivity.
  - vm_compute. reflexivity.
  - reflexivity.
Defined.

(** ** Sums and counts over shifts *)

Lemma same_double_refl (a : double) : same_double a a.
Proof. destruct a; cbn; auto. Qed.

Lemma sum_pay_snoc (v : list Shift) (s : Shift) :
  sum_pay (v ++ [s]) = dadd (sum_pay v) (pay s).
Proof. unfold sum_pay. rewrite fold_left_app. reflexivity. Qed.

(** X4: [totalPay] adds the pays from the left, starting from [0.0]: the
    total of no shift is 0, and a further shift at the end adds its pay
    to the total of those before it (the same [double], but for the sign
    of a NaN).  The order of the shifts matters: the pays 0.1, 0.2 and
    0.3 add up to 0.6000000000000001 in this order and to 0.6 in the
    opposite order. *)
Theorem totalPay_left_to_right (St : Type) (t : Tracker St) :
  totalPay [] t = (t, Ok (Num 0)) /\
  (forall v s q,
      snd (totalPay v t) = Ok q ->
      exists q',
        totalPay (v ++ [s]) t = (t, Ok q') /\ same_double q' (dadd q (pay s))) /\
  totalPay [ mkShift "2025-01-01" 1 0.1 ""; mkShift "2025-01-02" 1 0.2 "";
             mkShift "2025-01-03" 1 0.3 "" ] t
  = (t, Ok (Num 0.6000000000000001)) /\
  totalPay [ mkShift "2025-01-03" 1 0.3 ""; mkShift "2025-01-02" 1 0.2 "";
             mkShift "2025-01-01" 1 0.1 "" ] t
  = (t, Ok (Num 0.6)).
Proof.
  split; [ reflexivity | split; [ | split; unfold totalPay; f_equal; f_equal; vm_compute; reflexivity ] ].
  intros v s q H. unfold totalPay in *. cbn [snd] in H. inversion H.
  eexists. split; [ reflexivity | ].
  rewrite fold_left_app. apply same_double_refl.
Qed.

(** The total of two shifts from the total of the first. *)
Lemma totalPay_left_to_right_witness :
  exists q',
    totalPay ([mkShift "2025-01-01" 1 0.1 ""] ++ [mkShift "2025-01-02" 1 0.2 ""])
      (tracker_of [] tt)
    = (tracker_of [] tt, Ok q') /\
    same_double q' (dadd (Num 0.1) (pay (mkShift "2025-01-02" 1 0.2 ""))).
Proof.
  apply (proj1 (proj2 (totalPay_left_to_right unit (tracker_of [] tt)))).
  vm_compute. reflexivity.
Defined.

Lemma filter_length_bound {A : Type} (p : A -> bool) (l : list A) :
  (List.length (filter p l) <= List.length l)%nat.
Proof.
  induction l as [ | x rest IH ]; cbn [filter]; [ lia | ].
  destruct (p x); cbn; lia.
Qed.

Lemma filter_length_mono {A : Type} (p q : A -> bool) (l : list A) :
  (forall x, In x l -> p x = true -> q x = true) ->
  (List.length (filter p l) <= List.length (filter q l))%nat.
Proof.
  induction l as [ | x rest IH ]; intro H; cbn [filter]; [ lia | ].
  assert (IH' := IH (fun y Hy => H y (or_intror Hy))).
  destruct (p x) eqn:P.
  - rewrite (H x (or_introl eq_refl) P). cbn. lia.
  - destruct (q x); cbn; lia.
Qed.

Lemma filter_all {A : Type} (p : A -> bool) (l : list A) :
  List.length (filter p l) = List.length l <-> (forall x, In x l -> p x = true).
Proof.
  induction l as [ | x rest IH ]; cbn [filter].
  - split; [ intros _ y [] | reflexivity ].
  - pose proof (filter_length_bound p rest) as B.
    destruct (p x) eqn:P; cbn [List.length].
    + split.
      * intros E y [Hy | Hy]; [ subst y; exact P | ].
        apply IH; [ lia | exact Hy ].
      * intro H. f_equal. apply IH. intros y Hy. apply H. right. exact Hy.
    + split; [ lia | ]. intro H. rewrite (H x (or_introl eq_refl)) in P. discriminate P.
Qed.

Lemma filter_none {A : Type} (p : A -> bool) (l : list A) :
  List.length (filter p l) = 0%nat <-> (forall x, In x l -> p x = false).
Proof.
  induction l as [ | x rest IH ]; cbn [filter].
  - split; [ intros _ y [] | reflexivity ].
  - destruct (p x) eqn:P; cbn [List.length].
    + split; [ discriminate | ]. intro H. rewrite (H x (or_introl eq_refl)) in P.
      discriminate P.
    + rewrite IH. split.
      * intros H y [Hy | Hy]; [ subst y; exact P | apply H; exact Hy ].
      * intros H y Hy. apply H. right. exact Hy.
Qed.

Lemma dle_trans (a b c : double) :
  dle a b = true -> dle b c = true -> dle a c = true.
Proof.
  destruct a as [x | ], b as [y | ], c as [z | ]; cbn [dle]; try discriminate.
  rewrite !leb_rank. intros (Nx & Ny & L1) (_ & Nz & L2).
  split; [ exact Nx | split; [ exact Nz | lia ] ].
Qed.

(** X5: [countHighPay] counts the shifts whose pay is at least the
    threshold, in the arithmetic and the order of [double].  It counts
    nothing in an empty collection, and [add] raises the count by one
    when the pay of the new shift is at least the threshold and leaves
    it as it was otherwise; so the count is at most the size of the
    collection, equal to it exactly when every pay reaches the threshold
    and 0 exactly when none does; it does not rise when the threshold
    does; a threshold that is a NaN counts nothing.  The pay is the
    rounded product: a shift of 4.35 hours at 100 is paid
    434.99999999999994 and is not counted from 435 on, while one of 10
    hours at 10 is counted at 100. *)
Theorem countHighPay_counts (St : Type) (t : Tracker St) :
  (shifts t = [] -> forall threshold, countHighPay threshold t = (t, Ok O)) /\
  (forall (port : IStorage St) s threshold n,
      snd (countHighPay threshold t) = Ok n ->
      snd (countHighPay threshold (fst (add port s t)))
      = Ok (if dge (pay s) threshold then S n else n)) /\
  (forall threshold n,
      snd (countHighPay threshold t) = Ok n ->
      (n <= List.length (shifts t))%nat /\
      (n = List.length (shifts t) <->
       forall s, In s (shifts t) -> dge (pay s) threshold = true) /\
      (n = O <-> forall s, In s (shifts t) -> dge (pay s) threshold = false)) /\
  (forall low high n_low n_high,
      dle low high = true ->
      snd (countHighPay low t) = Ok n_low ->
      snd (countHighPay high t) = Ok n_high ->
      (n_high <= n_low)%nat) /\
  (forall sign, countHighPay (NaN sign) t = (t, Ok O)) /\
  pay (mkShift "2025-01-05" 4.35 100 "") = Num 434.99999999999994 /\
  (forall u : Tracker St,
      shifts u = [mkShift "2025-01-05" 4.35 100 ""; mkShift "2025-01-06" 10 10 ""] ->
      countHighPay (Num 435) u = (u, Ok O) /\
      countHighPay (Num 100) u = (u, Ok 2%nat)).
Proof.
  split; [ | split; [ | split; [ | split; [ | split; [ | split ] ] ] ] ].
  - intros E threshold. unfold countHighPay. rewrite E. reflexivity.
  - intros port s threshold n H. unfold countHighPay in *. cbn [snd] in *.
    inversion H as [Hn].
    assert (E : shifts (fst (add port s t)) = (shifts t ++ [s])%list).
    { unfold add. destruct (save port (shifts t ++ [s])%list (storage t)). reflexivity. }
    rewrite E, filter_app, length_app. cbn [filter].
    destruct (dge (pay s) threshold); cbn [List.length]; f_equal; lia.
  - intros threshold n H. unfold countHighPay in H. cbn [snd] in H.
    inversion H as [Hn]. clear H.
    split; [ apply filter_length_bound | split ].
    + apply filter_all.
    + apply filter_none.
  - intros low high n_low n_high Hle Hlow Hhigh.
    unfold countHighPay in Hlow, Hhigh. cbn [snd] in Hlow, Hhigh.
    inversion Hlow. inversion Hhigh.
    apply filter_length_mono. intros s _ Hs.
    unfold dge in *. exact (dle_trans _ _ _ Hle Hs).
  - intro sign. unfold countHighPay. f_equal. f_equal.
    apply filter_none. intros s _. unfold dge, dle. reflexivity.
  - vm_compute. reflexivity.
  - intros u E. unfold countHighPay. rewrite E. split; reflexivity.
Qed.

(** The thresholds 45 and 55 on shifts paid 40, 50 and 60, and a shift
    paid 40 added at the threshold 45. *)
Lemma countHighPay_counts_witness :
  (value_of (snd (countHighPay (Num 55) (tracker_of march_then_january tt))) O
   <= value_of (snd (countHighPay (Num 45) (tracker_of march_then_january tt))) O)%nat /\
  snd (countHighPay (Num 45)
         (fst (add (FileStorage_port shifts_csv) (mkShift "2025-03-02" 4 10 "d")
                 (tracker_of march_then_january fresh_disk))))
  = Ok 2%nat.
Proof.
  split.
  - apply (proj1 (proj2 (proj2 (proj2
             (countHighPay_counts unit (tracker_of march_then_january tt)))))
             (Num 45) (Num 55) _ _); reflexivity.
  - apply (proj1 (proj2 (countHighPay_counts Disk
             (tracker_of march_then_january fresh_disk)))
             (FileStorage_port shifts_csv) (mkShift "2025-03-02" 4 10 "d")
             (Num 45) 2%nat).
    reflexivity.
Defined.

(** ** The tax estimate as a function of the income *)

(** X6: in the arithmetic of [double], [estimateTaxYearly] is never
    negative and never a NaN, whatever it is given, and never decreases
    when the income rises. *)
Theorem estimateTaxYearly_monotone (g1 g2 : double) :
  dle (Num 0) (estimateTaxYearly g1) = true /\
  (dle g1 g2 = true ->
   dle (estimateTaxYearly g1) (estimateTaxYearly g2) = true).
Proof.
  assert (Z0 : forall g, dle (Num 0) (estimateTaxYearly g) = true).
  { intros [x | s]; [ | destruct s; reflexivity ].
    destruct (not_nan (Prim2SF x)) eqn:Nn.
    - destruct (tax_rank_spec x Nn) as (r & E & Nr & R).
      rewrite E. cbn [dle]. apply leb_rank.
      split; [ reflexivity | split; [ exact Nr | ] ].
      rewrite R. change (frank 0) with 0. apply tax_rank_nonneg.
    - rewrite (tax_of_nan x Nn). reflexivity. }
  split; [ apply Z0 | ].
  intro H. destruct g1 as [x | ], g2 as [y | ]; try discriminate H.
  cbn [dle] in H. apply leb_rank in H. destruct H as (Nx & Ny & L).
  destruct (tax_rank_spec x Nx) as (rx & Ex & Nrx & Rx).
  destruct (tax_rank_spec y Ny) as (ry & Ey & Nry & Ry).
  rewrite Ex, Ey. cbn [dle]. apply leb_rank.
  split; [ exact Nrx | split; [ exact Nry | ] ].
  rewrite Rx, Ry. apply tax_rank_mono. exact L.
Qed.

(** From an income of 30000 to one of 80000. *)
Lemma estimateTaxYearly_monotone_witness :
  dle (estimateTaxYearly (Num 30000)) (estimateTaxYearly (Num 80000)) = true.
Proof.
  apply (proj2 (estimateTaxYearly_monotone (Num 30000) (Num 80000))).
  reflexivity.
Defined.

(** ** Monthly totals *)

Lemma ltb_neq (a b : string) : String.ltb a b = true -> a <> b.
Proof. intros H E. subst. rewrite ltb_irrefl in H. discriminate H. Qed.

Lemma map_find_below (k : string) (m : string_map) :
  Forall (fun b => String.ltb k (fst b) = true) m -> map_find k m = None.
Proof.
  induction m as [ | [k' v] rest IH ]; intro H; [ reflexivity | ].
  apply Forall_cons_iff in H. destruct H as [Hk Hrest]. cbn [fst] in Hk.
  cbn [map_find].
  destruct (String.eqb_spec k' k) as [E | _].
  - exfalso. exact (ltb_neq _ _ Hk (eq_sym E)).
  - apply IH. exact Hrest.
Qed.

Lemma map_add_keys (k : string) (x : double) (m : string_map) :
  forall b, In b (map_add k x m) -> fst b = k \/ In (fst b) (map fst m).
Proof.
  induction m as [ | [k' v] rest IH ]; intros b Hb; cbn [map_add] in Hb.
  - destruct Hb as [Hb | []]. subst b. left. reflexivity.
  - destruct (String.ltb k k') eqn:L1.
    + destruct Hb as [Hb | Hb]; [ subst b; left; reflexivity | ].
      right. apply in_map. exact Hb.
    + destruct (String.ltb k' k) eqn:L2.
      * destruct Hb as [Hb | Hb]; [ subst b; right; left; reflexivity | ].
        destruct (IH b Hb) as [H | H]; [ left; exact H | right; right; exact H ].
      * destruct Hb as [Hb | Hb]; [ subst b; right; left; reflexivity | ].
        right. right. apply in_map. exact Hb.
Qed.

Lemma map_add_ascending (k : string) (x : double) (m : string_map) :
  keys_ascending m -> keys_ascending (map_add k x m).
Proof.
  unfold keys_ascending.
  induction m as [ | [k' v] rest IH ]; intro H; cbn [map_add].
  - constructor; constructor.
  - apply StronglySorted_inv in H. destruct H as [Hrest Hk'].
    destruct (String.ltb k k') eqn:L1; [ | destruct (String.ltb k' k) eqn:L2 ].
    + constructor; [ constructor; assumption | ].
      constructor; [ exact L1 | ].
      rewrite Forall_forall in Hk' |- *. intros b Hb. cbn [fst] in *.
      exact (ltb_trans _ _ _ L1 (Hk' b Hb)).
    + constructor; [ apply IH; exact Hrest | ].
      rewrite Forall_forall in Hk' |- *. intros b Hb. cbn [fst].
      destruct (map_add_keys _ _ _ _ Hb) as [E | Hin].
      * rewrite E. exact L2.
      * apply in_map_iff in Hin. destruct Hin as (b' & E & Hb').
        rewrite <- E. exact (Hk' b' Hb').
    + constructor; assumption.
Qed.

Lemma map_add_find_same (k : string) (x : double) (m : string_map) :
  keys_ascending m ->
  map_find k (map_add k x m)
  = Some (match map_find k m with
          | Some v => dadd v x
          | None => dadd (Num 0) x
          end).
Proof.
  unfold keys_ascending.
  induction m as [ | [k' v] rest IH ]; intro H; cbn [map_add].
  - cbn [map_find]. rewrite String.eqb_refl. reflexivity.
  - apply StronglySorted_inv in H. destruct H as [Hrest Hk'].
    destruct (String.ltb k k') eqn:L1; [ | destruct (String.ltb k' k) eqn:L2 ].
    + cbn [map_find]. rewrite String.eqb_refl.
      destruct (String.eqb_spec k' k) as [E | _].
      * exfalso. exact (ltb_neq _ _ L1 (eq_sym E)).
      * rewrite map_find_below; [ reflexivity | ].
        rewrite Forall_forall in Hk' |- *. intros b Hb.
        exact (ltb_trans _ _ _ L1 (Hk' b Hb)).
    + cbn [map_find].
      destruct (String.eqb_spec k' k) as [E | _].
      * exfalso. exact (ltb_neq _ _ L2 E).
      * apply IH. exact Hrest.
    + assert (E : k = k') by (apply ltb_false_both; assumption). subst k'.
      cbn [map_find]. rewrite String.eqb_refl. reflexivity.
Qed.

Lemma map_add_find_other (k k0 : string) (x : double) (m : string_map) :
  k <> k0 -> map_find k (map_add k0 x m) = map_find k m.
Proof.
  intro Hne. induction m as [ | [k' v] rest IH ]; cbn [map_add].
  - cbn [map_find]. destruct (String.eqb_spec k0 k); [ congruence | reflexivity ].
  - destruct (String.ltb k0 k') eqn:L1; [ | destruct (String.ltb k' k0) eqn:L2 ].
    + cbn [map_find]. destruct (String.eqb_spec k0 k); [ congruence | reflexivity ].
    + cbn [map_find]. rewrite IH. reflexivity.
    + assert (E : k0 = k') by (apply ltb_false_both; assumption). subst k'.
      cbn [map_find]. destruct (String.eqb_spec k0 k); [ congruence | reflexivity ].
Qed.

Lemma month_table_snoc (v : list Shift) (s : Shift) :
  month_table (v ++ [s]) = map_add (month_of s) (pay s) (month_table v).
Proof. unfold month_table. rewrite fold_left_app. reflexivity. Qed.

Lemma month_shifts_snoc (k : string) (v : list Shift) (s : Shift) :
  month_shifts k (v ++ [s])
  = (month_shifts k v ++ (if String.eqb (month_of s) k then [s] else []))%list.
Proof.
  unfold month_shifts. rewrite filter_app. cbn [filter].
  destruct (String.eqb (month_of s) k); reflexivity.
Qed.

(** What the loop of [monthlyTotals] has built after the shifts [v]:
    ascending keys, and under each key that occurs the pays of its
    shifts added from the left. *)
Lemma month_table_spec (v : list Shift) :
  keys_ascending (month_table v) /\
  forall k,
    map_find k (month_table v)
    = match month_shifts k v with
      | [] => None
      | _ :: _ => Some (sum_pay (month_shifts k v))
      end.
Proof.
  induction v as [ | s v IH ] using rev_ind.
  - split; [ constructor | reflexivity ].
  - destruct IH as (Hasc & Hfind).
    rewrite month_table_snoc.
    split; [ apply map_add_ascending; exact Hasc | ].
    intro k. rewrite month_shifts_snoc.
    destruct (String.eqb_spec (month_of s) k) as [E | Hne].
    + subst k. rewrite (map_add_find_same _ _ _ Hasc), Hfind.
      destruct (month_shifts (month_of s) v) as [ | a l ]; [ reflexivity | ].
      cbn [app]. f_equal. symmetry.
      exact (sum_pay_snoc (a :: l) s).
    + rewrite map_add_find_other by (intro E; apply Hne; symmetry; exact E).
      rewrite app_nil_r. apply Hfind.
Qed.

Lemma month_shifts_in (k : string) (v : list Shift) (s : Shift) :
  In s (month_shifts k v) <-> In s v /\ month_of s = k.
Proof.
  unfold month_shifts. rewrite filter_In.
  split; intros [H1 H2]; (split; [ exact H1 | ]).
  - apply String.eqb_eq. exact H2.
  - apply String.eqb_eq. exact H2.
Qed.

(** X7: the map [monthlyTotals] returns has its keys in strictly
    ascending order; a key is in it exactly when some shift has it as the
    first seven characters of its date, and its value is what [totalPay]
    returns for the shifts of that key, taken in collection order (the
    same [double], but for the sign of a NaN). *)
Theorem monthlyTotals_per_month (St : Type) (t : Tracker St) :
  exists m,
    monthlyTotals t = (t, Ok m) /\
    keys_ascending m /\
    forall k,
      match map_find k m with
      | Some total =>
          (exists q,
              totalPay (filter (fun s => String.eqb (Std.substr 0 7 (date s)) k)
                               (shifts t)) t = (t, Ok q) /\
              same_double total q) /\
          exists s, In s (shifts t) /\ Std.substr 0 7 (date s) = k
      | None => forall s, In s (shifts t) -> Std.substr 0 7 (date s) <> k
      end.
Proof.
  exists (month_table (shifts t)).
  destruct (month_table_spec (shifts t)) as (Hasc & Hfind).
  split; [ reflexivity | split; [ exact Hasc | ] ].
  intro k. rewrite Hfind.
  destruct (month_shifts k (shifts t)) as [ | a l ] eqn:E.
  - intros s Hs Hk.
    assert (Hin : In s (month_shifts k (shifts t)))
      by (apply month_shifts_in; split; assumption).
    rewrite E in Hin. destruct Hin.
  - split.
    + exists (sum_pay (a :: l)). split; [ | apply same_double_refl ].
      unfold totalPay. f_equal. f_equal.
      change (filter (fun s => String.eqb (Std.substr 0 7 (date s)) k) (shifts t))
        with (month_shifts k (shifts t)).
      rewrite E. reflexivity.
    + exists a.
      assert (Hin : In a (month_shifts k (shifts t))) by (rewrite E; left; reflexivity).
      apply month_shifts_in in Hin. exact Hin.
Qed.

(** ** Saving, then loading *)

Lemma fromCSV_toCSV_storable (s : Shift) (ln : N) :
  storable s -> exists s', fromCSV (toCSV s) ln = Ok s' /\ decoded_from s' s.
Proof.
  intros (Hd & Hn & _ & _ & [h Hh] & [r Hr]).
  rewrite fromCSV_toCSV_fields by assumption.
  rewrite Hh, Hr. cbn [bind].
  eexists. split; [ reflexivity | ].
  repeat split; assumption.
Qed.

Lemma load_loop_encoded (v : list Shift) :
  forall ln acc,
    Forall storable v ->
    exists v', load_loop (map toCSV v) ln acc = Ok (acc ++ v')%list /\
               Forall2 decoded_from v' v.
Proof.
  induction v as [ | s rest IH ]; intros ln acc H.
  - exists []. split; [ cbn; rewrite app_nil_r; reflexivity | constructor ].
  - apply Forall_cons_iff in H. destruct H as [Hs Hrest].
    cbn [map load_loop]. rewrite toCSV_not_empty.
    destruct (fromCSV_toCSV_storable s (ln + 1) Hs) as (s' & E & D).
    rewrite E. cbn [bind].
    destruct (IH (ln + 1)%N (acc ++ [s'])%list Hrest) as (v' & Ev & Dv).
    exists (s' :: v'). split.
    + rewrite Ev, <- app_assoc. reflexivity.
    + constructor; assumption.
Qed.

(** What [load] finds on the disk a successful [save] left. *)
Lemma load_after_save (fs : FileStorage) (v : list Shift) (d : Disk) :
  can_write d = true -> can_read d = true -> Forall storable v ->
  exists v',
    FileStorage_save fs v d
    = ({| file := Some (write_lines v); can_read := true; can_write := true |}, Ok tt) /\
    FileStorage_load fs (fst (FileStorage_save fs v d)) = Ok v' /\
    Forall2 decoded_from v' v.
Proof.
  intros W R H.
  destruct (load_loop_encoded v 0%N [] H) as (v' & E & D).
  exists v'. unfold FileStorage_save. rewrite W, R.
  split; [ reflexivity | split; [ | exact D ] ].
  unfold FileStorage_load, open_in. cbn [fst file can_read].
  rewrite getlines_write_lines; [ exact E | ].
  intros s Hs. rewrite Forall_forall in H.
  destruct (H s Hs) as (_ & _ & Hd & Hn & _).
  apply no_newline_toCSV; assumption.
Qed.

Lemma no_newline_check (s : string) :
  existsb (Ascii.eqb "010") (list_ascii_of_string s) = false -> no_newline s.
Proof.
  intros H c Hc E. subst c.
  assert (X : existsb (Ascii.eqb "010") (list_ascii_of_string s) = true).
  { apply existsb_exists. exists "010"%char. split; [ exact Hc | apply Ascii.eqb_refl ]. }
  congruence.
Qed.

Lemma help_shift_storable : storable (mkShift "2025-10-01" 5.5 12.5 "Lunch shift").
Proof.
  repeat split;
    try (apply no_comma_check; reflexivity);
    try (apply no_newline_check; reflexivity);
    eexists; vm_compute; reflexivity.
Qed.

(** X9: [save] followed by [load] on a disk that can be written and read.
    For shifts without comma and newline in their dates and notes, whose
    printed numbers [stod] accepts, [save] succeeds and [load] then
    returns as many shifts, in the same order, each with the date and
    note of the one saved and with the numbers read from their printed
    form. *)
Theorem save_then_load (fs : FileStorage) (v : list Shift) (d : Disk) :
  can_write d = true -> can_read d = true -> Forall storable v ->
  exists v',
    snd (FileStorage_save fs v d) = Ok tt /\
    FileStorage_load fs (fst (FileStorage_save fs v d)) = Ok v' /\
    Forall2 decoded_from v' v /\
    List.length v' = List.length v.
Proof.
  intros W R H.
  destruct (load_after_save fs v d W R H) as (v' & Es & El & D).
  exists v'. rewrite Es. cbn [snd].
  split; [ reflexivity | split; [ | split; [ exact D | ] ] ].
  - rewrite Es in El. exact El.
  - exact (Forall2_length D).
Qed.

(** Saving the shift of the help text on a disk without file. *)
Lemma save_then_load_witness :
  exists v',
    snd (FileStorage_save shifts_csv
           [mkShift "2025-10-01" 5.5 12.5 "Lunch shift"] fresh_disk) = Ok tt /\
    FileStorage_load shifts_csv
      (fst (FileStorage_save shifts_csv
              [mkShift "2025-10-01" 5.5 12.5 "Lunch shift"] fresh_disk)) = Ok v' /\
    Forall2 decoded_from v' [mkShift "2025-10-01" 5.5 12.5 "Lunch shift"] /\
    List.length v' = 1%nat.
Proof.
  apply (save_then_load shifts_csv
           [mkShift "2025-10-01" 5.5 12.5 "Lunch shift"] fresh_disk).
  - reflexivity.
  - reflexivity.
  - constructor; [ exact help_shift_storable | constructor ].
Defined.

(** X10: [add] followed by a fresh start.  On a disk that can be written
    and read, when the collection and the new shift are storable, [add]
    returns, and a [Tracker] constructed afterwards on the same disk
    holds as many shifts as the first one, in the same order, the last of
    them decoded from the shift added. *)
Theorem add_then_fresh_construct
    (fs : FileStorage) (s : Shift) (t : Tracker Disk) :
  can_write (storage t) = true -> can_read (storage t) = true ->
  Forall storable (shifts t ++ [s]) ->
  exists t' front s',
    snd (add (FileStorage_port fs) s t) = Ok tt /\
    construct (FileStorage_port fs) (storage (fst (add (FileStorage_port fs) s t)))
    = Ok t' /\
    Forall2 decoded_from (shifts t') (shifts t ++ [s]) /\
    shifts t' = (front ++ [s'])%list /\
    decoded_from s' s /\
    List.length front = List.length (shifts t).
Proof.
  intros W R H.
  destruct (load_after_save fs (shifts t ++ [s]) (storage t) W R H) as (v' & Es & El & D).
  unfold add, construct, FileStorage_port. cbn [save load].
  rewrite Es in El |- *. cbn [fst snd storage] in El |- *.
  rewrite El. cbn [bind].
  destruct (Forall2_app_inv_r _ _ D) as (front & back & Df & Db & Ev).
  inversion Db as [ | s' s0 back' l0 Ds Dnil ]; subst.
  inversion Dnil; subst.
  eexists. exists front, s'.
  split; [ reflexivity | split; [ reflexivity | ] ].
  cbn [shifts].
  split; [ exact D | split; [ reflexivity | split; [ exact Ds | ] ] ].
  exact (Forall2_length Df).
Qed.

(** The first [add] of a first run. *)
Lemma add_then_fresh_construct_witness :
  exists t' front s',
    snd (add (FileStorage_port shifts_csv)
           (mkShift "2025-10-01" 5.5 12.5 "Lunch shift")
           (tracker_of [] fresh_disk)) = Ok tt /\
    construct (FileStorage_port shifts_csv)
      (storage (fst (add (FileStorage_port shifts_csv)
                       (mkShift "2025-10-01" 5.5 12.5 "Lunch shift")
                       (tracker_of [] fresh_disk))))
    = Ok t' /\
    Forall2 decoded_from (shifts t')
      ([] ++ [mkShift "2025-10-01" 5.5 12.5 "Lunch shift"]) /\
    shifts t' = (front ++ [s'])%list /\
    decoded_from s' (mkShift "2025-10-01" 5.5 12.5 "Lunch shift") /\
    List.length front = 0%nat.
Proof.
  apply (add_then_fresh_construct shifts_csv
           (mkShift "2025-10-01" 5.5 12.5 "Lunch shift")
           (tracker_of [] fresh_disk)).
  - reflexivity.
  - reflexivity.
  - constructor; [ exact help_shift_storable | constructor ].
Defined.

(** ** Loading: all lines or none *)

Lemma decode_all_ok (lines : list (N * string)) :
  forall v,
    decode_all lines = Ok v ->
    Forall2 (fun p s => fromCSV (snd p) (fst p) = Ok s) lines v.
Proof.
  induction lines as [ | [ln line] rest IH ]; intros v H; cbn [decode_all] in H.
  - inversion H. constructor.
  - destruct (fromCSV line ln) as [s | e] eqn:E; cbn [bind] in H; [ | discriminate H ].
    destruct (decode_all rest) as [w | e]; cbn [bind] in H; [ | discriminate H ].
    inversion H. subst v. constructor; [ exact E | apply IH; reflexivity ].
Qed.

Lemma decode_all_first_failure (lines : list (N * string)) :
  forall e,
    decode_all lines = Throw e ->
    exists before p after,
      lines = (before ++ p :: after)%list /\
      (forall q, In q before -> exists s, fromCSV (snd q) (fst q) = Ok s) /\
      fromCSV (snd p) (fst p) = Throw e.
Proof.
  induction lines as [ | [ln line] rest IH ]; intros e H; cbn [decode_all] in H.
  - discriminate H.
  - destruct (fromCSV line ln) as [s | e1] eqn:E; cbn [bind] in H.
    + destruct (decode_all rest) as [w | e2]; cbn [bind] in H; [ discriminate H | ].
      inversion H. subst e2.
      destruct (IH e eq_refl) as (before & p & after & El & Hb & Hp).
      exists ((ln, line) :: before), p, after.
      split; [ rewrite El; reflexivity | split; [ | exact Hp ] ].
      intros q [Hq | Hq]; [ subst q; exists s; exact E | apply Hb; exact Hq ].
    + inversion H. subst e1.
      exists [], (ln, line), rest.
      split; [ reflexivity | split; [ intros q [] | exact E ] ].
Qed.

(** X11: [load] on a file that opens returns either one shift for each
    line that is not empty, in file order, each decoded from its line
    under the line's number in the file, or nothing at all: when a line
    fails to decode, [load] throws the error of the first such line and
    returns no shift, also none of those decoded before it. *)
Theorem load_all_or_nothing (fs : FileStorage) (d : Disk) (text : string) :
  open_in d = Some text ->
  let lines := filter (fun p => negb (is_empty (snd p)))
                      (numbered 0 (getlines text EmptyString)) in
  (forall v,
      FileStorage_load fs d = Ok v ->
      Forall2 (fun p s => fromCSV (snd p) (fst p) = Ok s) lines v) /\
  (forall e,
      FileStorage_load fs d = Throw e ->
      exists before p after,
        lines = (before ++ p :: after)%list /\
        (forall q, In q before -> exists s, fromCSV (snd q) (fst q) = Ok s) /\
        fromCSV (snd p) (fst p) = Throw e).
Proof.
  intros H lines.
  assert (E : FileStorage_load fs d = decode_all lines).
  { unfold FileStorage_load. rewrite H, load_loop_decode_all.
    fold lines. destruct (decode_all lines); reflexivity. }
  rewrite E. split.
  - apply decode_all_ok.
  - apply decode_all_first_failure.
Qed.

(** The file with three spaces on its second line: the first line
    decodes, the second does not, and nothing is returned. *)
Lemma load_all_or_nothing_witness :
  exists before p after,
    filter (fun p => negb (is_empty (snd p)))
           (numbered 0 (getlines ("2025-01-05,2,10," ++ nl ++ "   " ++ nl ++
                                  "2025-01-20,3,10,x" ++ nl) EmptyString))
    = (before ++ p :: after)%list /\
    (forall q, In q before -> exists s, fromCSV (snd q) (fst q) = Ok s) /\
    fromCSV (snd p) (fst p) = Throw (bad_csv 2).
Proof.
  apply (proj2 (load_all_or_nothing shifts_csv disk_with_blank_line
                  ("2025-01-05,2,10," ++ nl ++ "   " ++ nl ++
                   "2025-01-20,3,10,x" ++ nl) eq_refl)).
  vm_compute. reflexivity.
Defined.

(** ** The recent window *)

Lemma copy_if_recent_ok (cutoff : Z) (l : list Shift) :
  forall acc out,
    copy_if_recent cutoff l acc = Ok out ->
    forall s, In s l -> exists ts, midnight s = Ok ts.
Proof.
  induction l as [ | a l IH ]; intros acc out H s Hs; [ destruct Hs | ].
  cbn [copy_if_recent] in H.
  destruct (parseISO (date a)) as [t | e] eqn:E; cbn [bind] in H; [ | discriminate H ].
  destruct Hs as [Hs | Hs].
  - subst s. unfold midnight. rewrite E. eexists. reflexivity.
  - exact (IH _ _ H s Hs).
Qed.

Lemma copy_if_recent_throws (cutoff : Z) (l : list Shift) :
  forall acc s e,
    In s l -> parseISO (date s) = Throw e ->
    exists e', copy_if_recent cutoff l acc = Throw e'.
Proof.
  induction l as [ | a l IH ]; intros acc s e Hs He; [ destruct Hs | ].
  cbn [copy_if_recent].
  destruct (parseISO (date a)) as [t | e1] eqn:E; cbn [bind].
  - destruct Hs as [Hs | Hs]; [ subst a; congruence | ].
    exact (IH _ s e Hs He).
  - eexists. reflexivity.
Qed.

Lemma at_or_after_earlier (c c' : Z) (s : Shift) :
  c' <= c -> at_or_after c s = true -> at_or_after c' s = true.
Proof.
  unfold at_or_after. destruct (midnight s); [ | discriminate ].
  rewrite !Z.leb_le. lia.
Qed.

Lemma filterRecentDays_is_filter (St : Type) (now : Z) (t : Tracker St) :
  forall days out,
    snd (filterRecentDays now days t) = Ok out ->
    out = filter (at_or_after (now - days * 86400)) (shifts t).
Proof.
  intros days out H. unfold filterRecentDays in H. cbn [snd] in H.
  pose proof (copy_if_recent_ok _ _ _ _ H) as P.
  rewrite copy_if_recent_filter in H by exact P.
  inversion H. f_equal. f_equal. lia.
Qed.

(** X12: [filterRecentDays] for any number of days.  When it returns, it
    returns the shifts dated at or after [now - days * 86400], in
    collection order, and a longer window returns every shift a shorter
    one returns.  When the date of some shift of the collection cannot be
    parsed, it returns nothing and throws, whatever the window. *)
Theorem filterRecentDays_window (St : Type) (now : Z) (t : Tracker St) :
  (forall days out,
      snd (filterRecentDays now days t) = Ok out ->
      out = filter (at_or_after (now - days * 86400)) (shifts t)) /\
  (forall days days' out out',
      days <= days' ->
      snd (filterRecentDays now days t) = Ok out ->
      snd (filterRecentDays now days' t) = Ok out' ->
      forall s, In s out -> In s out') /\
  (forall days s e,
      In s (shifts t) -> parseISO (date s) = Throw e ->
      exists e', snd (filterRecentDays now days t) = Throw e').
Proof.
  pose proof (filterRecentDays_is_filter St now t) as F.
  split; [ exact F | split ].
  - intros days days' out out' Hle H H' s Hs.
    rewrite (F _ _ H) in Hs. rewrite (F _ _ H').
    apply filter_In in Hs. apply filter_In. destruct Hs as [Hin Hat].
    split; [ exact Hin | ].
    apply at_or_after_earlier with (2 := Hat). lia.
  - intros days s e Hs He. unfold filterRecentDays. cbn [snd].
    exact (copy_if_recent_throws _ _ _ s e Hs He).
Qed.

(** The windows of 0 and of 1 day at noon of 2025-01-10. *)
Lemma filterRecentDays_window_witness :
  In (mkShift "2025-01-11" 3 10 "")
     (value_of (snd (filterRecentDays noon_jan_10 1 (tracker_of around_jan_10 tt))) []).
Proof.
  apply (proj1 (proj2 (filterRecentDays_window unit noon_jan_10
                         (tracker_of around_jan_10 tt)))
           0 1 [mkShift "2025-01-11" 3 10 ""]).
  - lia.
  - vm_compute. reflexivity.
  - vm_compute. reflexivity.
  - left. reflexivity.
Defined.

(** X13: a shift whose date has fewer than 10 characters is read as
    dated 1899-12-31 (the zero-filled [tm]): [filterRecentDays] returns it
    only when the window reaches back to that day, that is when
    [now - days * 86400] is at most -2209075200. *)
Theorem filterRecentDays_short_date
    (St : Type) (now days : Z) (t : Tracker St) (s : Shift) (out : list Shift) :
  (String.length (date s) < 10)%nat ->
  In s (shifts t) ->
  snd (filterRecentDays now days t) = Ok out ->
  midnight s = Ok (-2209075200) /\
  (In s out <-> now - days * 86400 <= -2209075200).
Proof.
  intros Hlen Hs H.
  assert (M : midnight s = Ok (-2209075200)).
  { unfold midnight, parseISO. apply Nat.leb_gt in Hlen. rewrite Hlen. reflexivity. }
  split; [ exact M | ].
  rewrite (filterRecentDays_is_filter St now t days out H).
  rewrite filter_In. unfold at_or_after. rewrite M, Z.leb_le.
  tauto.
Qed.

(** A shift dated [2025-1-9] (8 characters) with a window of a year. *)
Lemma filterRecentDays_short_date_witness :
  midnight (mkShift "2025-1-9" 1 10 "") = Ok (-2209075200) /\
  (In (mkShift "2025-1-9" 1 10 "") [] <->
   noon_jan_10 - 365 * 86400 <= -2209075200).
Proof.
  apply (filterRecentDays_short_date unit noon_jan_10 365
           (tracker_of [mkShift "2025-1-9" 1 10 ""] tt)
           (mkShift "2025-1-9" 1 10 "") []).
  - cbn. lia.
  - left. reflexivity.
  - vm_compute. reflexivity.
Defined.

(** ** The command line *)

Section MainFacts.

Variable std_sort : (Shift -> Shift -> bool) -> list Shift -> list Shift.
Variable now : Z.

Lemma construct_file (d : Disk) :
  construct (FileStorage_port shifts_csv) d
  = (v <- FileStorage_load shifts_csv d ;;
     Ok {| shifts := v; storage := d; port_log := [called_load] |}).
Proof. reflexivity. Qed.

(** What the [try] block can return, and the disk it leaves. *)
Lemma main_try_cases (args : list string) (d d' : Disk)
    (r : result (string * string * Z)) :
  main_try std_sort now args d = (d', r) ->
  match r with
  | Ok (out, err, code) =>
      (code = 0 /\ err = EmptyString /\
       (d' = d \/ (nth 0 args EmptyString = "--add" /\ can_write d = true))) \/
      (code = 1 /\ out = EmptyString /\
       err = "Unknown command. Use --help." ++ nl /\ d' = d)
  | Throw _ => d' = d
  end.
Proof.
  unfold main_try. intro H.
  destruct args as [ | cmd rest ]; [ inversion H; left; auto | ].
  destruct (String.eqb cmd "--help"); [ inversion H; left; auto | ].
  rewrite construct_file in H.
  destruct (FileStorage_load shifts_csv d) as [v | e]; cbn [bind] in H;
    [ | inversion H; reflexivity ].
  destruct (String.eqb_spec cmd "--add") as [Ecmd | _]; cbn [andb] in H.
  - destruct (4 <=? List.length (cmd :: rest))%nat.
    + destruct (Std.stod (nth 2 (cmd :: rest) EmptyString)) as [h | e]; cbn [bind] in H;
        [ | inversion H; reflexivity ].
      destruct (Std.stod (nth 3 (cmd :: rest) EmptyString)) as [r0 | e]; cbn [bind] in H;
        [ | inversion H; reflexivity ].
      unfold add, FileStorage_port in H. cbn [save storage shifts] in H.
      unfold FileStorage_save in H.
      destruct (can_write d) eqn:W; inversion H; [ | reflexivity ].
      left. split; [ reflexivity | split; [ reflexivity | ] ].
      right. split; [ exact Ecmd | reflexivity ].
    + destruct (String.eqb cmd "--list"); [ inversion H; left; auto | ].
      destruct (String.eqb cmd "--recent" && (2 <=? List.length (cmd :: rest))%nat)%bool.
      * destruct (Std.stoi (nth 1 (cmd :: rest) EmptyString)) as [days | e];
          cbn [bind] in H; [ | inversion H; reflexivity ].
        destruct (snd (filterRecentDays now days _)) as [w | e];
          cbn [bind] in H; inversion H; [ left; auto | reflexivity ].
      * destruct (String.eqb cmd "--monthly"); [ inversion H; left; auto | ].
        destruct (String.eqb cmd "--summary"); inversion H; [ left; auto | ].
        right. auto.
  - destruct (String.eqb cmd "--list"); [ inversion H; left; auto | ].
    destruct (String.eqb cmd "--recent" && (2 <=? List.length (cmd :: rest))%nat)%bool.
    + destruct (Std.stoi (nth 1 (cmd :: rest) EmptyString)) as [days | e];
        cbn [bind] in H; [ | inversion H; reflexivity ].
      destruct (snd (filterRecentDays now days _)) as [w | e];
        cbn [bind] in H; inversion H; [ left; auto | reflexivity ].
    + destruct (String.eqb cmd "--monthly"); [ inversion H; left; auto | ].
      destruct (String.eqb cmd "--summary"); inversion H; [ left; auto | ].
      right. auto.
Qed.

End MainFacts.

(** X14: every run of [main] ends in one of three ways.  Exit code 0:
    nothing on standard error, and the disk as it was unless the command
    was [--add] and the file could be written.  Exit code 1: nothing on
    standard output, the line "Unknown command. Use --help." on standard
    error, the disk as it was.  Exit code 2: nothing on standard output,
    a line "Error: <what>" on standard error, the disk as it was. *)
Theorem main_outcomes
    (std_sort : (Shift -> Shift -> bool) -> list Shift -> list Shift)
    (now : Z) (args : list string) (d : Disk) :
  let r := main std_sort now args d in
  (exit_code r = 0 /\ stderr r = EmptyString /\
   (disk r = d \/ (nth 0 args EmptyString = "--add" /\ can_write d = true))) \/
  (exit_code r = 1 /\ stdout r = EmptyString /\
   stderr r = "Unknown command. Use --help." ++ nl /\ disk r = d) \/
  (exit_code r = 2 /\ stdout r = EmptyString /\
   (exists e, stderr r = "Error: " ++ what_of e ++ nl) /\ disk r = d).
Proof.
  unfold main.
  destruct (main_try std_sort now args d) as [d' r] eqn:E.
  pose proof (main_try_cases std_sort now args d d' r E) as C.
  destruct r as [[[out err] code] | e]; cbn.
  - destruct C as [(Hc & He & Hd) | (Hc & Ho & He & Hd)]; [ left | right; left ]; auto.
  - right. right. repeat split; [ exists e; reflexivity | exact C ].
Qed.

(** X15: [--help], or no argument at all, prints the help text and exits
    with 0 without opening the file, whatever its state; any other first
    argument, known or not, ends in exit code 2 with the error of [load]
    when the file cannot be loaded. *)
Theorem main_needs_the_file_except_for_help
    (std_sort : (Shift -> Shift -> bool) -> list Shift -> list Shift)
    (now : Z) (d : Disk) :
  main std_sort now [] d
  = {| stdout := help_text; stderr := EmptyString; exit_code := 0; disk := d |} /\
  (forall rest,
      main std_sort now ("--help" :: rest) d
      = {| stdout := help_text; stderr := EmptyString; exit_code := 0; disk := d |}) /\
  (forall cmd rest e,
      cmd <> "--help" ->
      FileStorage_load shifts_csv d = Throw e ->
      main std_sort now (cmd :: rest) d
      = {| stdout := EmptyString; stderr := "Error: " ++ what_of e ++ nl;
           exit_code := 2; disk := d |}).
Proof.
  split; [ reflexivity | split; [ reflexivity | ] ].
  intros cmd rest e Hcmd Hload. unfold main, main_try.
  destruct (String.eqb_spec cmd "--help") as [E | _]; [ contradiction | ].
  rewrite construct_file, Hload. reflexivity.
Qed.

(** An unknown command on the file with a blank second line. *)
Lemma main_needs_the_file_except_for_help_witness :
  main Libstdcxx.sort noon_jan_10 ["--frobnicate"] disk_with_blank_line
  = {| stdout := EmptyString;
       stderr := "Error: " ++ what_of (bad_csv 2) ++ nl;
       exit_code := 2; disk := disk_with_blank_line |}.
Proof.
  apply (proj2 (proj2 (main_needs_the_file_except_for_help
                         Libstdcxx.sort noon_jan_10 disk_with_blank_line))).
  - discriminate.
  - vm_compute. reflexivity.
Defined.

(** X16: [--add date hours rate [note ...]] when the file loads, [stod]
    converts both numbers and the file can be written: the run prints
    "Added: " and the line of the new shift, exits with 0, and leaves as
    file the lines of all the shifts that were loaded, encoded again,
    followed by the line of the new shift, each with its newline.
    Arguments after the note are ignored. *)
Theorem main_add_rewrites_the_file
    (std_sort : (Shift -> Shift -> bool) -> list Shift -> list Shift)
    (now : Z) (d : Disk) (day hs rs : string) (rest : list string)
    (v : list Shift) (h r : double) :
  FileStorage_load shifts_csv d = Ok v ->
  Std.stod hs = Ok h -> Std.stod rs = Ok r ->
  can_write d = true ->
  let s := {| date := day; hours := h; hourlyRate := r;
              note := nth 0 rest EmptyString |} in
  main std_sort now ("--add" :: day :: hs :: rs :: rest) d
  = {| stdout := "Added: " ++ toCSV s ++ nl;
       stderr := EmptyString;
       exit_code := 0;
       disk := {| file := Some (String.concat EmptyString
                                  (map (fun x => toCSV x ++ nl) (v ++ [s])));
                  can_read := can_read d;
                  can_write := true |} |}.
Proof.
  intros Hload Hh Hr W s. unfold main, main_try.
  cbn [String.eqb Ascii.eqb Bool.eqb andb List.length Nat.leb nth].
  rewrite construct_file, Hload. cbn [bind].
  rewrite Hh, Hr. cbn [bind].
  unfold add, FileStorage_port. cbn [save storage shifts].
  unfold FileStorage_save. rewrite W.
  fold (encoded_lines (v ++ [s])). rewrite <- write_lines_encoded.
  subst s. destruct rest; reflexivity.
Qed.

(** A second shift added to the file with an empty second line: the
    empty line is gone from the file afterwards.  And a first shift whose
    numbers have more than six digits: they are printed, and stored, with
    six. *)
Lemma main_add_rewrites_the_file_witness :
  main Libstdcxx.sort noon_jan_10
    ["--add"; "2025-02-01"; "5.5"; "12.5"; "late"; "ignored"] disk_with_empty_line
  = {| stdout := "Added: 2025-02-01,5.5,12.5,late" ++ nl;
       stderr := EmptyString;
       exit_code := 0;
       disk := {| file := Some ("2025-01-05,2,10," ++ nl ++
                                "2025-01-20,3,10,x" ++ nl ++
                                "2025-02-01,5.5,12.5,late" ++ nl);
                  can_read := true; can_write := true |} |} /\
  main Libstdcxx.sort noon_jan_10
    ["--add"; "2025-01-01"; "99999.95"; "1.000005"; "n"] fresh_disk
  = {| stdout := "Added: 2025-01-01,99999.9,1.00001,n" ++ nl;
       stderr := EmptyString;
       exit_code := 0;
       disk := {| file := Some ("2025-01-01,99999.9,1.00001,n" ++ nl);
                  can_read := true; can_write := true |} |}.
Proof.
  split.
  - rewrite (main_add_rewrites_the_file Libstdcxx.sort noon_jan_10
               disk_with_empty_line "2025-02-01" "5.5" "12.5" ["late"; "ignored"]
               [mkShift "2025-01-05" 2 10 ""; mkShift "2025-01-20" 3 10 "x"]
               (Num 5.5) (Num 12.5));
      vm_compute; reflexivity.
  - rewrite (main_add_rewrites_the_file Libstdcxx.sort noon_jan_10
               fresh_disk "2025-01-01" "99999.95" "1.000005" ["n"]
               [] (Num 99999.95) (Num 1.000005));
      vm_compute; reflexivity.
Defined.

(** X17: [--add] on a file that exists but cannot be read, and can be
    written, with two numbers that convert: [load] reports no shift, so
    the run exits with 0 and leaves a file that holds the line of the new
    shift alone; the text that was in the file is gone. *)
Theorem main_add_overwrites_unreadable_file
    (std_sort : (Shift -> Shift -> bool) -> list Shift -> list Shift)
    (now : Z) (d : Disk) (text day hs rs : string) (rest : list string)
    (h r : double) :
  file d = Some text -> can_read d = false -> can_write d = true ->
  Std.stod hs = Ok h -> Std.stod rs = Ok r ->
  let s := {| date := day; hours := h; hourlyRate := r;
              note := nth 0 rest EmptyString |} in
  exit_code (main std_sort now ("--add" :: day :: hs :: rs :: rest) d) = 0 /\
  file (disk (main std_sort now ("--add" :: day :: hs :: rs :: rest) d))
  = Some (toCSV s ++ nl).
Proof.
  intros Hf R W Hh Hr s. unfold main, main_try.
  cbn [String.eqb Ascii.eqb Bool.eqb andb List.length Nat.leb nth].
  rewrite construct_file.
  unfold FileStorage_load, open_in. rewrite Hf, R. cbn [bind].
  rewrite Hh, Hr. cbn [bind].
  unfold add, FileStorage_port. cbn [save storage shifts].
  unfold FileStorage_save. rewrite W.
  subst s. destruct rest; split; reflexivity.
Qed.

(** A file of two shifts that cannot be read. *)
Lemma main_add_overwrites_unreadable_file_witness :
  exit_code (main Libstdcxx.sort noon_jan_10
               ["--add"; "2025-02-01"; "5.5"; "12.5"]
               {| file := Some ("2025-01-05,2,10," ++ nl ++ "2025-01-20,3,10,x" ++ nl);
                  can_read := false; can_write := true |}) = 0 /\
  file (disk (main Libstdcxx.sort noon_jan_10
                ["--add"; "2025-02-01"; "5.5"; "12.5"]
                {| file := Some ("2025-01-05,2,10," ++ nl ++ "2025-01-20,3,10,x" ++ nl);
                   can_read := false; can_write := true |}))
  = Some (toCSV (mkShift "2025-02-01" 5.5 12.5 "") ++ nl).
Proof.
  apply (main_add_overwrites_unreadable_file Libstdcxx.sort noon_jan_10
           {| file := Some ("2025-01-05,2,10," ++ nl ++ "2025-01-20,3,10,x" ++ nl);
              can_read := false; can_write := true |}
           ("2025-01-05,2,10," ++ nl ++ "2025-01-20,3,10,x" ++ nl)
           "2025-02-01" "5.5" "12.5" [] (Num 5.5) (Num 12.5));
    vm_compute; reflexivity.
Defined.

(** X18: a known command without its operands is answered like an unknown
    one.  When the file loads, [--add] with fewer than three operands and
    [--recent] without operand print "Unknown command. Use --help." on
    standard error and exit with 1, leaving the disk as it was. *)
Theorem main_missing_operands
    (std_sort : (Shift -> Shift -> bool) -> list Shift -> list Shift)
    (now : Z) (d : Disk) (v : list Shift) :
  FileStorage_load shifts_csv d = Ok v ->
  let unknown := {| stdout := EmptyString;
                    stderr := "Unknown command. Use --help." ++ nl;
                    exit_code := 1; disk := d |} in
  main std_sort now ["--add"] d = unknown /\
  (forall a, main std_sort now ["--add"; a] d = unknown) /\
  (forall a b, main std_sort now ["--add"; a; b] d = unknown) /\
  main std_sort now ["--recent"] d = unknown.
Proof.
  intros Hload unknown.
  repeat split; intros; unfold main, main_try;
    cbn [String.eqb Ascii.eqb Bool.eqb andb List.length Nat.leb];
    rewrite construct_file, Hload; reflexivity.
Qed.

(** [--add] with a date and hours, but no rate, on a disk without file. *)
Lemma main_missing_operands_witness :
  main Libstdcxx.sort noon_jan_10 ["--add"; "2025-02-01"; "5.5"] fresh_disk
  = {| stdout := EmptyString;
       stderr := "Unknown command. Use --help." ++ nl;
       exit_code := 1; disk := fresh_disk |}.
Proof.
  apply (proj1 (proj2 (proj2 (main_missing_operands Libstdcxx.sort noon_jan_10
                                fresh_disk [] eq_refl)))).
Defined.

(** ** Date strings and time *)

Lemma string_length_app (a b : string) :
  String.length (a ++ b) = (String.length a + String.length b)%nat.
Proof. induction a as [ | c a IH ]; cbn; [ reflexivity | rewrite IH; reflexivity ]. Qed.

Lemma digits_fixed_length (w : nat) : forall n, String.length (Std.digits_fixed w n) = w.
Proof.
  induction w as [ | w IH ]; intro n; cbn; [ reflexivity | ].
  rewrite string_length_app, IH. cbn. lia.
Qed.

Lemma substring_prefix (a : string) :
  forall b, substring 0 (String.length a) (a ++ b) = a.
Proof.
  induction a as [ | c a IH ]; intro b; cbn.
  - destruct b; reflexivity.
  - rewrite IH. reflexivity.
Qed.

Lemma substring_skip (a : string) :
  forall b n m, substring (String.length a + n) m (a ++ b) = substring n m b.
Proof.
  induction a as [ | c a IH ]; intros b n m; cbn; [ reflexivity | apply IH ].
Qed.

Lemma digit_value_digit_char (d : Z) :
  0 <= d < 10 -> Std.digit_value (Std.digit_char d) = Some d.
Proof.
  intro H.
  assert (E : d = 0 \/ d = 1 \/ d = 2 \/ d = 3 \/ d = 4 \/
              d = 5 \/ d = 6 \/ d = 7 \/ d = 8 \/ d = 9) by lia.
  repeat (destruct E as [E | E]; [ subst d; reflexivity | ]).
  subst d; reflexivity.
Qed.

Lemma digit_char_plain (d : Z) :
  0 <= d < 10 ->
  Std.isspace (Std.digit_char d) = false /\
  forall rest, Std.read_sign (String (Std.digit_char d) rest)
               = (false, String (Std.digit_char d) rest).
Proof.
  intro H.
  assert (E : d = 0 \/ d = 1 \/ d = 2 \/ d = 3 \/ d = 4 \/
              d = 5 \/ d = 6 \/ d = 7 \/ d = 8 \/ d = 9) by lia.
  repeat (destruct E as [E | E]; [ subst d; split; reflexivity | ]).
  subst d; split; reflexivity.
Qed.

Lemma mod_pow10_succ (n : Z) (w : nat) :
  n mod 10 ^ Z.of_nat (S w) = 10 * ((n / 10) mod 10 ^ Z.of_nat w) + n mod 10.
Proof.
  rewrite Nat2Z.inj_succ, Z.pow_succ_r by lia.
  rewrite Z.rem_mul_r by (try lia; apply Z.pow_pos_nonneg; lia).
  lia.
Qed.

Lemma read_digits_digits_fixed (w : nat) :
  forall n rest acc c,
    Std.read_digits (Std.digits_fixed w n ++ rest) acc c
    = Std.read_digits rest (acc * 10 ^ Z.of_nat w + n mod 10 ^ Z.of_nat w) (c + w).
Proof.
  induction w as [ | w IH ]; intros n rest acc c.
  - cbn [Std.digits_fixed append]. rewrite Z.mod_1_r.
    change (10 ^ Z.of_nat 0) with 1. f_equal; [ lia | lia ].
  - cbn [Std.digits_fixed]. rewrite append_snoc, IH.
    cbn [Std.read_digits].
    rewrite digit_value_digit_char by (apply Z.mod_pos_bound; lia).
    rewrite mod_pow10_succ.
    rewrite Nat2Z.inj_succ, Z.pow_succ_r by lia.
    f_equal; [ lia | lia ].
Qed.

Lemma digits_fixed_head (w : nat) :
  forall n, exists d rest,
    0 <= d < 10 /\ Std.digits_fixed (S w) n = String (Std.digit_char d) rest.
Proof.
  induction w as [ | w IH ]; intro n.
  - exists (n mod 10), EmptyString. split; [ apply Z.mod_pos_bound; lia | reflexivity ].
  - destruct (IH (n / 10)) as (d & rest & Hd & E).
    exists d, (rest ++ String (Std.digit_char (n mod 10)) EmptyString).
    split; [ exact Hd | ].
    change (Std.digits_fixed (S (S w)) n)
      with (Std.digits_fixed (S w) (n / 10) ++ String (Std.digit_char (n mod 10)) EmptyString).
    rewrite E. reflexivity.
Qed.

(** [stoi] reads a number back from its digits. *)
Lemma stoi_digits_fixed (w : nat) (n : Z) :
  (S w <= 9)%nat -> 0 <= n < 10 ^ Z.of_nat (S w) ->
  Std.stoi (Std.digits_fixed (S w) n) = Ok n.
Proof.
  intros Hw Hn. unfold Std.stoi.
  destruct (digits_fixed_head w n) as (d & rest & Hd & E).
  destruct (digit_char_plain d Hd) as [Hsp Hsign].
  assert (S1 : Std.skip_space (Std.digits_fixed (S w) n) = Std.digits_fixed (S w) n).
  { rewrite E. cbn [Std.skip_space]. rewrite Hsp. reflexivity. }
  rewrite S1.
  assert (S2 : Std.read_sign (Std.digits_fixed (S w) n) = (false, Std.digits_fixed (S w) n)).
  { rewrite E. apply Hsign. }
  rewrite S2.
  rewrite <- (append_empty_r (Std.digits_fixed (S w) n)).
  rewrite read_digits_digits_fixed. cbn [Std.read_digits].
  rewrite Z.mod_small by exact Hn.
  cbn [Nat.add].
  replace (0 * 10 ^ Z.of_nat (S w) + n) with n by lia.
  assert (B : 10 ^ Z.of_nat (S w) <= 10 ^ 9) by (apply Z.pow_le_mono_r; lia).
  change (10 ^ 9) with 1000000000 in B.
  match goal with
  | |- (if ?b then _ else _) = _ =>
      replace b with true;
      [ reflexivity | symmetry; apply andb_true_iff; split; apply Z.leb_le; lia ]
  end.
Qed.

Lemma parseISO_iso_date (y m d : Z) :
  0 <= y <= 9999 -> 0 <= m <= 99 -> 0 <= d <= 99 ->
  parseISO (iso_date y m d)
  = Ok {| tm_year := y - 1900; tm_mon := m - 1; tm_mday := d;
          tm_hour := 0; tm_min := 0; tm_sec := 0 |}.
Proof.
  intros Hy Hm Hd. unfold parseISO, iso_date, Std.substr.
  assert (L : String.length
                (Std.digits_fixed 4 y ++ "-" ++ Std.digits_fixed 2 m ++ "-" ++
                 Std.digits_fixed 2 d) = 10%nat).
  { rewrite !string_length_app, !digits_fixed_length. reflexivity. }
  rewrite L. cbn [Nat.leb].
  pose proof (substring_prefix (Std.digits_fixed 4 y)) as P4.
  rewrite digits_fixed_length in P4. rewrite P4.
  pose proof (substring_skip (Std.digits_fixed 4 y)) as K4.
  rewrite digits_fixed_length in K4.
  rewrite (K4 _ 1%nat 2%nat), (K4 _ 4%nat 2%nat).
  change ("-" ++ ?x) with (String "-" x).
  cbn [substring].
  pose proof (substring_prefix (Std.digits_fixed 2 m)) as P2.
  rewrite digits_fixed_length in P2. rewrite P2.
  pose proof (substring_skip (Std.digits_fixed 2 m)) as K2.
  rewrite digits_fixed_length in K2.
  rewrite (K2 _ 1%nat 2%nat). cbn [substring].
  pose proof (substring_prefix (Std.digits_fixed 2 d) EmptyString) as P2d.
  rewrite append_empty_r, digits_fixed_length in P2d.
  change ("-" ++ Std.digits_fixed 2 d) with (String "-" (Std.digits_fixed 2 d)).
  cbn [substring]. rewrite P2d.
  rewrite !stoi_digits_fixed by (try (cbn; lia); lia).
  reflexivity.
Qed.


Lemma ascii_compare_digit_char (x y : Z) :
  0 <= x < 10 -> 0 <= y < 10 ->
  Ascii.compare (Std.digit_char x) (Std.digit_char y) = (x ?= y).
Proof.
  intros Hx Hy.
  assert (Ex : x = 0 \/ x = 1 \/ x = 2 \/ x = 3 \/ x = 4 \/
               x = 5 \/ x = 6 \/ x = 7 \/ x = 8 \/ x = 9) by lia.
  assert (Ey : y = 0 \/ y = 1 \/ y = 2 \/ y = 3 \/ y = 4 \/
               y = 5 \/ y = 6 \/ y = 7 \/ y = 8 \/ y = 9) by lia.
  repeat (destruct Ex as [Ex | Ex]; [ subst x | ]); try subst x;
    repeat (destruct Ey as [Ey | Ey]; [ subst y; reflexivity | ]); subst y; reflexivity.
Qed.

Lemma compare_lex_step (qa ra qb rb : Z) :
  0 <= ra < 10 -> 0 <= rb < 10 ->
  (10 * qa + ra ?= 10 * qb + rb)
  = match qa ?= qb with
    | Eq => ra ?= rb
    | c => c
    end.
Proof.
  intros Ha Hb.
  destruct (Z.compare_spec qa qb) as [E | L | G].
  - subst qb. destruct (Z.compare_spec ra rb) as [E | L | G].
    + subst. apply Z.compare_refl.
    + apply Z.compare_lt_iff. lia.
    + apply Z.compare_gt_iff. lia.
  - apply Z.compare_lt_iff. lia.
  - apply Z.compare_gt_iff. lia.
Qed.

(** Numbers written with the same number of digits compare as strings
    the way they compare as numbers. *)
Lemma compare_digits_fixed (w : nat) :
  forall a b r1 r2,
    String.compare (Std.digits_fixed w a ++ r1) (Std.digits_fixed w b ++ r2)
    = match a mod 10 ^ Z.of_nat w ?= b mod 10 ^ Z.of_nat w with
      | Eq => String.compare r1 r2
      | c => c
      end.
Proof.
  induction w as [ | w IH ]; intros a b r1 r2.
  - cbn [Std.digits_fixed append]. rewrite !Z.mod_1_r. reflexivity.
  - cbn [Std.digits_fixed]. rewrite !append_snoc, IH, !mod_pow10_succ.
    pose proof (Z.mod_pos_bound a 10 ltac:(lia)) as Ha.
    pose proof (Z.mod_pos_bound b 10 ltac:(lia)) as Hb.
    rewrite (compare_lex_step _ _ _ _ Ha Hb).
    destruct ((a / 10) mod 10 ^ Z.of_nat w ?= (b / 10) mod 10 ^ Z.of_nat w);
      try reflexivity.
    cbn [String.compare]. rewrite (ascii_compare_digit_char _ _ Ha Hb).
    destruct (a mod 10 ?= b mod 10); reflexivity.
Qed.

Lemma compare_iso_date (y1 m1 d1 y2 m2 d2 : Z) :
  0 <= y1 <= 9999 -> 0 <= m1 <= 99 -> 0 <= d1 <= 99 ->
  0 <= y2 <= 9999 -> 0 <= m2 <= 99 -> 0 <= d2 <= 99 ->
  String.compare (iso_date y1 m1 d1) (iso_date y2 m2 d2)
  = match y1 ?= y2 with
    | Eq => match m1 ?= m2 with
            | Eq => d1 ?= d2
            | c => c
            end
    | c => c
    end.
Proof.
  intros Hy1 Hm1 Hd1 Hy2 Hm2 Hd2. unfold iso_date.
  rewrite compare_digits_fixed.
  change (10 ^ Z.of_nat 4) with 10000.
  rewrite !Z.mod_small by lia.
  destruct (y1 ?= y2); try reflexivity.
  change ("-" ++ ?x) with (String "-" x).
  cbn [String.compare]. change (Ascii.compare "-" "-") with Eq. cbv iota.
  rewrite compare_digits_fixed.
  change (10 ^ Z.of_nat 2) with 100.
  rewrite !Z.mod_small by lia.
  destruct (m1 ?= m2); try reflexivity.
  change ("-" ++ ?x) with (String "-" x).
  cbn [String.compare]. change (Ascii.compare "-" "-") with Eq. cbv iota.
  rewrite <- (append_empty_r (Std.digits_fixed 2 d1)).
  rewrite <- (append_empty_r (Std.digits_fixed 2 d2)).
  rewrite compare_digits_fixed.
  change (10 ^ Z.of_nat 2) with 100.
  rewrite !Z.mod_small by lia.
  destruct (d1 ?= d2); reflexivity.
Qed.

Lemma utc_timegm_calendar (y m d : Z) :
  1 <= m <= 12 ->
  utc_timegm {| tm_year := y - 1900; tm_mon := m - 1; tm_mday := d;
                tm_hour := 0; tm_min := 0; tm_sec := 0 |}
  = 86400 * day_number y m d.
Proof.
  intro Hm. unfold utc_timegm, Std_time.timegm, day_number.
  cbn [tm_year tm_mon tm_mday tm_hour tm_min tm_sec].
  rewrite Z.div_small, Z.mod_small by lia.
  replace (y - 1900 + 1900 + 0) with y by lia. lia.
Qed.

Lemma days_before_year_succ (y : Z) :
  Std_time.days_before_year (y + 1)
  = Std_time.days_before_year y + 365 + (if Std_time.is_leap y then 1 else 0).
Proof.
  unfold Std_time.days_before_year, Std_time.leaps_before, Std_time.is_leap.
  replace (y + 1 - 1) with y by lia.
  destruct (Z.eqb_spec (y mod 4) 0) as [E4 | N4];
    destruct (Z.eqb_spec (y mod 100) 0) as [E100 | N100];
    destruct (Z.eqb_spec (y mod 400) 0) as [E400 | N400];
    cbn [negb andb orb];
    Z.to_euclidean_division_equations; lia.
Qed.

Lemma days_before_year_mono (y1 y2 : Z) :
  y1 <= y2 -> Std_time.days_before_year y1 <= Std_time.days_before_year y2.
Proof.
  intro H. unfold Std_time.days_before_year, Std_time.leaps_before.
  Z.to_euclidean_division_equations. lia.
Qed.

Ltac each_month m :=
  let E := fresh "E" in
  assert (E : m = 1 \/ m = 2 \/ m = 3 \/ m = 4 \/ m = 5 \/ m = 6 \/
              m = 7 \/ m = 8 \/ m = 9 \/ m = 10 \/ m = 11 \/ m = 12) by lia;
  repeat (destruct E as [E | E]; [ subst m | ]); try subst m.

Ltac eval_months :=
  repeat match goal with
    | |- context [Std_time.days_before_month ?b ?k] =>
        let v := eval vm_compute in (Std_time.days_before_month b k) in
        change (Std_time.days_before_month b k) with v
    | H : context [days_in_month ?b ?k] |- _ =>
        let v := eval vm_compute in (days_in_month b k) in
        change (days_in_month b k) with v in H
    | |- context [days_in_month ?b ?k] =>
        let v := eval vm_compute in (days_in_month b k) in
        change (days_in_month b k) with v
    end.

Lemma day_of_year_bound (leap : bool) (m d : Z) :
  1 <= m <= 12 -> 1 <= d <= days_in_month leap m ->
  0 <= Std_time.days_before_month leap (m - 1) + (d - 1)
    <= 364 + (if leap then 1 else 0).
Proof.
  intros Hm Hd. each_month m; destruct leap; eval_months; lia.
Qed.

Lemma month_order (leap : bool) (m1 d1 m2 d2 : Z) :
  1 <= m1 -> m1 < m2 -> m2 <= 12 ->
  1 <= d1 <= days_in_month leap m1 -> 1 <= d2 ->
  Std_time.days_before_month leap (m1 - 1) + d1
  < Std_time.days_before_month leap (m2 - 1) + d2.
Proof.
  intros H1 H12 H2 Hd1 Hd2.
  assert (M1 : 1 <= m1 <= 12) by lia.
  assert (M2 : 1 <= m2 <= 12) by lia.
  each_month m1; each_month m2; try lia; destruct leap; eval_months; lia.
Qed.

Lemma day_number_lex (y1 m1 d1 y2 m2 d2 : Z) :
  calendar_day y1 m1 d1 -> calendar_day y2 m2 d2 ->
  y1 < y2 \/ (y1 = y2 /\ (m1 < m2 \/ (m1 = m2 /\ d1 < d2))) ->
  day_number y1 m1 d1 < day_number y2 m2 d2.
Proof.
  intros (Hy1 & Hm1 & Hd1) (Hy2 & Hm2 & Hd2) H. unfold day_number.
  destruct H as [Hy | [Ey [Hm | [Em Hd]]]].
  - pose proof (day_of_year_bound _ _ _ Hm1 Hd1) as B1.
    pose proof (day_of_year_bound _ _ _ Hm2 Hd2) as B2.
    pose proof (days_before_year_succ y1) as S1.
    pose proof (days_before_year_mono (y1 + 1) y2 ltac:(lia)) as M.
    destruct (Std_time.is_leap y1); lia.
  - subst y2.
    pose proof (month_order (Std_time.is_leap y1) m1 d1 m2 d2
                  ltac:(lia) Hm ltac:(lia) Hd1 ltac:(lia)).
    lia.
  - subst y2 m2. lia.
Qed.

Lemma days_in_month_bound (leap : bool) (m : Z) :
  1 <= m <= 12 -> days_in_month leap m <= 31.
Proof. intro Hm. each_month m; destruct leap; eval_months; lia. Qed.

Lemma midnight_iso_date (a : Shift) (y m d : Z) :
  date a = iso_date y m d -> calendar_day y m d ->
  midnight a = Ok (86400 * day_number y m d).
Proof.
  intros Ea C. pose proof C as (Hy & Hm & Hd).
  pose proof (days_in_month_bound (Std_time.is_leap y) m Hm) as B.
  unfold midnight. rewrite Ea.
  rewrite parseISO_iso_date by lia. cbn [bind].
  rewrite utc_timegm_calendar by lia. reflexivity.
Qed.

Lemma iso_date_order (y1 m1 d1 y2 m2 d2 : Z) :
  calendar_day y1 m1 d1 -> calendar_day y2 m2 d2 ->
  (String.ltb (iso_date y1 m1 d1) (iso_date y2 m2 d2) = true <->
   day_number y1 m1 d1 < day_number y2 m2 d2) /\
  (iso_date y1 m1 d1 = iso_date y2 m2 d2 <->
   day_number y1 m1 d1 = day_number y2 m2 d2).
Proof.
  intros C1 C2.
  pose proof C1 as (Hy1 & Hm1 & Hd1). pose proof C2 as (Hy2 & Hm2 & Hd2).
  pose proof (days_in_month_bound (Std_time.is_leap y1) m1 Hm1) as B1.
  pose proof (days_in_month_bound (Std_time.is_leap y2) m2 Hm2) as B2.
  unfold String.ltb.
  assert (Cmp := compare_iso_date y1 m1 d1 y2 m2 d2
                   ltac:(lia) ltac:(lia) ltac:(lia) ltac:(lia) ltac:(lia) ltac:(lia)).
  assert (Eq_iff : iso_date y1 m1 d1 = iso_date y2 m2 d2 <->
                   String.compare (iso_date y1 m1 d1) (iso_date y2 m2 d2) = Eq).
  { split; [ intro E; rewrite E; apply string_compare_refl
           | apply String.compare_eq_iff ]. }
  rewrite Eq_iff, Cmp.
  destruct (Z.compare_spec y1 y2) as [Ey | Ly | Gy].
  - destruct (Z.compare_spec m1 m2) as [Em | Lm | Gm].
    + destruct (Z.compare_spec d1 d2) as [Ed | Ld | Gd].
      * subst. split; split; intro H; try reflexivity; try discriminate H; lia.
      * pose proof (day_number_lex _ _ _ _ _ _ C1 C2 ltac:(lia)) as L.
        split; split; intro H; try reflexivity; try discriminate H; lia.
      * pose proof (day_number_lex _ _ _ _ _ _ C2 C1 ltac:(lia)) as L.
        split; split; intro H; try reflexivity; try discriminate H; lia.
    + pose proof (day_number_lex _ _ _ _ _ _ C1 C2 ltac:(lia)) as L.
      split; split; intro H; try reflexivity; try discriminate H; lia.
    + pose proof (day_number_lex _ _ _ _ _ _ C2 C1 ltac:(lia)) as L.
      split; split; intro H; try reflexivity; try discriminate H; lia.
  - pose proof (day_number_lex _ _ _ _ _ _ C1 C2 ltac:(lia)) as L.
    split; split; intro H; try reflexivity; try discriminate H; lia.
  - pose proof (day_number_lex _ _ _ _ _ _ C2 C1 ltac:(lia)) as L.
    split; split; intro H; try reflexivity; try discriminate H; lia.
Qed.

(** X19: on well-formed dates the order of the date strings is the order
    in time.  For two shifts dated [YYYY-MM-DD] with days of the calendar
    (years 0 to 9999), [parseISO] and [utc_timegm] give each a time, and
    the comparison [listAllSorted] sorts by puts the first shift before
    the second exactly when its time is the earlier one; equal times mean
    equal date strings. *)
Theorem date_order_is_time_order
    (a b : Shift) (y1 m1 d1 y2 m2 d2 : Z) :
  date a = iso_date y1 m1 d1 -> date b = iso_date y2 m2 d2 ->
  calendar_day y1 m1 d1 -> calendar_day y2 m2 d2 ->
  exists ta tb,
    midnight a = Ok ta /\ midnight b = Ok tb /\
    (by_date a b = true <-> ta < tb) /\
    (date a = date b <-> ta = tb).
Proof.
  intros Ea Eb C1 C2.
  exists (86400 * day_number y1 m1 d1), (86400 * day_number y2 m2 d2).
  split; [ exact (midnight_iso_date a _ _ _ Ea C1) | ].
  split; [ exact (midnight_iso_date b _ _ _ Eb C2) | ].
  destruct (iso_date_order _ _ _ _ _ _ C1 C2) as [Hlt Heq].
  unfold by_date. rewrite Ea, Eb. split.
  - rewrite Hlt. lia.
  - rewrite Heq. lia.
Qed.

Lemma calendar_day_check (y m d : Z) :
  ((0 <=? y) && (y <=? 9999) && (1 <=? m) && (m <=? 12) && (1 <=? d) &&
   (d <=? days_in_month (Std_time.is_leap y) m))%bool = true ->
  calendar_day y m d.
Proof.
  intro H. repeat (apply andb_true_iff in H; destruct H as [H ?]).
  unfold calendar_day. rewrite <- !Z.leb_le. auto.
Qed.

(** The shifts dated 2025-01-10 and 2025-03-01. *)
Lemma date_order_is_time_order_witness :
  exists ta tb,
    midnight (mkShift "2025-01-10" 5 10 "b") = Ok ta /\
    midnight (mkShift "2025-03-01" 4 10 "a") = Ok tb /\
    (by_date (mkShift "2025-01-10" 5 10 "b") (mkShift "2025-03-01" 4 10 "a") = true
     <-> ta < tb) /\
    (date (mkShift "2025-01-10" 5 10 "b") = date (mkShift "2025-03-01" 4 10 "a")
     <-> ta = tb).
Proof.
  apply (date_order_is_time_order
           (mkShift "2025-01-10" 5 10 "b") (mkShift "2025-03-01" 4 10 "a")
           2025 1 10 2025 3 1).
  - reflexivity.
  - reflexivity.
  - apply calendar_day_check. reflexivity.
  - apply calendar_day_check. reflexivity.
Defined.

(** X20: for a collection whose dates are all well-formed days of the
    calendar, [listAllSorted] returns the shifts in order of time: each
    shift of the result has a time, at most the time of every shift
    after it, whatever the sorting procedure. *)
Theorem listAllSorted_chronological
    (St : Type)
    (std_sort : (Shift -> Shift -> bool) -> list Shift -> list Shift)
    (t : Tracker St) :
  sort_contract std_sort ->
  (forall s, In s (shifts t) ->
             exists y m d, date s = iso_date y m d /\ calendar_day y m d) ->
  exists out,
    snd (listAllSorted std_sort t) = Ok out /\
    StronglySorted
      (fun a b => exists ta tb,
                    midnight a = Ok ta /\ midnight b = Ok tb /\ ta <= tb) out.
Proof.
  intros C W. exists (std_sort by_date (shifts t)).
  split; [ reflexivity | ].
  destruct (C by_date (shifts t) by_date_strict_weak_order) as [P S].
  assert (W' : forall s, In s (std_sort by_date (shifts t)) ->
                         exists y m d, date s = iso_date y m d /\ calendar_day y m d).
  { intros s Hs. apply W. apply (Permutation_in s (Permutation_sym P)). exact Hs. }
  clear P W.
  induction S as [ | a l Sl IH Ha ]; [ constructor | ].
  constructor.
  - apply IH. intros s Hs. apply W'. right. exact Hs.
  - rewrite Forall_forall in Ha |- *. intros b Hb.
    destruct (W' a (or_introl eq_refl)) as (y1 & m1 & d1 & Ea & C1).
    destruct (W' b (or_intror Hb)) as (y2 & m2 & d2 & Eb & C2).
    exists (86400 * day_number y1 m1 d1), (86400 * day_number y2 m2 d2).
    split; [ exact (midnight_iso_date a _ _ _ Ea C1) | ].
    split; [ exact (midnight_iso_date b _ _ _ Eb C2) | ].
    specialize (Ha b Hb). unfold by_date in Ha. rewrite Ea, Eb in Ha.
    destruct (iso_date_order _ _ _ _ _ _ C2 C1) as [Hlt _].
    destruct (Z.lt_ge_cases (day_number y2 m2 d2) (day_number y1 m1 d1)) as [L | G].
    + apply Hlt in L. congruence.
    + lia.
Qed.

Lemma march_then_january_well_formed (s : Shift) :
  In s march_then_january ->
  exists y m d, date s = iso_date y m d /\ calendar_day y m d.
Proof.
  intros [H | [H | [H | []]]]; subst s.
  - exists 2025, 3, 1. split; [ reflexivity | apply calendar_day_check; reflexivity ].
  - exists 2025, 1, 10. split; [ reflexivity | apply calendar_day_check; reflexivity ].
  - exists 2025, 1, 10. split; [ reflexivity | apply calendar_day_check; reflexivity ].
Qed.

(** The three shifts dated 2025-03-01, 2025-01-10, 2025-01-10 with the
    insertion sort. *)
Lemma listAllSorted_chronological_witness :
  exists out,
    snd (listAllSorted insertion_sort (tracker_of march_then_january tt)) = Ok out /\
    StronglySorted
      (fun a b => exists ta tb,
                    midnight a = Ok ta /\ midnight b = Ok tb /\ ta <= tb) out.
Proof.
  apply (listAllSorted_chronological unit insertion_sort
           (tracker_of march_then_january tt)).
  - exact insertion_sort_contract.
  - exact march_then_january_well_formed.
Defined.

(** ** Dates that are not checked *)

Lemma parseISO_fields (y m d : Z) (c1 c2 : ascii) (suffix : string) :
  0 <= y <= 9999 -> 0 <= m <= 99 -> 0 <= d <= 99 ->
  parseISO (Std.digits_fixed 4 y ++
            String c1 (Std.digits_fixed 2 m ++
                       String c2 (Std.digits_fixed 2 d ++ suffix)))
  = Ok {| tm_year := y - 1900; tm_mon := m - 1; tm_mday := d;
          tm_hour := 0; tm_min := 0; tm_sec := 0 |}.
Proof.
  intros Hy Hm Hd. unfold parseISO, Std.substr.
  assert (L : (10 <=? String.length
                 (Std.digits_fixed 4 y ++
                  String c1 (Std.digits_fixed 2 m ++
                             String c2 (Std.digits_fixed 2 d ++ suffix))))%nat = true).
  { apply Nat.leb_le.
    rewrite string_length_app, digits_fixed_length. cbn [String.length].
    rewrite string_length_app, digits_fixed_length. cbn [String.length].
    rewrite string_length_app, digits_fixed_length. lia. }
  rewrite L.
  pose proof (substring_prefix (Std.digits_fixed 4 y)) as P4.
  rewrite digits_fixed_length in P4. rewrite P4.
  pose proof (substring_skip (Std.digits_fixed 4 y)) as K4.
  rewrite digits_fixed_length in K4.
  rewrite (K4 _ 1%nat 2%nat), (K4 _ 4%nat 2%nat).
  cbn [substring].
  pose proof (substring_prefix (Std.digits_fixed 2 m)) as P2.
  rewrite digits_fixed_length in P2. rewrite P2.
  pose proof (substring_skip (Std.digits_fixed 2 m)) as K2.
  rewrite digits_fixed_length in K2.
  rewrite (K2 _ 1%nat 2%nat). cbn [substring].
  pose proof (substring_prefix (Std.digits_fixed 2 d)) as P2d.
  rewrite digits_fixed_length in P2d. rewrite P2d.
  rewrite !stoi_digits_fixed by (try (cbn; lia); lia).
  reflexivity.
Qed.

(** X21: [parseISO] reads the digits at positions 0-3, 5-6 and 8-9 and
    nothing else: whatever the two separators are and whatever follows
    the tenth character, the result is the one for [YYYY-MM-DD]; month
    and day are taken as written, in range or not. *)
Theorem parseISO_ignores_the_rest
    (y m d : Z) (c1 c2 : ascii) (suffix : string) :
  0 <= y <= 9999 -> 0 <= m <= 99 -> 0 <= d <= 99 ->
  parseISO (Std.digits_fixed 4 y ++
            String c1 (Std.digits_fixed 2 m ++
                       String c2 (Std.digits_fixed 2 d ++ suffix)))
  = parseISO (iso_date y m d) /\
  parseISO (iso_date y m d)
  = Ok {| tm_year := y - 1900; tm_mon := m - 1; tm_mday := d;
          tm_hour := 0; tm_min := 0; tm_sec := 0 |}.
Proof.
  intros Hy Hm Hd.
  rewrite parseISO_fields by assumption.
  rewrite parseISO_iso_date by assumption.
  split; reflexivity.
Qed.

(** The date [2025/13/45 12:00]. *)
Lemma parseISO_ignores_the_rest_witness :
  parseISO "2025/13/45 12:00" = parseISO (iso_date 2025 13 45) /\
  parseISO (iso_date 2025 13 45)
  = Ok {| tm_year := 2025 - 1900; tm_mon := 13 - 1; tm_mday := 45;
          tm_hour := 0; tm_min := 0; tm_sec := 0 |}.
Proof.
  apply (parseISO_ignores_the_rest 2025 13 45 "/" "/" " 12:00"); lia.
Defined.

Lemma midnight_written (a : Shift) (y m d : Z) :
  date a = iso_date y m d ->
  0 <= y <= 9999 -> 0 <= m <= 99 -> 0 <= d <= 99 ->
  midnight a
  = Ok (utc_timegm {| tm_year := y - 1900; tm_mon := m - 1; tm_mday := d;
                      tm_hour := 0; tm_min := 0; tm_sec := 0 |}).
Proof.
  intros E Hy Hm Hd. unfold midnight. rewrite E.
  rewrite parseISO_iso_date by assumption. reflexivity.
Qed.

(** X22: a date whose month or day is out of range is not rejected but
    rolls over.  A month written 12 higher is the same month of the next
    year, and every day number counts on from the first of the month: a
    shift dated [y-m-d] is read as [d - 1] days after [y-m-01], so
    [2025-02-30] is read as 2025-03-02 and day [00] as the last day of
    the month before. *)
Theorem midnight_rolls_over (a b first : Shift) (y m d : Z) :
  0 <= y <= 9998 -> 1 <= m <= 87 -> 0 <= d <= 99 ->
  date a = iso_date y (m + 12) d ->
  date b = iso_date (y + 1) m d ->
  date first = iso_date (y + 1) m 1 ->
  exists ta tb t1,
    midnight a = Ok ta /\ midnight b = Ok tb /\ midnight first = Ok t1 /\
    ta = tb /\ tb = t1 + 86400 * (d - 1).
Proof.
  intros Hy Hm Hd Ea Eb E1.
  rewrite (midnight_written a _ _ _ Ea) by lia.
  rewrite (midnight_written b _ _ _ Eb) by lia.
  rewrite (midnight_written first _ _ _ E1) by lia.
  do 3 eexists. split; [ reflexivity | split; [ reflexivity | split; [ reflexivity | ] ] ].
  unfold utc_timegm, Std_time.timegm.
  cbn [tm_year tm_mon tm_mday tm_hour tm_min tm_sec].
  replace (m + 12 - 1) with (m - 1 + 1 * 12) by lia.
  rewrite Z.div_add, Z.mod_add by lia.
  replace (y - 1900 + 1900 + ((m - 1) / 12 + 1))
    with (y + 1 - 1900 + 1900 + (m - 1) / 12) by lia.
  split; lia.
Qed.

(** The dates [2025-14-30], [2026-02-30] and [2026-02-01]. *)
Lemma midnight_rolls_over_witness :
  exists ta tb t1,
    midnight (mkShift "2025-14-30" 1 10 "") = Ok ta /\
    midnight (mkShift "2026-02-30" 1 10 "") = Ok tb /\
    midnight (mkShift "2026-02-01" 1 10 "") = Ok t1 /\
    ta = tb /\ tb = t1 + 86400 * (30 - 1).
Proof.
  apply (midnight_rolls_over
           (mkShift "2025-14-30" 1 10 "") (mkShift "2026-02-30" 1 10 "")
           (mkShift "2026-02-01" 1 10 "") 2025 2 30);
    try lia; reflexivity.
Defined.

(** ** More fields than four *)

Lemma split_fields_app (a : string) :
  forall b cur,
    split_fields (a ++ String "," b) cur
    = (split_fields a cur ++ split_fields b EmptyString)%list.
Proof.
  induction a as [ | c a IH ]; intros b cur; [ reflexivity | ].
  cbn [append split_fields].
  destruct (Ascii.eqb c ","); rewrite IH; reflexivity.
Qed.

(** X23: [fromCSV] uses the first four fields of a line and ignores the
    rest: a line of four or more fields decodes the same with anything
    appended after a further comma, and a line of exactly three fields
    decodes the same with a comma appended (an empty note). *)
Theorem fromCSV_ignores_further_fields (line junk : string) (ln : N) :
  ((4 <= List.length (split_fields line EmptyString))%nat ->
   fromCSV (line ++ String "," junk) ln = fromCSV line ln) /\
  (List.length (split_fields line EmptyString) = 3%nat ->
   fromCSV (line ++ ",") ln = fromCSV line ln).
Proof.
  split.
  - intro H. unfold fromCSV. rewrite split_fields_app.
    set (l := split_fields line EmptyString) in *.
    set (l' := split_fields junk EmptyString).
    rewrite length_app.
    replace (List.length l + List.length l' <? 3)%nat with false
      by (symmetry; apply Nat.ltb_ge; lia).
    replace (List.length l <? 3)%nat with false
      by (symmetry; apply Nat.ltb_ge; lia).
    replace (4 <=? List.length l + List.length l')%nat with true
      by (symmetry; apply Nat.leb_le; lia).
    replace (4 <=? List.length l)%nat with true
      by (symmetry; apply Nat.leb_le; lia).
    rewrite !app_nth1 by lia. reflexivity.
  - intro H. unfold fromCSV. rewrite split_fields_app.
    set (l := split_fields line EmptyString) in *.
    cbn [split_fields]. rewrite length_app, H. cbn [List.length Nat.add Nat.ltb Nat.leb].
    rewrite !app_nth1 by lia.
    rewrite app_nth2 by lia. rewrite H. reflexivity.
Qed.

(** A line of five fields, and a line of three. *)
Lemma fromCSV_ignores_further_fields_witness :
  fromCSV "2025-01-05,2,10,note,more,and more" 1 = fromCSV "2025-01-05,2,10,note" 1 /\
  fromCSV "2025-01-05,2,10," 1 = fromCSV "2025-01-05,2,10" 1.
Proof.
  split.
  - apply (proj1 (fromCSV_ignores_further_fields
                    "2025-01-05,2,10,note" "more,and more" 1)).
    cbn. lia.
  - apply (proj2 (fromCSV_ignores_further_fields "2025-01-05,2,10" EmptyString 1)).
    reflexivity.
Defined.

(** ** Several calls of [add] *)



